(** * Group-membership tracker: a shallow embedding of the bot's services

    The development follows the TypeScript sources:
    - [config/index.ts]                 the configured keyword;
    - [models/Group.ts], [models/User.ts]  the two collections;
    - [services/database/group.ts]      [GroupService];
    - [services/whatsapp/client.ts]     [WhatsAppClient] (listeners, metadata);
    - [controllers/whatsapp.ts]         [WhatsAppController] (event handlers);
    - the earlier single-file bot, kept in module [Legacy].

    Asynchronous store calls become computations in a state-and-exception
    monad over a [World]; a rejected promise is a [Throw]. *)

From Stdlib Require Import String Ascii ZArith List Bool Lia.
From stdpp Require Import base gmap sets list strings pretty.

Local Open Scope string_scope.
Local Open Scope list_scope.
Set Warnings "-clear-no-such-hyp".

(** ** JavaScript strings

    Names are byte strings; [toLowerCase] folds the letters 'A'..'Z' and
    leaves every other code unit as it is. *)

Definition lowerChar (c : ascii) : ascii :=
  let n := N_of_ascii c in
  if ((65 <=? n)%N && (n <=? 90)%N)%bool then ascii_of_N (n + 32) else c.

Fixpoint toLowerCase (s : string) : string :=
  match s with
  | EmptyString => EmptyString
  | String c s' => String (lowerChar c) (toLowerCase s')
  end.

Fixpoint startsWith (s p : string) {struct p} : bool :=
  match p, s with
  | EmptyString, _ => true
  | String c p', String d s' => Ascii.eqb c d && startsWith s' p'
  | String _ _, EmptyString => false
  end.

Fixpoint includes (s sub : string) : bool :=
  startsWith s sub ||
  match s with
  | EmptyString => false
  | String _ s' => includes s' sub
  end.

Definition endsWith (s suf : string) : bool :=
  let n := String.length s in
  let k := String.length suf in
  (k <=? n)%nat && String.eqb (String.substring (n - k) k s) suf.

(** A string is truthy when it is not empty. *)
Definition truthy (s : string) : bool :=
  match s with EmptyString => false | _ => true end.

(** [a || b] on optional strings, with [''] as the last alternative:
    [conversation || extendedTextMessage?.text || '']. *)
Definition orElse (a : option string) (b : string) : string :=
  match a with
  | Some s => if truthy s then s else b
  | None => b
  end.

(** ** Configuration ([config.whatsapp]) *)

Module config.
Definition targetKeyword : string := "neol".
Definition markOnlineOnConnect : bool := false.
End config.

(** ** Documents of the two collections ([types/index.ts], the schemas)

    Dates are instants counted in ticks of the world's clock; an [ObjectId]
    is the number the store hands out at insertion.  [createdAt] and the
    [_id] of a group are never read and are left out, and so is the
    stamping of [updatedAt] that the schemas' [timestamps] option adds to
    updates that do not set it themselves. *)

Module IGroup.
Record t := mk {
  groupId : string;
  isMonitored : bool;
  name : option string;
  updatedAt : nat
}.
End IGroup.

Module IUser.
Record t := mk {
  _id : nat;
  phoneNumber : string;
  groupId : string;
  isActive : bool;
  updatedAt : nat
}.
End IUser.

Record GroupDetail := {
  gd_name : string;
  gd_id : string;
  containsTargetKeyword : bool;
  totalMembers : Z;
  activeMembers : Z;
  inactiveMembers : Z
}.

Record IDatabaseStatus := {
  totalGroups : Z;
  targetGroups : Z;
  forceMonitoredGroups : Z;
  groupDetails : list GroupDetail
}.

(** ** What the messaging library delivers *)

(** [GroupMetadata], with each participant reduced to its [id]. *)
Record GroupMetadata := {
  subject : string;
  participants : list string
}.

Inductive Action := add | remove | promote | demote.

Record ParticipantsUpdate := {
  pu_id : string;
  pu_participants : list string;
  pu_action : Action
}.

(** An element of a [groups.update] event: a partial metadata. *)
Record GroupUpdate := {
  gu_id : option string;
  gu_subject : option string
}.

(** An element of a [groups.upsert] event. *)
Record NewGroup := {
  ng_id : string;
  ng_subject : option string;
  ng_participants : option (list string)
}.

Record MessageBody := {
  conversation : option string;
  extendedText : option string   (* [extendedTextMessage?.text] *)
}.

Record WAMessage := {
  message : option MessageBody;
  remoteJid : option string;
  fromMe : bool
}.

Inductive Connection := conn_open | conn_close | conn_connecting.

Record ConnectionUpdate := {
  connection : option Connection;
  statusCode : option nat;       (* [lastDisconnect?.error?.output?.statusCode] *)
  qr : option string
}.

Module DisconnectReason.
Definition loggedOut : nat := 401.
End DisconnectReason.

Definition isJidGroup (jid : string) : bool := endsWith jid "@g.us".

(** ** The world a handler runs in *)

(** Calls on the document store, as they are issued. *)
Inductive StoreCall :=
| Group_find                                              (* [{isMonitored: true}] *)
| Group_findOneAndUpdate (groupId : string) (upsert : bool)
| User_find (groupId : string)
| User_findOneAndUpdate (phoneNumber groupId : string) (upsert : bool)
| User_findByIdAndUpdate (id : nat)
| User_countDocuments (groupId : string) (activeOnly : bool).

Definition isWrite (c : StoreCall) : bool :=
  match c with
  | Group_findOneAndUpdate _ _ | User_findOneAndUpdate _ _ _
  | User_findByIdAndUpdate _ => true
  | Group_find | User_find _ | User_countDocuments _ _ => false
  end.

Inductive Error :=
| StoreError (c : StoreCall)      (* the store rejected this call *)
| SocketError (what : string).    (* the socket rejected a query *)

Inductive Level := INFO | WARN | ERROR | SUCCESS.

Record LogEntry := { level : Level; text : string }.

Record Db := {
  groups : list IGroup.t;        (* in insertion order *)
  users : list IUser.t;          (* in insertion order *)
  nextId : nat                   (* the next [ObjectId] *)
}.

(** The socket as the handlers see it: the account, and what the server
    would answer to metadata queries ([None]: it cannot be reached). *)
Record Socket := {
  user : option (option string * string);          (* [name?], [id] *)
  remote : option (list (string * GroupMetadata))
}.

Record Env := {
  clock : nat;                   (* [new Date()] *)
  faults : list bool;            (* upcoming store calls: [true] rejects *)
  socket : option Socket         (* [this.socket] *)
}.

(** Everything observable a handler leaves behind, newest first. *)
Record Out := {
  logs : list LogEntry;
  journal : list StoreCall;
  outbox : list (string * string)
}.

Record Client := {
  reconnectAttempts : nat;
  timers : list N;               (* delays handed to [setTimeout] *)
  authCleared : bool;
  exited : option nat            (* [process.exit] code *)
}.

Record World := {
  db : Db;
  monitoredGroupsCache : gset string;
  env : Env;
  out : Out;
  client : Client
}.

Definition with_db (f : Db -> Db) (w : World) : World :=
  {| db := f (db w); monitoredGroupsCache := monitoredGroupsCache w;
     env := env w; out := out w; client := client w |}.
Definition with_cache (f : gset string -> gset string) (w : World) : World :=
  {| db := db w; monitoredGroupsCache := f (monitoredGroupsCache w);
     env := env w; out := out w; client := client w |}.
Definition with_env (f : Env -> Env) (w : World) : World :=
  {| db := db w; monitoredGroupsCache := monitoredGroupsCache w;
     env := f (env w); out := out w; client := client w |}.
Definition with_out (f : Out -> Out) (w : World) : World :=
  {| db := db w; monitoredGroupsCache := monitoredGroupsCache w;
     env := env w; out := f (out w); client := client w |}.
Definition with_client (f : Client -> Client) (w : World) : World :=
  {| db := db w; monitoredGroupsCache := monitoredGroupsCache w;
     env := env w; out := out w; client := f (client w) |}.

(** ** Asynchronous code: state and exceptions *)

Inductive Result (A : Type) :=
| Ok (a : A)
| Throw (e : Error).
Arguments Ok {A} a.
Arguments Throw {A} e.

Definition M (A : Type) : Type := World -> Result A * World.

Definition ret {A} (a : A) : M A := fun w => (Ok a, w).
Definition throw {A} (e : Error) : M A := fun w => (Throw e, w).
Definition bind {A B} (m : M A) (k : A -> M B) : M B :=
  fun w => match m w with
           | (Ok a, w') => k a w'
           | (Throw e, w') => (Throw e, w')
           end.
Definition tryCatch {A} (body : M A) (handler : Error -> M A) : M A :=
  fun w => match body w with
           | (Ok a, w') => (Ok a, w')
           | (Throw e, w') => handler e w'
           end.
Definition gets {A} (f : World -> A) : M A := fun w => (Ok (f w), w).
Definition modify (f : World -> World) : M unit := fun w => (Ok tt, f w).

Notation "x <- m ;; k" := (bind m (fun x => k))
  (at level 100, m at next level, right associativity).
Notation "m ;; k" := (bind m (fun _ => k))
  (at level 100, right associativity).

Definition when (b : bool) (m : M unit) : M unit := if b then m else ret tt.

(** [for (const x of xs) { body }]: a throwing iteration ends the loop. *)
Fixpoint forEach {X} (xs : list X) (body : X -> M unit) : M unit :=
  match xs with
  | [] => ret tt
  | x :: rest => body x ;; forEach rest body
  end.

(** The same loop around local variables [s]. *)
Fixpoint foldM {X S} (xs : list X) (s : S) (body : S -> X -> M S) : M S :=
  match xs with
  | [] => ret s
  | x :: rest => s' <- body s x ;; foldM rest s' body
  end.

(** ** The logger, the clock, the store *)

Definition log (l : Level) (msg : string) : M unit :=
  modify (with_out (fun o =>
    {| logs := {| level := l; text := msg |} :: logs o;
       journal := journal o; outbox := outbox o |})).

Module logger.
Definition info := log INFO.
Definition warn := log WARN.
Definition error := log ERROR.
Definition success := log SUCCESS.
End logger.

(** [`${error}`] *)
Definition showError (e : Error) : string :=
  match e with
  | StoreError _ => "MongoServerError"
  | SocketError what => "Error: " +:+ what
  end.

(** [`${x}`] of a possibly undefined string *)
Definition showOpt (s : option string) : string := default "undefined" s.

Definition newDate : M nat := gets (fun w => clock (env w)).

(** Every store call is awaited: it is written to the journal, time
    passes, and the store answers or rejects. *)
Definition storeCall (c : StoreCall) : M unit := fun w =>
  let w' := with_out (fun o => {| logs := logs o; journal := c :: journal o;
                                  outbox := outbox o |}) w in
  let tick fs := with_env (fun e => {| clock := S (clock e); faults := fs;
                                       socket := socket e |}) w' in
  match faults (env w) with
  | true :: fs => (Throw (StoreError c), tick fs)
  | false :: fs => (Ok tt, tick fs)
  | [] => (Ok tt, tick [])
  end.

(** Replace the first element that satisfies [P]; [None] when none does. *)
Fixpoint updateFirst {A} (P : A -> bool) (f : A -> A) (l : list A)
  : option (list A) :=
  match l with
  | [] => None
  | x :: rest =>
      if P x then Some (f x :: rest)
      else option_map (cons x) (updateFirst P f rest)
  end.

Module Group.
(** The fields an update document sets; keys whose value is [undefined]
    are dropped from the update, so [name: undefined] sets nothing.
    [groupId] repeats the filter and is not listed. *)
Record Patch := {
  isMonitored : option bool;
  name : option string;
  updatedAt : option nat
}.

Definition apply (p : Patch) (d : IGroup.t) : IGroup.t :=
  {| IGroup.groupId := IGroup.groupId d;
     IGroup.isMonitored := default (IGroup.isMonitored d) (isMonitored p);
     IGroup.name := match name p with Some n => Some n | None => IGroup.name d end;
     IGroup.updatedAt := default (IGroup.updatedAt d) (updatedAt p) |}.

(** The document an upsert inserts: filter, update, schema defaults. *)
Definition fresh (groupId : string) (p : Patch) (now : nat) : IGroup.t :=
  {| IGroup.groupId := groupId;
     IGroup.isMonitored := default true (isMonitored p);
     IGroup.name := name p;
     IGroup.updatedAt := default now (updatedAt p) |}.

Definition hasId (groupId : string) (d : IGroup.t) : bool :=
  String.eqb (IGroup.groupId d) groupId.

Definition write (groupId : string) (p : Patch) (upsert : bool) (now : nat)
    (gs : list IGroup.t) : list IGroup.t :=
  match updateFirst (hasId groupId) (apply p) gs with
  | Some gs' => gs'
  | None => if upsert then gs ++ [fresh groupId p now] else gs
  end.

(** [Group.find({ isMonitored: true })] *)
Definition find : M (list IGroup.t) :=
  storeCall Group_find ;;
  gets (fun w => List.filter IGroup.isMonitored (groups (db w))).

(** [Group.findOneAndUpdate({ groupId }, patch, { upsert })] *)
Definition findOneAndUpdate (groupId : string) (p : Patch) (upsert : bool)
  : M unit :=
  storeCall (Group_findOneAndUpdate groupId upsert) ;;
  now <- newDate ;;
  modify (with_db (fun d =>
    {| groups := write groupId p upsert now (groups d);
       users := users d; nextId := nextId d |})).
End Group.

Module User.
(** [phoneNumber] and [groupId] repeat the filter and are not listed. *)
Record Patch := {
  isActive : option bool;
  updatedAt : option nat
}.

Definition apply (p : Patch) (d : IUser.t) : IUser.t :=
  {| IUser._id := IUser._id d;
     IUser.phoneNumber := IUser.phoneNumber d;
     IUser.groupId := IUser.groupId d;
     IUser.isActive := default (IUser.isActive d) (isActive p);
     IUser.updatedAt := default (IUser.updatedAt d) (updatedAt p) |}.

Definition fresh (id : nat) (phoneNumber groupId : string) (p : Patch)
    (now : nat) : IUser.t :=
  {| IUser._id := id;
     IUser.phoneNumber := phoneNumber;
     IUser.groupId := groupId;
     IUser.isActive := default true (isActive p);
     IUser.updatedAt := default now (updatedAt p) |}.

Definition inGroup (groupId : string) (d : IUser.t) : bool :=
  String.eqb (IUser.groupId d) groupId.
Definition isMember (phoneNumber groupId : string) (d : IUser.t) : bool :=
  String.eqb (IUser.phoneNumber d) phoneNumber && inGroup groupId d.
Definition hasId (id : nat) (d : IUser.t) : bool := Nat.eqb (IUser._id d) id.

Definition write (phoneNumber groupId : string) (p : Patch) (upsert : bool)
    (now : nat) (d : Db) : Db :=
  match updateFirst (isMember phoneNumber groupId) (apply p) (users d) with
  | Some us => {| groups := groups d; users := us; nextId := nextId d |}
  | None =>
      if upsert then
        {| groups := groups d;
           users := users d ++ [fresh (nextId d) phoneNumber groupId p now];
           nextId := S (nextId d) |}
      else d
  end.

Definition writeById (id : nat) (p : Patch) (d : Db) : Db :=
  match updateFirst (hasId id) (apply p) (users d) with
  | Some us => {| groups := groups d; users := us; nextId := nextId d |}
  | None => d
  end.

(** [User.find({ groupId })] *)
Definition find (groupId : string) : M (list IUser.t) :=
  storeCall (User_find groupId) ;;
  gets (fun w => List.filter (inGroup groupId) (users (db w))).

(** [User.findOneAndUpdate({ phoneNumber, groupId }, patch, { upsert })] *)
Definition findOneAndUpdate (phoneNumber groupId : string) (p : Patch)
    (upsert : bool) : M unit :=
  storeCall (User_findOneAndUpdate phoneNumber groupId upsert) ;;
  now <- newDate ;;
  modify (with_db (write phoneNumber groupId p upsert now)).

(** [User.findByIdAndUpdate(id, patch)] *)
Definition findByIdAndUpdate (id : nat) (p : Patch) : M unit :=
  storeCall (User_findByIdAndUpdate id) ;;
  modify (with_db (writeById id p)).

(** [User.countDocuments({ groupId })] and
    [User.countDocuments({ groupId, isActive: true })] *)
Definition countDocuments (groupId : string) (activeOnly : bool) : M Z :=
  storeCall (User_countDocuments groupId activeOnly) ;;
  gets (fun w =>
    Z.of_nat (length (List.filter
      (fun d => inGroup groupId d && (negb activeOnly || IUser.isActive d))
      (users (db w))))).
End User.

(** [new Map(entries)]: a later entry replaces the value of an equal key
    and keeps the key's place. *)
Fixpoint Map_set {V} (k : string) (v : V) (m : list (string * V))
  : list (string * V) :=
  match m with
  | [] => [(k, v)]
  | (k', v') :: rest =>
      if String.eqb k' k then (k, v) :: rest else (k', v') :: Map_set k v rest
  end.

Definition Map_of {V} (entries : list (string * V)) : list (string * V) :=
  fold_left (fun m kv => Map_set (fst kv) (snd kv) m) entries [].

(** ** [GroupService] ([services/database/group.ts]) *)

Module GroupService.

(** [groupName] is [None] when the caller passes [undefined]
    ([group.subject] of an [any]-typed event). *)
Definition isTargetGroup (groupName : option string) : bool :=
  match groupName with
  | None => false
  | Some n =>
      if negb (truthy n) then false
      else includes (toLowerCase n) config.targetKeyword
  end.

Definition isMonitored (groupId : string) : M bool :=
  gets (fun w => bool_decide (groupId ∈ monitoredGroupsCache w)).

Definition loadMonitoredGroups : M unit :=
  tryCatch
    (groups <- Group.find ;;
     modify (with_cache (fun _ => list_to_set (map IGroup.groupId groups))) ;;
     n <- gets (fun w => size (monitoredGroupsCache w)) ;;
     logger.info ("Loaded " +:+ pretty n +:+ " monitored groups from database"))
    (fun error =>
       logger.error ("Error loading monitored groups: " +:+ showError error) ;;
       throw error).

(** [`${groupName ? ` (${groupName})` : ''}`] *)
Definition nameSuffix (groupName : option string) : string :=
  match groupName with
  | Some n => if truthy n then " (" +:+ n +:+ ")" else ""
  | None => ""
  end.

Definition addGroupToMonitored (groupId : string) (groupName : option string)
  : M unit :=
  tryCatch
    (now <- newDate ;;
     Group.findOneAndUpdate groupId
       {| Group.isMonitored := Some true; Group.name := groupName;
          Group.updatedAt := Some now |} true ;;
     has <- isMonitored groupId ;;
     if negb has then
       modify (with_cache (fun c => {[groupId]} ∪ c)) ;;
       logger.success ("Group " +:+ groupId +:+ " added to monitored list"
                       +:+ nameSuffix groupName)
     else
       logger.info ("Group " +:+ groupId
                    +:+ " already in monitored list, DB updated"
                    +:+ nameSuffix groupName))
    (fun error =>
       logger.error ("Error adding group to monitored list: "
                     +:+ showError error) ;;
       throw error).

Definition removeGroupFromMonitored (groupId : string) : M unit :=
  tryCatch
    (Group.findOneAndUpdate groupId
       {| Group.isMonitored := Some false; Group.name := None;
          Group.updatedAt := None |} false ;;
     has <- isMonitored groupId ;;
     when has
       (modify (with_cache (fun c => c ∖ {[groupId]})) ;;
        logger.info ("Group " +:+ groupId +:+ " removed from monitored list")))
    (fun error =>
       logger.error ("Error removing group from monitored list: "
                     +:+ showError error) ;;
       throw error).

Definition activate (now : nat) : User.Patch :=
  {| User.isActive := Some true; User.updatedAt := Some now |}.
Definition deactivate (now : nat) : User.Patch :=
  {| User.isActive := Some false; User.updatedAt := Some now |}.

(** The upsert of the loops over arriving members *)
Definition markActive (groupId phoneNumber : string) : M unit :=
  now <- newDate ;;
  User.findOneAndUpdate phoneNumber groupId (activate now) true.

(** The update of the loop over leaving members: no upsert *)
Definition markInactive (groupId phoneNumber : string) : M unit :=
  now <- newDate ;;
  User.findOneAndUpdate phoneNumber groupId (deactivate now) false.

(** First loop of [syncGroupMembers]; [processedMembers] is threaded. *)
Definition syncMember (groupId : string) (processedMembers : gset string)
    (phoneNumber : string) : M (gset string) :=
  let processedMembers := {[phoneNumber]} ∪ processedMembers in
  markActive groupId phoneNumber ;;
  ret processedMembers.

(** Second loop of [syncGroupMembers], over the entries of the map. *)
Definition retireMember (processedMembers : gset string)
    (entry : string * IUser.t) : M unit :=
  let phoneNumber := fst entry in
  let member := snd entry in
  when (negb (bool_decide (phoneNumber ∈ processedMembers))
        && IUser.isActive member)
    (now <- newDate ;;
     User.findByIdAndUpdate (IUser._id member) (deactivate now)).

Definition syncGroupMembers (groupId : string) (members : list string)
  : M unit :=
  monitored <- isMonitored groupId ;;
  if negb monitored then
    logger.info ("Skipping sync for non-monitored group " +:+ groupId)
  else
    tryCatch
      (existingMembers <- User.find groupId ;;
       let existingMembersMap :=
         Map_of (map (fun member => (IUser.phoneNumber member, member))
                     existingMembers) in
       processedMembers <- foldM members ∅ (syncMember groupId) ;;
       forEach existingMembersMap (retireMember processedMembers) ;;
       logger.success ("Synced " +:+ pretty (length members)
                       +:+ " members for group " +:+ groupId))
      (fun error =>
         logger.error ("Error syncing group members: " +:+ showError error) ;;
         throw error).

Definition handleMembersAdded (groupId : string) (members : list string)
  : M unit :=
  monitored <- isMonitored groupId ;;
  if negb monitored then ret tt
  else
    tryCatch
      (forEach members (markActive groupId) ;;
       logger.success ("Added " +:+ pretty (length members)
                       +:+ " members to group " +:+ groupId))
      (fun error =>
         logger.error ("Error adding members: " +:+ showError error) ;;
         throw error).

Definition handleMembersRemoved (groupId : string) (members : list string)
  : M unit :=
  monitored <- isMonitored groupId ;;
  if negb monitored then ret tt
  else
    tryCatch
      (forEach members (markInactive groupId) ;;
       logger.success ("Marked " +:+ pretty (length members)
                       +:+ " members as inactive in group " +:+ groupId))
      (fun error =>
         logger.error ("Error marking members as inactive: "
                       +:+ showError error) ;;
         throw error).

(** The loop variables of [getDatabaseStatus]. *)
Record Tally := {
  t_target : Z;
  t_force : Z;
  t_details : list GroupDetail
}.

(** The body of the loop of [getDatabaseStatus]. *)
Definition countGroup (acc : Tally) (group : IGroup.t) : M Tally :=
  total <- User.countDocuments (IGroup.groupId group) false ;;
  active <- User.countDocuments (IGroup.groupId group) true ;;
  let contains := isTargetGroup (Some (orElse (IGroup.name group) "")) in
  ret {| t_target := if contains then t_target acc + 1 else t_target acc;
         t_force := if contains then t_force acc else t_force acc + 1;
         t_details := t_details acc ++
           [{| gd_name := orElse (IGroup.name group) "Unknown group name";
               gd_id := IGroup.groupId group;
               containsTargetKeyword := contains;
               totalMembers := total;
               activeMembers := active;
               inactiveMembers := total - active |}] |}.

Definition getDatabaseStatus : M IDatabaseStatus :=
  tryCatch
    (groups <- Group.find ;;
     tally <-
       foldM groups {| t_target := 0; t_force := 0; t_details := [] |}
         countGroup ;;
     ret {| totalGroups := Z.of_nat (length groups);
            targetGroups := t_target tally;
            forceMonitoredGroups := t_force tally;
            groupDetails := t_details tally |})
    (fun error =>
       logger.error ("Error generating database status: "
                     +:+ showError error) ;;
       throw error).

Definition formatGroup (group : GroupDetail) : string :=
  "*Group:* " +:+ gd_name group +:+ "
" +:+ "ID: " +:+ gd_id group +:+ "
" +:+ "Contains " +:+ "'" +:+ config.targetKeyword +:+ "': "
    +:+ (if containsTargetKeyword group then "yes" else "no") +:+ "
" +:+ "Total Members: " +:+ pretty (totalMembers group) +:+ "
" +:+ "Active Members: " +:+ pretty (activeMembers group) +:+ "
" +:+ "Inactive Members: " +:+ pretty (inactiveMembers group) +:+ "

".

(** The report; the pictographs of the source are written as words and
    the double quotes as single ones. *)
Definition formatDatabaseStatus (status : IDatabaseStatus) : string :=
  fold_left (fun result group => result +:+ formatGroup group)
    (groupDetails status)
    ("*Database Status*

" +:+ "Primary monitoring filter: groups with '" +:+ config.targetKeyword
    +:+ "' in their name
" +:+ "Total Monitored Groups: " +:+ pretty (totalGroups status) +:+ " ("
    +:+ pretty (targetGroups status) +:+ " with '" +:+ config.targetKeyword
    +:+ "', " +:+ pretty (forceMonitoredGroups status)
    +:+ " force-monitored)

").

End GroupService.

(** ** [WhatsAppClient] ([services/whatsapp/client.ts]) *)

Fixpoint assoc {V} (k : string) (l : list (string * V)) : option V :=
  match l with
  | [] => None
  | (k', v) :: rest => if String.eqb k' k then Some v else assoc k rest
  end.

Module WhatsAppClient.

Definition MAX_RECONNECT_ATTEMPTS : nat := 10.

(** [socket.groupFetchAllParticipating()], as [Object.entries] lists it *)
Definition groupFetchAllParticipating (s : Socket)
  : M (list (string * GroupMetadata)) :=
  match remote s with
  | Some r => ret r
  | None => throw (SocketError "Connection Closed")
  end.

(** [socket.groupMetadata(groupId)] *)
Definition groupMetadata (s : Socket) (groupId : string) : M GroupMetadata :=
  match remote s with
  | Some r =>
      match assoc groupId r with
      | Some metadata => ret metadata
      | None => throw (SocketError "item-not-found")
      end
  | None => throw (SocketError "Connection Closed")
  end.

Definition getSocket : M (option Socket) := gets (fun w => socket (env w)).

Definition fetchAndMonitorTargetGroups : M unit :=
  s <- getSocket ;;
  match s with
  | None => logger.error "WhatsApp client not initialized"
  | Some sock =>
      tryCatch
        (response <- groupFetchAllParticipating sock ;;
         logger.info ("Fetched " +:+ pretty (length response)
                      +:+ " participating groups") ;;
         forEach response (fun entry =>
           let groupId := fst entry in
           let metadata := snd entry in
           when (GroupService.isTargetGroup (Some (subject metadata)))
             (logger.info ("Found target group: " +:+ subject metadata
                           +:+ " (" +:+ groupId +:+ ")") ;;
              GroupService.addGroupToMonitored groupId
                (Some (subject metadata)) ;;
              GroupService.syncGroupMembers groupId (participants metadata) ;;
              logger.success ("Target group '" +:+ subject metadata +:+ "' ("
                              +:+ groupId +:+ ") synchronized"))))
        (fun error =>
           logger.error ("Error fetching and monitoring target groups: "
                         +:+ showError error))
  end.

Definition getGroupMetadata (groupId : string) : M (option GroupMetadata) :=
  s <- getSocket ;;
  match s with
  | None => logger.error "WhatsApp client not initialized" ;; ret None
  | Some sock =>
      tryCatch
        (metadata <- groupMetadata sock groupId ;; ret (Some metadata))
        (fun error =>
           logger.error ("Error getting group metadata: "
                         +:+ showError error) ;;
           ret None)
  end.

Definition sendMessage (to text : string) : M unit :=
  s <- getSocket ;;
  match s with
  | None => logger.error "WhatsApp client not initialized"
  | Some sock =>
      tryCatch
        (match remote sock with
         | Some _ =>
             modify (with_out (fun o =>
               {| logs := logs o; journal := journal o;
                  outbox := (to, text) :: outbox o |}))
         | None => throw (SocketError "Connection Closed")
         end)
        (fun error =>
           logger.error ("Error sending message: " +:+ showError error))
  end.

End WhatsAppClient.

(** ** [WhatsAppController] ([controllers/whatsapp.ts]) *)

(** [s.split('@')[0]] *)
Fixpoint beforeAt (s : string) : string :=
  match s with
  | EmptyString => EmptyString
  | String c rest => if Ascii.eqb c "@" then EmptyString
                     else String c (beforeAt rest)
  end.

Definition showAction (a : Action) : string :=
  match a with
  | add => "add" | remove => "remove"
  | promote => "promote" | demote => "demote"
  end.

(** [JSON.stringify(update)], without escaping *)
Definition JSON_stringify (u : GroupUpdate) : string :=
  let field k v := match v with
                   | Some s => ["'" +:+ k +:+ "':'" +:+ s +:+ "'"]
                   | None => []
                   end in
  "{" +:+ String.concat "," (field "id" (gu_id u) ++ field "subject" (gu_subject u))
      +:+ "}".

Definition truthyOpt (s : option string) : bool :=
  match s with Some x => truthy x | None => false end.

(** [message.message.conversation || message.message.extendedTextMessage?.text
    || ''] *)
Definition textOf (body : MessageBody) : string :=
  orElse (conversation body) (orElse (extendedText body) "").

Module WhatsAppController.

Definition handleConnectionUpdate (update : ConnectionUpdate) : M unit :=
  when (truthyOpt (qr update))
    (logger.info "QR Code received. Scan it with your phone.") ;;
  match connection update with
  | Some conn_open =>
      logger.success "Connection established! Bot is ready." ;;
      s <- WhatsAppClient.getSocket ;;
      match s with
      | Some {| user := Some (uname, uid) |} =>
          logger.info ("Bot connected as: " +:+ orElse uname "Unknown"
                       +:+ " (" +:+ beforeAt uid +:+ ")")
      | _ => ret tt
      end ;;
      logger.info "Scanning for target groups..." ;;
      WhatsAppClient.fetchAndMonitorTargetGroups
  | _ => ret tt
  end.

Definition applyAction (groupId : string) (ps : list string) (a : Action)
  : M unit :=
  match a with
  | add => GroupService.handleMembersAdded groupId ps
  | remove => GroupService.handleMembersRemoved groupId ps
  | promote | demote => ret tt
  end.

Definition handleGroupParticipantsUpdate (update : ParticipantsUpdate)
  : M unit :=
  let groupId := pu_id update in
  let action := pu_action update in
  monitored <- GroupService.isMonitored groupId ;;
  if negb monitored then
    tryCatch
      (metadata <- WhatsAppClient.getGroupMetadata groupId ;;
       match metadata with
       | None => ret tt
       | Some metadata =>
           let groupName := subject metadata in
           if GroupService.isTargetGroup (Some groupName) then
             logger.info ("Detected activity in unmonitored target group: "
                          +:+ groupName +:+ " (" +:+ groupId +:+ ")") ;;
             GroupService.addGroupToMonitored groupId (Some groupName) ;;
             GroupService.syncGroupMembers groupId
               (participants metadata) ;;
             logger.success ("Group '" +:+ groupName +:+ "' (" +:+ groupId
                             +:+ ") is now monitored") ;;
             applyAction groupId (pu_participants update) action
           else
             logger.info ("Skipping unmonitored group without target keyword: "
                          +:+ groupName)
       end)
      (fun error =>
         logger.error ("Error checking unmonitored group: "
                       +:+ showError error))
  else
    logger.info ("Group " +:+ groupId +:+ " participants "
                 +:+ showAction action +:+ ": "
                 +:+ String.concat ", " (pu_participants update)) ;;
    applyAction groupId (pu_participants update) action.

Definition handleGroupsUpdate (updates : list GroupUpdate) : M unit :=
  forEach updates (fun update =>
    match gu_id update with
    | None => ret tt
    | Some id =>
        if negb (truthy id) then ret tt
        else
          monitored <- GroupService.isMonitored id ;;
          when monitored
            (logger.info ("Group " +:+ id +:+ " updated: "
                          +:+ JSON_stringify update)) ;;
          match gu_subject update with
          | None => ret tt
          | Some newGroupName =>
              if negb (truthy newGroupName) then ret tt
              else
                let isTargetGroup :=
                  GroupService.isTargetGroup (Some newGroupName) in
                monitored <- GroupService.isMonitored id ;;
                if monitored then
                  GroupService.addGroupToMonitored id (Some newGroupName) ;;
                  logger.info ("Updated monitored group name to: "
                               +:+ newGroupName) ;;
                  when (negb isTargetGroup)
                    (logger.warn ("Group " +:+ id +:+ " renamed to '"
                       +:+ newGroupName
                       +:+ "' which doesn't match target criteria anymore"))
                else if isTargetGroup then
                  logger.info ("Unmonitored group updated with target name: "
                               +:+ newGroupName +:+ " (" +:+ id +:+ ")") ;;
                  tryCatch
                    (metadata <- WhatsAppClient.getGroupMetadata id ;;
                     match metadata with
                     | None => ret tt
                     | Some metadata =>
                         GroupService.addGroupToMonitored id
                           (Some newGroupName) ;;
                         GroupService.syncGroupMembers id
                           (participants metadata) ;;
                         logger.success ("Group '" +:+ newGroupName +:+ "' ("
                           +:+ id +:+ ") is now monitored and synchronized")
                     end)
                    (fun error =>
                       logger.error ("Error adding newly named target group: "
                                     +:+ showError error))
                else ret tt
          end
    end).

Definition handleGroupsUpsert (groups : list NewGroup) : M unit :=
  forEach groups (fun group =>
    logger.info ("Added to new group: " +:+ ng_id group +:+ " - "
                 +:+ showOpt (ng_subject group)) ;;
    if GroupService.isTargetGroup (ng_subject group) then
      logger.info ("Found new target group: " +:+ showOpt (ng_subject group)
                   +:+ " (" +:+ ng_id group +:+ ")") ;;
      GroupService.addGroupToMonitored (ng_id group) (ng_subject group) ;;
      match ng_participants group with
      | Some (p :: ps) =>
          GroupService.syncGroupMembers (ng_id group) (p :: ps) ;;
          logger.success ("New target group '" +:+ showOpt (ng_subject group)
                          +:+ "' (" +:+ ng_id group +:+ ") synchronized")
      | _ => ret tt
      end
    else
      logger.info ("Group " +:+ showOpt (ng_subject group)
                   +:+ " does not match target criteria, skipping")).

Definition handleHiCommand (jid : string) : M unit :=
  tryCatch
    (metadata <- WhatsAppClient.getGroupMetadata jid ;;
     match metadata with
     | None => ret tt
     | Some metadata =>
         let groupName := subject metadata in
         logger.info ("Group metadata retrieved: " +:+ groupName
                      +:+ " (" +:+ jid +:+ ")") ;;
         if GroupService.isTargetGroup (Some groupName) then
           logger.info ("Group name '" +:+ groupName
                        +:+ "' contains target keyword") ;;
           GroupService.addGroupToMonitored jid (Some groupName) ;;
           logger.info ("Syncing " +:+ pretty (length (participants metadata))
                        +:+ " members for group " +:+ jid) ;;
           GroupService.syncGroupMembers jid (participants metadata) ;;
           logger.success ("Group '" +:+ groupName +:+ "' (" +:+ jid
                           +:+ ") fully synchronized")
         else
           logger.info ("Group '" +:+ groupName
                        +:+ "' does not match target criteria, skipping")
     end)
    (fun error =>
       logger.error ("Error processing 'Hi!' command: " +:+ showError error)).

Definition handleSyncCommand (jid : string) : M unit :=
  tryCatch
    (metadata <- WhatsAppClient.getGroupMetadata jid ;;
     match metadata with
     | None => ret tt
     | Some metadata =>
         let groupName := subject metadata in
         logger.info ("Group metadata retrieved: " +:+ groupName
                      +:+ " (" +:+ jid +:+ ")") ;;
         GroupService.addGroupToMonitored jid (Some groupName) ;;
         logger.info ("Syncing " +:+ pretty (length (participants metadata))
                      +:+ " members for group " +:+ jid) ;;
         GroupService.syncGroupMembers jid (participants metadata) ;;
         logger.success ("Group '" +:+ groupName +:+ "' (" +:+ jid
                         +:+ ") force-monitored and fully synchronized")
     end)
    (fun error =>
       logger.error ("Error processing 'sync' command: " +:+ showError error)).

Definition handleCheckCommand (jid : string) : M unit :=
  tryCatch
    (status <- GroupService.getDatabaseStatus ;;
     let formattedStatus := GroupService.formatDatabaseStatus status in
     logger.info formattedStatus ;;
     when (truthy jid) (WhatsAppClient.sendMessage jid formattedStatus))
    (fun error =>
       logger.error ("Error processing 'check' command: " +:+ showError error)).

Definition handleMessagesUpsert (messages : list WAMessage) : M unit :=
  forEach messages (fun msg =>
    match message msg, remoteJid msg with
    | None, _ => ret tt
    | Some _, None => ret tt
    | Some body, Some jid =>
        if negb (truthy jid) then ret tt
        else
          let isGroup := isJidGroup jid in
          let messageText := textOf body in
          when (fromMe msg && String.eqb messageText "Hi!" && isGroup)
            (logger.info ("Detected 'Hi!' in group " +:+ jid) ;;
             handleHiCommand jid) ;;
          when (fromMe msg && String.eqb messageText "sync" && isGroup)
            (logger.info ("Detected 'sync' in group " +:+ jid) ;;
             handleSyncCommand jid) ;;
          when (fromMe msg && String.eqb messageText "check")
            (logger.info "Detected check command" ;;
             handleCheckCommand jid)
    end).

End WhatsAppController.

(** ** The listeners ([WhatsAppClient.registerEventListeners]) *)

Inductive Event :=
| connection_update (update : ConnectionUpdate)
| group_participants_update (update : ParticipantsUpdate)
| groups_update (updates : list GroupUpdate)
| groups_upsert (groups : list NewGroup)
| messages_upsert (messages : list WAMessage).

(** [process.exit(code)] ends the listener. *)
Definition process_exit (code : nat) : M unit :=
  modify (with_client (fun c =>
    {| reconnectAttempts := reconnectAttempts c; timers := timers c;
       authCleared := authCleared c; exited := Some code |})).

(** The reconnection logic that follows the handler of
    [connection.update]; [clearAuthState] is reduced to its flag. *)
Definition reconnection (update : ConnectionUpdate) : M unit :=
  match connection update with
  | Some conn_close =>
      if bool_decide (statusCode update = Some DisconnectReason.loggedOut) then
        logger.error "Connection closed. You are logged out." ;;
        modify (with_client (fun c =>
          {| reconnectAttempts := reconnectAttempts c; timers := timers c;
             authCleared := true; exited := exited c |})) ;;
        process_exit 1
      else
        attempts <- gets (fun w => reconnectAttempts (client w)) ;;
        if (attempts <? WhatsAppClient.MAX_RECONNECT_ATTEMPTS)%nat then
          let attempts' := S attempts in
          let delay := N.min (N.of_nat attempts' * 1000) 10000 in
          logger.warn ("Connection closed due to error, reconnecting (attempt "
                       +:+ pretty attempts' +:+ ")...") ;;
          modify (with_client (fun c =>
            {| reconnectAttempts := attempts'; timers := delay :: timers c;
               authCleared := authCleared c; exited := exited c |}))
        else
          logger.error ("Failed to reconnect after "
                        +:+ pretty WhatsAppClient.MAX_RECONNECT_ATTEMPTS
                        +:+ " attempts.") ;;
          process_exit 1
  | Some conn_open =>
      modify (with_client (fun c =>
        {| reconnectAttempts := 0; timers := timers c;
           authCleared := authCleared c; exited := exited c |}))
  | _ => ret tt
  end.

(** What the socket's emitter runs for one event.  A [Throw] here is a
    rejection no listener handles. *)
Definition emit (e : Event) : M unit :=
  match e with
  | connection_update update =>
      WhatsAppController.handleConnectionUpdate update ;;
      reconnection update
  | group_participants_update update =>
      WhatsAppController.handleGroupParticipantsUpdate update
  | groups_update updates => WhatsAppController.handleGroupsUpdate updates
  | groups_upsert groups => WhatsAppController.handleGroupsUpsert groups
  | messages_upsert messages => WhatsAppController.handleMessagesUpsert messages
  end.

(** ** The earlier single-file bot *)

Module Legacy.

(** No guard; the parameter is typed [string]. *)
Definition isTargetGroup (groupName : string) : bool :=
  includes (toLowerCase groupName) "neol".

(** The same loop as in [GroupService]; the error is logged and dropped. *)
Definition handleMembersRemoved (groupId : string) (members : list string)
  : M unit :=
  monitored <- GroupService.isMonitored groupId ;;
  if negb monitored then ret tt
  else
    tryCatch
      (forEach members (GroupService.markInactive groupId) ;;
       logger.success ("Marked " +:+ pretty (length members)
                       +:+ " members as inactive in group " +:+ groupId))
      (fun error =>
         logger.error ("Error marking members as inactive: "
                       +:+ showError error)).

End Legacy.

(** ** A process and what happens to it *)

Definition boot (d : Db) (e : Env) : World :=
  {| db := d;
     monitoredGroupsCache := ∅;
     env := e;
     out := {| logs := []; journal := []; outbox := [] |};
     client := {| reconnectAttempts := 0; timers := []; authCleared := false;
                  exited := None |} |}.

(** The environment moves on (time, the store's and the server's health),
    the application calls a service, or the socket emits an event.  A
    rejection that nothing handles leaves the state as it is at that
    moment. *)
Inductive Op :=
| op_env (e : Env)
| op_load
| op_add (groupId : string) (groupName : option string)
| op_remove (groupId : string)
| op_emit (e : Event).

Definition step (o : Op) (w : World) : World :=
  match o with
  | op_env e => with_env (fun _ => e) w
  | op_load => snd (GroupService.loadMonitoredGroups w)
  | op_add g n => snd (GroupService.addGroupToMonitored g n w)
  | op_remove g => snd (GroupService.removeGroupFromMonitored g w)
  | op_emit e => snd (emit e w)
  end.

Definition exec (ops : list Op) (w : World) : World :=
  fold_left (fun w o => step o w) ops w.

(** ** Vocabulary of the properties *)

(** The groups persisted with [isMonitored = true]. *)
Definition persisted (gs : list IGroup.t) : gset string :=
  list_to_set (map IGroup.groupId (List.filter IGroup.isMonitored gs)).

Definition cache_sound (w : World) : Prop :=
  monitoredGroupsCache w ⊆ persisted (groups (db w)).

(** The store answers every call. *)
Definition calm (w : World) : Prop := faults (env w) = [].

(** A query by compound index on a collection. *)
Definition look (phoneNumber groupId : string) (us : list IUser.t)
  : option IUser.t :=
  List.find (User.isMember phoneNumber groupId) us.

(** The membership record of a pair, as a query would find it. *)
Definition membership (phoneNumber groupId : string) (w : World)
  : option IUser.t :=
  look phoneNumber groupId (users (db w)).

(** The store calls issued between two states. *)
Definition issued (w w' : World) (cs : list StoreCall) : Prop :=
  journal (out w') = cs ++ journal (out w).

(** A group document without its timestamp. *)
Definition untimed (d : IGroup.t) : string * bool * option string :=
  (IGroup.groupId d, IGroup.isMonitored d, IGroup.name d).

(** [ObjectId]s are below the store's counter. *)
Definition ids_below (d : Db) : Prop :=
  Forall (fun u => IUser._id u < nextId d) (users d).

(** A relation between the state before and after holds whatever the
    computation does. *)
Definition Keeps (R : World -> World -> Prop) {A} (m : M A) : Prop :=
  forall w, R w (snd (m w)).

(** The computation never throws. *)
Definition Safe {A} (m : M A) : Prop :=
  forall w, exists a, fst (m w) = Ok a.

(** The state a store call leaves behind, whether it answers or not. *)
Definition called (c : StoreCall) (w : World) : World :=
  snd (storeCall c w).

(** The monitored sets only grow from [w] to [w']. *)
Definition grows (w w' : World) : Prop :=
  monitoredGroupsCache w ⊆ monitoredGroupsCache w' /\
  persisted (groups (db w)) ⊆ persisted (groups (db w')).

(** Soundness of the cache is carried from [w] to [w']. *)
Definition carries_sound (w w' : World) : Prop :=
  cache_sound w -> cache_sound w'.

(** The update document of [addGroupToMonitored]. *)
Definition registration (groupName : option string) (now : nat) : Group.Patch :=
  {| Group.isMonitored := Some true; Group.name := groupName;
     Group.updatedAt := Some now |}.

(** Nothing is written between [w] and [w']: the collections and the
    cache are the same and every store call issued is a query. *)
Definition reads_only (w w' : World) : Prop :=
  db w' = db w /\ monitoredGroupsCache w' = monitoredGroupsCache w /\
  exists cs, issued w w' cs /\ Forall (fun c => isWrite c = false) cs.

(** The status report as the specification words it: for a monitored
    group, the number of its membership records, the number of active
    ones, their difference, and the keyword predicate applied to the
    stored name. *)
Definition report_for (us : list IUser.t) (group : IGroup.t) : GroupDetail :=
  let records := List.filter (User.inGroup (IGroup.groupId group)) us in
  let total := Z.of_nat (length records) in
  let active := Z.of_nat (length (List.filter IUser.isActive records)) in
  {| gd_name := orElse (IGroup.name group) "Unknown group name";
     gd_id := IGroup.groupId group;
     containsTargetKeyword :=
       GroupService.isTargetGroup (Some (orElse (IGroup.name group) ""));
     totalMembers := total;
     activeMembers := active;
     inactiveMembers := total - active |}.

Definition status_of (d : Db) : IDatabaseStatus :=
  let monitored := List.filter IGroup.isMonitored (groups d) in
  let details := map (report_for (users d)) monitored in
  {| totalGroups := Z.of_nat (length monitored);
     targetGroups :=
       Z.of_nat (length (List.filter containsTargetKeyword details));
     forceMonitoredGroups :=
       Z.of_nat (length (List.filter (fun x => negb (containsTargetKeyword x))
                                     details));
     groupDetails := details |}.

(** A store with one keyword group (two active members, one inactive)
    and one force-monitored group without members. *)
Definition two_groups : World :=
  with_cache (fun _ => {["1@g.us"; "2@g.us"]})
    (boot {| groups := [IGroup.mk "1@g.us" true (Some "Neol Friends") 1;
                        IGroup.mk "2@g.us" true (Some "Random Chat") 5];
             users := [IUser.mk 0 "111" "1@g.us" true 2;
                       IUser.mk 1 "222" "1@g.us" false 6;
                       IUser.mk 2 "333" "1@g.us" true 4];
             nextId := 3 |}
          {| clock := 7; faults := []; socket := None |}).

(** The store of [two_groups] at a moment when it rejects the next call. *)
Definition store_down : World :=
  with_env (fun e => {| clock := clock e; faults := [true];
                        socket := socket e |}) two_groups.

(** A computation that returns, and what holds of its result. *)
Definition wp {A} (m : M A) (Q : A -> World -> Prop) (w : World) : Prop :=
  match m w with
  | (Ok a, w') => Q a w'
  | (Throw _, _) => False
  end.

(** The compound index of a membership record, and its identity. *)
Definition key (u : IUser.t) : string * string :=
  (IUser.phoneNumber u, IUser.groupId u).
Definition idkey (u : IUser.t) : nat * (string * string) :=
  (IUser._id u, key u).

(** What the store guarantees of the membership collection: [ObjectId]s
    are unique and below the counter, and the index on
    [(phoneNumber, groupId)] is unique. *)
Definition wf_db (d : Db) : Prop :=
  NoDup (map IUser._id (users d)) /\
  NoDup (map key (users d)) /\
  ids_below d.


(** From [w] to [w'] the store kept answering, and only membership records
    moved: the cache, the group documents and the socket are the same, the
    collection is still well formed and no record changed its identity. *)
Definition stable (w w' : World) : Prop :=
  calm w' /\
  monitoredGroupsCache w' = monitoredGroupsCache w /\
  groups (db w') = groups (db w) /\
  socket (env w') = socket (env w) /\
  wf_db (db w') /\
  incl (map idkey (users (db w))) (map idkey (users (db w'))).

(** The test of the second loop of [syncGroupMembers]. *)
Definition retires (processed : gset string) (member : IUser.t) : bool :=
  negb (bool_decide (IUser.phoneNumber member ∈ processed))
  && IUser.isActive member.

(** The membership records of group [g] after a reconciliation with the
    roster [ms]: every listed identifier has an active record; an unlisted
    one keeps having none, or has its active record (same [_id], same
    index) with [isActive = false], or keeps its inactive record as it is;
    other groups are not touched. *)
Definition reconciled (g : string) (ms : list string) (w w' : World) : Prop :=
  (forall p, In p ms ->
     exists u, membership p g w' = Some u /\ IUser.isActive u = true) /\
  (forall p, ~ In p ms ->
     match membership p g w with
     | None => membership p g w' = None
     | Some u =>
         if IUser.isActive u
         then exists t, membership p g w' =
                        Some {| IUser._id := IUser._id u;
                                IUser.phoneNumber := IUser.phoneNumber u;
                                IUser.groupId := IUser.groupId u;
                                IUser.isActive := false;
                                IUser.updatedAt := t |}
         else membership p g w' = Some u
     end) /\
  (forall p g', g' <> g -> membership p g' w' = membership p g' w).

(** The store calls one [syncGroupMembers(g, ms)] may issue on a
    collection [us]: the query of the group, an upsert for a listed
    identifier, and an update by [_id] of a record of the group that is
    active and not listed. *)
Definition sync_call (g : string) (ms : list string) (us : list IUser.t)
    (c : StoreCall) : Prop :=
  c = User_find g \/
  (exists p, In p ms /\ c = User_findOneAndUpdate p g true) \/
  (exists m, In m us /\ IUser.groupId m = g /\ IUser.isActive m = true /\
             ~ In (IUser.phoneNumber m) ms /\
             c = User_findByIdAndUpdate (IUser._id m)).

(** ** Vocabulary of the further properties *)

(** What [getGroupMetadata] can learn about a group in a state: nothing
    without a socket, with an unreachable server or for an unknown group. *)
Definition metadataOf (w : World) (groupId : string) : option GroupMetadata :=
  match socket (env w) with
  | Some sock =>
      match remote sock with
      | Some r => assoc groupId r
      | None => None
      end
  | None => None
  end.

(** The messages the router acts upon: content and chat present, written
    by the account itself, and the text exactly [check], or exactly [Hi!]
    or [sync] in a group chat. *)
Definition isCommand (msg : WAMessage) : bool :=
  match message msg, remoteJid msg with
  | Some body, Some jid =>
      truthy jid && fromMe msg &&
      (String.eqb (textOf body) "check" ||
       ((String.eqb (textOf body) "Hi!" || String.eqb (textOf body) "sync")
        && isJidGroup jid))
  | _, _ => false
  end.

(** Only the log moved between [w] and [w']. *)
Definition only_logged (w w' : World) : Prop :=
  db w' = db w /\ monitoredGroupsCache w' = monitoredGroupsCache w /\
  env w' = env w /\ client w' = client w /\
  journal (out w') = journal (out w) /\ outbox (out w') = outbox (out w).

(** The store rejects the next call. *)
Definition nextRejects (w : World) : bool :=
  match faults (env w) with
  | true :: _ => true
  | _ => false
  end.

(** The update document of [removeGroupFromMonitored]. *)
Definition unregistration : Group.Patch :=
  {| Group.isMonitored := Some false; Group.name := None;
     Group.updatedAt := None |}.

(** Record by record, [w'] holds what [w] held, under the same [_id] and
    index, and no record is active in [w'] that was not active in [w]; no
    record was added, and the group documents and the cache are the same. *)
Definition only_deactivated (w w' : World) : Prop :=
  Forall2 (fun u u' => idkey u' = idkey u /\
                       (IUser.isActive u' = true -> IUser.isActive u = true))
          (users (db w)) (users (db w')) /\
  nextId (db w') = nextId (db w) /\
  groups (db w') = groups (db w) /\
  monitoredGroupsCache w' = monitoredGroupsCache w.

(** A record after a removal between the times [lo] and [hi]: the same
    record with [isActive = false] and a timestamp of that interval; or
    still no record. *)
Definition retired (lo hi : nat) (before after : option IUser.t) : Prop :=
  match before with
  | Some u =>
      exists t, lo <= t < hi /\
        after = Some {| IUser._id := IUser._id u;
                        IUser.phoneNumber := IUser.phoneNumber u;
                        IUser.groupId := IUser.groupId u;
                        IUser.isActive := false;
                        IUser.updatedAt := t |}
  | None => after = None
  end.

(** The server and the messages sent are what they were. *)
Definition same_channel (w w' : World) : Prop :=
  socket (env w') = socket (env w) /\ outbox (out w') = outbox (out w).

(** No membership record and no group document is lost from [w] to [w']:
    every record is still there under its [_id] and index, every group
    document under its id, and the [ObjectId] counter has not gone back. *)
Definition nothing_lost (w w' : World) : Prop :=
  incl (map idkey (users (db w))) (map idkey (users (db w'))) /\
  incl (map IGroup.groupId (groups (db w)))
       (map IGroup.groupId (groups (db w'))) /\
  nextId (db w) <= nextId (db w').

(** The uniqueness constraints of the two collections. *)
Definition unique_db (d : Db) : Prop :=
  wf_db d /\ NoDup (map IGroup.groupId (groups d)).

Definition carries_unique (w w' : World) : Prop :=
  unique_db (db w) -> unique_db (db w').

(** The bounds of the reconnection policy: at most
    [MAX_RECONNECT_ATTEMPTS] attempts counted, and every timer set to
    between one and ten seconds. *)
Definition backoff_ok (c : Client) : Prop :=
  reconnectAttempts c <= WhatsAppClient.MAX_RECONNECT_ATTEMPTS /\
  Forall (fun delay => (1000 <= delay <= 10000)%N) (timers c).

Definition carries_backoff (w w' : World) : Prop :=
  backoff_ok (client w) -> backoff_ok (client w').

(** The client's own state is what it was. *)
Definition same_client (w w' : World) : Prop := client w' = client w.

(** The ids of the groups of a server's answer whose name carries the
    keyword. *)
Definition targetIds (response : list (string * GroupMetadata)) : gset string :=
  list_to_set
    (map fst (List.filter
                (fun entry =>
                   GroupService.isTargetGroup (Some (subject (snd entry))))
                response)).

(** The records of group [g] in [w'] are those of [w] reconciled with the
    roster [ms]; nothing is said of other groups. *)
Definition roster_reconciled (g : string) (ms : list string) (w w' : World)
  : Prop :=
  (forall p, In p ms ->
     exists u, membership p g w' = Some u /\ IUser.isActive u = true) /\
  (forall p, ~ In p ms ->
     match membership p g w with
     | None => membership p g w' = None
     | Some u =>
         if IUser.isActive u
         then exists t, membership p g w' =
                        Some {| IUser._id := IUser._id u;
                                IUser.phoneNumber := IUser.phoneNumber u;
                                IUser.groupId := IUser.groupId u;
                                IUser.isActive := false;
                                IUser.updatedAt := t |}
         else membership p g w' = Some u
     end).

(** ** The services of the earlier single-file bot

    The bodies are those of [GroupService]; every [catch] logs the error
    and drops it. *)

Module LegacyBot.

Definition loadMonitoredGroups : M unit :=
  tryCatch
    (groups <- Group.find ;;
     modify (with_cache (fun _ => list_to_set (map IGroup.groupId groups))) ;;
     n <- gets (fun w => size (monitoredGroupsCache w)) ;;
     logger.info ("Loaded " +:+ pretty n +:+ " monitored groups from database"))
    (fun error =>
       logger.error ("Error loading monitored groups: " +:+ showError error)).

Definition addGroupToMonitored (groupId : string) (groupName : option string)
  : M unit :=
  tryCatch
    (now <- newDate ;;
     Group.findOneAndUpdate groupId
       {| Group.isMonitored := Some true; Group.name := groupName;
          Group.updatedAt := Some now |} true ;;
     has <- GroupService.isMonitored groupId ;;
     if negb has then
       modify (with_cache (fun c => {[groupId]} ∪ c)) ;;
       logger.success ("Group " +:+ groupId +:+ " added to monitored list"
                       +:+ GroupService.nameSuffix groupName)
     else
       logger.info ("Group " +:+ groupId
                    +:+ " already in monitored list, DB updated"
                    +:+ GroupService.nameSuffix groupName))
    (fun error =>
       logger.error ("Error adding group to monitored list: "
                     +:+ showError error)).

Definition syncGroupMembers (groupId : string) (members : list string)
  : M unit :=
  monitored <- GroupService.isMonitored groupId ;;
  if negb monitored then
    logger.info ("Skipping sync for non-monitored group " +:+ groupId)
  else
    tryCatch
      (existingMembers <- User.find groupId ;;
       let existingMembersMap :=
         Map_of (map (fun member => (IUser.phoneNumber member, member))
                     existingMembers) in
       processedMembers <-
         foldM members ∅ (GroupService.syncMember groupId) ;;
       forEach existingMembersMap
         (GroupService.retireMember processedMembers) ;;
       logger.success ("Synced " +:+ pretty (length members)
                       +:+ " members for group " +:+ groupId))
      (fun error =>
         logger.error ("Error syncing group members: " +:+ showError error)).

Definition handleMembersAdded (groupId : string) (members : list string)
  : M unit :=
  monitored <- GroupService.isMonitored groupId ;;
  if negb monitored then ret tt
  else
    tryCatch
      (forEach members (GroupService.markActive groupId) ;;
       logger.success ("Added " +:+ pretty (length members)
                       +:+ " members to group " +:+ groupId))
      (fun error =>
         logger.error ("Error adding members: " +:+ showError error)).

End LegacyBot.

(** A [groups.update] element that carries a group id and a new name;
    the others are changes of other fields. *)
Definition renames (update : GroupUpdate) : bool :=
  match gu_id update, gu_subject update with
  | Some id, Some newGroupName => truthy id && truthy newGroupName
  | _, _ => false
  end.

(** * Properties *)

(** *** Facts about strings *)

Lemma startsWith_app (p t : string) : startsWith (p +:+ t) p = true.
Proof.
  induction p as [|c p IH]; simpl; [reflexivity|].
  rewrite Ascii.eqb_refl. exact IH.
Qed.

Lemma startsWith_split (s p : string) :
  startsWith s p = true -> exists t, s = p +:+ t.
Proof.
  revert s. induction p as [|c p IH]; intros s H.
  - exists s. reflexivity.
  - destruct s as [|d s]; simpl in H; [discriminate|].
    apply andb_prop in H as [Hc Hp].
    apply Ascii.eqb_eq in Hc. subst d.
    destruct (IH _ Hp) as [t ->]. exists t. reflexivity.
Qed.

Lemma includes_app (pre sub post : string) :
  includes (pre +:+ sub +:+ post) sub = true.
Proof.
  induction pre as [|c pre IH]; simpl.
  - destruct (sub +:+ post) eqn:E; simpl.
    + destruct sub; [reflexivity|discriminate].
    + rewrite <- E, startsWith_app. reflexivity.
  - rewrite IH. apply orb_true_r.
Qed.

Lemma includes_split (s sub : string) :
  includes s sub = true -> exists pre post, s = pre +:+ sub +:+ post.
Proof.
  induction s as [|c s IH]; simpl; intros H.
  - rewrite orb_false_r in H. destruct (startsWith_split _ _ H) as [t Ht].
    exists "", t. exact Ht.
  - apply orb_prop in H as [H|H].
    + destruct (startsWith_split _ _ H) as [t Ht]. exists "", t. exact Ht.
    + destruct (IH H) as (pre & post & ->).
      exists (String c pre), post. reflexivity.
Qed.

Lemma includes_iff (s sub : string) :
  includes s sub = true <-> exists pre post, s = pre +:+ sub +:+ post.
Proof.
  split; [apply includes_split|].
  intros (pre & post & ->). apply includes_app.
Qed.

Lemma toLowerCase_app (a b : string) :
  toLowerCase (a +:+ b) = toLowerCase a +:+ toLowerCase b.
Proof. induction a as [|c a IH]; simpl; [reflexivity|]. now rewrite IH. Qed.

Lemma toLowerCase_keyword :
  toLowerCase config.targetKeyword = config.targetKeyword.
Proof. reflexivity. Qed.

Lemma includes_empty_keyword : includes "" config.targetKeyword = false.
Proof. reflexivity. Qed.

Lemma isTargetGroup_Some (n : string) :
  GroupService.isTargetGroup (Some n) = includes (toLowerCase n) config.targetKeyword.
Proof.
  unfold GroupService.isTargetGroup. destruct n; reflexivity.
Qed.

(** C2. [isTargetGroup] answers [true] exactly when the lower-cased name
    contains the lower-cased configured keyword as a substring; it answers
    [false] for an absent and for an empty name; a name that contains the
    keyword written in any mix of letter cases is accepted, and a name whose
    lower-casing lacks the keyword is rejected. *)
Theorem isTargetGroup_contract :
  (forall name : string,
      GroupService.isTargetGroup (Some name) = true <->
      exists pre post,
        toLowerCase name = pre +:+ toLowerCase config.targetKeyword +:+ post) /\
  GroupService.isTargetGroup None = false /\
  GroupService.isTargetGroup (Some "") = false /\
  (forall pre kw post : string,
      toLowerCase kw = toLowerCase config.targetKeyword ->
      GroupService.isTargetGroup (Some (pre +:+ kw +:+ post)) = true) /\
  (forall name : string,
      (forall pre post,
          toLowerCase name <> pre +:+ toLowerCase config.targetKeyword +:+ post) ->
      GroupService.isTargetGroup (Some name) = false).
Proof.
  rewrite toLowerCase_keyword.
  split; [|split; [reflexivity|split; [reflexivity|split]]].
  - intros name. rewrite isTargetGroup_Some. apply includes_iff.
  - intros pre kw post Hkw. rewrite isTargetGroup_Some.
    rewrite !toLowerCase_app, Hkw. apply includes_app.
  - intros name Hno. rewrite isTargetGroup_Some.
    destruct (includes (toLowerCase name) config.targetKeyword) eqn:E;
      [|reflexivity].
    apply includes_split in E as (pre & post & E).
    exfalso. exact (Hno pre post E).
Qed.

Lemma isTargetGroup_contract_witness :
  GroupService.isTargetGroup (Some "My NeOL Friends") = true /\
  GroupService.isTargetGroup (Some "Random Chat") = false.
Proof.
  destruct isTargetGroup_contract as (_ & _ & _ & Hyes & Hno). split.
  - apply (Hyes "My " "NeOL" " Friends"). reflexivity.
  - reflexivity.
Defined.

(** On every string the earlier bot's predicate is the service's. *)
Lemma Legacy_isTargetGroup_agrees (n : string) :
  Legacy.isTargetGroup n = GroupService.isTargetGroup (Some n).
Proof. now rewrite isTargetGroup_Some. Qed.

(** ** Running computations *)

Lemma bind_Ok {A B} (m : M A) (k : A -> M B) w a w1 :
  m w = (Ok a, w1) -> bind m k w = k a w1.
Proof. unfold bind. now intros ->. Qed.

Lemma bind_Throw {A B} (m : M A) (k : A -> M B) w e w1 :
  m w = (Throw e, w1) -> bind m k w = (Throw e, w1).
Proof. unfold bind. now intros ->. Qed.

Lemma tryCatch_Ok {A} (m : M A) h w a w1 :
  m w = (Ok a, w1) -> tryCatch m h w = (Ok a, w1).
Proof. unfold tryCatch. now intros ->. Qed.

Lemma tryCatch_Throw {A} (m : M A) h w e w1 :
  m w = (Throw e, w1) -> tryCatch m h w = h e w1.
Proof. unfold tryCatch. now intros ->. Qed.

Lemma isMonitored_run g w :
  GroupService.isMonitored g w =
  (Ok (bool_decide (g ∈ monitoredGroupsCache w)), w).
Proof. reflexivity. Qed.

Lemma storeCall_snd c w :
  db (called c w) = db w /\
  monitoredGroupsCache (called c w) = monitoredGroupsCache w /\
  client (called c w) = client w /\
  logs (out (called c w)) = logs (out w) /\
  outbox (out (called c w)) = outbox (out w) /\
  journal (out (called c w)) = c :: journal (out w) /\
  clock (env (called c w)) = S (clock (env w)) /\
  socket (env (called c w)) = socket (env w) /\
  faults (env (called c w)) = tail (faults (env w)).
Proof.
  unfold called, storeCall.
  destruct (faults (env w)) as [|[] fs]; simpl; repeat split; reflexivity.
Qed.

Lemma storeCall_calm c w :
  calm w -> storeCall c w = (Ok tt, called c w) /\ calm (called c w).
Proof.
  unfold calm, called, storeCall. intros ->. split; reflexivity.
Qed.

Lemma storeCall_cases c w :
  storeCall c w = (Ok tt, called c w) \/
  storeCall c w = (Throw (StoreError c), called c w).
Proof.
  unfold called, storeCall.
  destruct (faults (env w)) as [|[] fs]; simpl; auto.
Qed.

(** ** Replacing the first match *)

Lemma updateFirst_None {A} (P : A -> bool) f (l : list A) :
  List.find P l = None -> updateFirst P f l = None.
Proof.
  induction l as [|x l IH]; simpl; [reflexivity|].
  destruct (P x); [discriminate|]. intros H. now rewrite IH.
Qed.

Lemma updateFirst_Some {A} (P : A -> bool) f (l : list A) x :
  List.find P l = Some x ->
  exists l1 l2, l = (l1 ++ x :: l2) /\ List.find P l1 = None /\
                P x = true /\
                updateFirst P f l = Some (l1 ++ f x :: l2).
Proof.
  induction l as [|y l IH]; simpl; [discriminate|].
  destruct (P y) eqn:Py.
  - intros [= ->]. exists [], l. simpl. rewrite Py. auto.
  - intros H. destruct (IH H) as (l1 & l2 & -> & Hn & Px & Hu).
    exists (y :: l1), l2. simpl. rewrite Py, Hu. auto.
Qed.

Lemma User_write_absent p g patch now d :
  List.find (User.isMember p g) (users d) = None ->
  User.write p g patch false now d = d.
Proof.
  intros H. unfold User.write. now rewrite (updateFirst_None _ _ _ H).
Qed.

(** ** Unmonitored groups are left alone *)

Lemma syncGroupMembers_unmonitored g ms w :
  g ∉ monitoredGroupsCache w ->
  GroupService.syncGroupMembers g ms w =
  (Ok tt, snd (logger.info ("Skipping sync for non-monitored group " +:+ g) w)).
Proof.
  intros H. unfold GroupService.syncGroupMembers.
  rewrite (bind_Ok _ _ _ _ _ (isMonitored_run g w)).
  now rewrite bool_decide_eq_false_2.
Qed.

Lemma handleMembersAdded_unmonitored g ms w :
  g ∉ monitoredGroupsCache w ->
  GroupService.handleMembersAdded g ms w = (Ok tt, w).
Proof.
  intros H. unfold GroupService.handleMembersAdded.
  rewrite (bind_Ok _ _ _ _ _ (isMonitored_run g w)).
  now rewrite bool_decide_eq_false_2.
Qed.

Lemma handleMembersRemoved_unmonitored g ms w :
  g ∉ monitoredGroupsCache w ->
  GroupService.handleMembersRemoved g ms w = (Ok tt, w).
Proof.
  intros H. unfold GroupService.handleMembersRemoved.
  rewrite (bind_Ok _ _ _ _ _ (isMonitored_run g w)).
  now rewrite bool_decide_eq_false_2.
Qed.

(** C4. On a group that is not in the in-memory monitored set, each of
    [syncGroupMembers], [handleMembersAdded] and [handleMembersRemoved]
    returns normally, issues no store call at all and leaves both
    collections (membership records and group records) and the monitored
    set as they were. *)
Theorem unmonitored_group_is_noop (g : string) (ms : list string) (w : World) :
  g ∉ monitoredGroupsCache w ->
  forall op, In op [GroupService.syncGroupMembers;
                    GroupService.handleMembersAdded;
                    GroupService.handleMembersRemoved] ->
  fst (op g ms w) = Ok tt /\
  db (snd (op g ms w)) = db w /\
  monitoredGroupsCache (snd (op g ms w)) = monitoredGroupsCache w /\
  issued w (snd (op g ms w)) [].
Proof.
  intros Hg op [<-|[<-|[<-|[]]]].
  - rewrite syncGroupMembers_unmonitored by assumption. repeat split.
  - rewrite handleMembersAdded_unmonitored by assumption. repeat split.
  - rewrite handleMembersRemoved_unmonitored by assumption. repeat split.
Qed.

Lemma unmonitored_group_is_noop_witness :
  let w := boot {| groups := []; users := []; nextId := 0 |}
                {| clock := 0; faults := [true]; socket := None |} in
  db (snd (GroupService.handleMembersRemoved "g@g.us" ["111"] w)) = db w.
Proof.
  intros w.
  refine (proj1 (proj2 (unmonitored_group_is_noop "g@g.us" ["111"] w _
                          GroupService.handleMembersRemoved _))).
  - vm_compute. set_solver.
  - simpl. auto.
Defined.

(** ** Removing a member that was never seen *)

Lemma deactivate_unseen g X w :
  membership X g w = None ->
  forall r w',
    GroupService.markInactive g X w = (r, w') ->
    db w' = db w /\ monitoredGroupsCache w' = monitoredGroupsCache w /\
    issued w w' [User_findOneAndUpdate X g false].
Proof.
  intros Hnone r w'. unfold membership, look in Hnone.
  unfold GroupService.markInactive, newDate, User.findOneAndUpdate, bind,
    gets, modify. simpl.
  pose proof (storeCall_snd (User_findOneAndUpdate X g false) w)
    as (Hdb & Hc & _ & _ & _ & Hj & _).
  destruct (storeCall_cases (User_findOneAndUpdate X g false) w) as [E|E];
    rewrite E; intros [= <- <-]; simpl.
  - rewrite Hdb, User_write_absent by assumption. repeat split; auto.
  - repeat split; auto.
Qed.

(** C10. In a monitored group, [handleMembersRemoved(g, [X])] for an
    identifier [X] that has no membership record in [g] creates none: the
    one store call it issues is a [findOneAndUpdate] without upsert, and the
    collections are exactly what they were, whether the store answers or
    rejects.  The earlier single-file bot behaves the same. *)
Theorem handleMembersRemoved_unseen_creates_nothing
    (g X : string) (w : World) :
  g ∈ monitoredGroupsCache w ->
  membership X g w = None ->
  forall op, In op [GroupService.handleMembersRemoved;
                    Legacy.handleMembersRemoved] ->
  db (snd (op g [X] w)) = db w /\
  issued w (snd (op g [X] w)) [User_findOneAndUpdate X g false].
Proof.
  intros Hg Hnone op Hop.
  assert (Hop' : op = GroupService.handleMembersRemoved \/
                 op = Legacy.handleMembersRemoved)
    by (destruct Hop as [<-|[<-|[]]]; auto).
  clear Hop.
  destruct (GroupService.markInactive g X w) as [r w1] eqn:E.
  destruct (deactivate_unseen g X w Hnone r w1 E) as (Hdb & _ & Hj).
  assert (Hloop : forEach [X] (GroupService.markInactive g) w =
                  (match r with Ok _ => Ok tt | Throw e => Throw e end, w1)).
  { simpl. unfold bind. rewrite E. destruct r as [[]|e]; reflexivity. }
  destruct Hop' as [-> | ->];
    unfold GroupService.handleMembersRemoved, Legacy.handleMembersRemoved;
    rewrite (bind_Ok _ _ _ _ _ (isMonitored_run g w));
    rewrite bool_decide_eq_true_2 by assumption;
    change (negb true) with false; cbv beta iota;
    unfold tryCatch, bind; rewrite Hloop;
    destruct r as [[]|e]; simpl; auto.
Qed.

(** ** Relations every handler keeps

    The relation [R] looks only at the group documents and at the cache,
    and registering a group keeps it; then so does everything the socket
    can make the process do. *)

Lemma User_write_groups p g patch up now d :
  groups (User.write p g patch up now d) = groups d.
Proof.
  unfold User.write.
  destruct (updateFirst _ _ _); [reflexivity|]. now destruct up.
Qed.

Lemma User_writeById_groups id patch d :
  groups (User.writeById id patch d) = groups d.
Proof. unfold User.writeById. now destruct (updateFirst _ _ _). Qed.

Section Keeps.
Variable R : World -> World -> Prop.
Context `{!PreOrder R}.

Lemma Keeps_ret {A} (a : A) : Keeps R (ret a).
Proof. intros w. reflexivity. Qed.

Lemma Keeps_throw {A} e : Keeps R (@throw A e).
Proof. intros w. reflexivity. Qed.

Lemma Keeps_gets {A} (f : World -> A) : Keeps R (gets f).
Proof. intros w. reflexivity. Qed.

Lemma Keeps_modify f : (forall w, R w (f w)) -> Keeps R (modify f).
Proof. intros H w. apply H. Qed.

Lemma Keeps_bind {A B} (m : M A) (k : A -> M B) :
  Keeps R m -> (forall a, Keeps R (k a)) -> Keeps R (bind m k).
Proof.
  intros Hm Hk w. unfold bind. specialize (Hm w).
  destruct (m w) as [[a|e] w1]; simpl in *; [|assumption].
  etransitivity; [eassumption|apply Hk].
Qed.

Lemma Keeps_tryCatch {A} (m : M A) h :
  Keeps R m -> (forall e, Keeps R (h e)) -> Keeps R (tryCatch m h).
Proof.
  intros Hm Hh w. unfold tryCatch. specialize (Hm w).
  destruct (m w) as [[a|e] w1]; simpl in *; [assumption|].
  etransitivity; [eassumption|apply Hh].
Qed.

Lemma Keeps_when b m : Keeps R m -> Keeps R (when b m).
Proof. destruct b; [auto|]. intros _. apply Keeps_ret. Qed.

Lemma Keeps_forEach {X} (xs : list X) body :
  (forall x, Keeps R (body x)) -> Keeps R (forEach xs body).
Proof.
  intros H. induction xs as [|x xs IH]; simpl.
  - apply Keeps_ret.
  - apply Keeps_bind; auto.
Qed.

Lemma Keeps_foldM {X S} (xs : list X) (s : S) body :
  (forall s x, Keeps R (body s x)) -> Keeps R (foldM xs s body).
Proof.
  intros H. revert s. induction xs as [|x xs IH]; intros s; simpl.
  - apply Keeps_ret.
  - apply Keeps_bind; auto.
Qed.

Hypothesis R_frame : forall w w',
  groups (db w') = groups (db w) ->
  monitoredGroupsCache w' = monitoredGroupsCache w -> R w w'.

Lemma Keeps_framed f :
  (forall w, groups (db (f w)) = groups (db w)) ->
  (forall w, monitoredGroupsCache (f w) = monitoredGroupsCache w) ->
  Keeps R (modify f).
Proof. intros H1 H2. apply Keeps_modify. intros w. now apply R_frame. Qed.

Lemma Keeps_log l msg : Keeps R (log l msg).
Proof. now apply Keeps_framed. Qed.

Lemma Keeps_storeCall c : Keeps R (storeCall c).
Proof.
  intros w. fold (called c w).
  destruct (storeCall_snd c w) as (Hdb & Hc & _).
  apply R_frame; [now rewrite Hdb|assumption].
Qed.

Lemma Keeps_User_write p g patch up : 
  Keeps R (User.findOneAndUpdate p g patch up).
Proof.
  unfold User.findOneAndUpdate.
  apply Keeps_bind; [apply Keeps_storeCall|intros _].
  apply Keeps_bind; [apply Keeps_gets|intros now].
  apply Keeps_framed; [|reflexivity]. intros w. apply User_write_groups.
Qed.

Lemma Keeps_User_writeById id patch :
  Keeps R (User.findByIdAndUpdate id patch).
Proof.
  unfold User.findByIdAndUpdate.
  apply Keeps_bind; [apply Keeps_storeCall|intros _].
  apply Keeps_framed; [|reflexivity]. intros w. apply User_writeById_groups.
Qed.

Ltac keeps_leaf :=
  match goal with
  | |- Keeps _ (ret _) => apply Keeps_ret
  | |- Keeps _ (throw _) => apply Keeps_throw
  | |- Keeps _ (gets _) => apply Keeps_gets
  | |- Keeps _ (log _ _) => apply Keeps_log
  | |- Keeps _ (storeCall _) => apply Keeps_storeCall
  | |- Keeps _ (User.findOneAndUpdate _ _ _ _) => apply Keeps_User_write
  | |- Keeps _ (User.findByIdAndUpdate _ _) => apply Keeps_User_writeById
  | |- Keeps _ (modify _) => apply Keeps_framed; reflexivity
  end.

Ltac keeps_with leaf :=
  repeat first
    [ leaf
    | keeps_leaf
    | progress cbv beta zeta
    | match goal with
      | |- Keeps _ (when _ _) => apply Keeps_when
      | |- Keeps _ (forEach _ _) => apply Keeps_forEach; intros ?
      | |- Keeps _ (foldM _ _ _) => apply Keeps_foldM; intros ? ?
      | |- Keeps _ (tryCatch _ _) => apply Keeps_tryCatch; [|intros ?]
      | |- Keeps _ (bind _ _) => apply Keeps_bind; [|intros ?]
      | |- Keeps _ (if ?b then _ else _) => destruct b
      | |- Keeps _ (match ?x with _ => _ end) => destruct x
      end ].

Ltac keeps := keeps_with fail.

Lemma Keeps_User_find g : Keeps R (User.find g).
Proof. unfold User.find. keeps. Qed.

Lemma Keeps_countDocuments g a : Keeps R (User.countDocuments g a).
Proof. unfold User.countDocuments. keeps. Qed.

Lemma Keeps_Group_find : Keeps R Group.find.
Proof. unfold Group.find. keeps. Qed.

Lemma Keeps_syncGroupMembers g ms :
  Keeps R (GroupService.syncGroupMembers g ms).
Proof.
  unfold GroupService.syncGroupMembers, GroupService.syncMember,
    GroupService.retireMember, GroupService.markActive,
    GroupService.isMonitored, newDate,
    logger.info, logger.error, logger.success.
  keeps_with ltac:(apply Keeps_User_find).
Qed.

Lemma Keeps_handleMembersAdded g ms :
  Keeps R (GroupService.handleMembersAdded g ms).
Proof.
  unfold GroupService.handleMembersAdded, GroupService.isMonitored,
    logger.error, logger.success.
  keeps_with ltac:(progress unfold GroupService.markActive, newDate).
Qed.

Lemma Keeps_handleMembersRemoved g ms :
  Keeps R (GroupService.handleMembersRemoved g ms).
Proof.
  unfold GroupService.handleMembersRemoved, GroupService.isMonitored,
    logger.error, logger.success.
  keeps_with ltac:(progress unfold GroupService.markInactive, newDate).
Qed.

Lemma Keeps_getDatabaseStatus : Keeps R GroupService.getDatabaseStatus.
Proof.
  unfold GroupService.getDatabaseStatus, logger.error.
  keeps_with ltac:(first [apply Keeps_Group_find|apply Keeps_countDocuments
                         |progress unfold GroupService.countGroup]).
Qed.

Lemma Keeps_getGroupMetadata g : Keeps R (WhatsAppClient.getGroupMetadata g).
Proof.
  unfold WhatsAppClient.getGroupMetadata, WhatsAppClient.getSocket,
    WhatsAppClient.groupMetadata, logger.error.
  keeps.
Qed.

Lemma Keeps_sendMessage to text : Keeps R (WhatsAppClient.sendMessage to text).
Proof.
  unfold WhatsAppClient.sendMessage, WhatsAppClient.getSocket, logger.error.
  keeps.
Qed.

Hypothesis R_add : forall g n, Keeps R (GroupService.addGroupToMonitored g n).

Ltac services :=
  first [ apply R_add | apply Keeps_syncGroupMembers
        | apply Keeps_handleMembersAdded | apply Keeps_handleMembersRemoved
        | apply Keeps_getDatabaseStatus | apply Keeps_getGroupMetadata
        | apply Keeps_sendMessage ].

Lemma Keeps_fetchAndMonitorTargetGroups :
  Keeps R WhatsAppClient.fetchAndMonitorTargetGroups.
Proof.
  unfold WhatsAppClient.fetchAndMonitorTargetGroups,
    WhatsAppClient.getSocket, WhatsAppClient.groupFetchAllParticipating,
    logger.info, logger.error, logger.success.
  keeps_with services.
Qed.

Lemma Keeps_handleConnectionUpdate u :
  Keeps R (WhatsAppController.handleConnectionUpdate u).
Proof.
  unfold WhatsAppController.handleConnectionUpdate,
    WhatsAppClient.getSocket, logger.info, logger.success.
  keeps_with ltac:(apply Keeps_fetchAndMonitorTargetGroups).
Qed.

Lemma Keeps_applyAction g ps a :
  Keeps R (WhatsAppController.applyAction g ps a).
Proof. unfold WhatsAppController.applyAction. keeps_with services. Qed.

Lemma Keeps_handleGroupParticipantsUpdate u :
  Keeps R (WhatsAppController.handleGroupParticipantsUpdate u).
Proof.
  unfold WhatsAppController.handleGroupParticipantsUpdate,
    GroupService.isMonitored, logger.info, logger.error, logger.success.
  keeps_with ltac:(first [services|apply Keeps_applyAction]).
Qed.

Lemma Keeps_handleGroupsUpdate us :
  Keeps R (WhatsAppController.handleGroupsUpdate us).
Proof.
  unfold WhatsAppController.handleGroupsUpdate, GroupService.isMonitored,
    logger.info, logger.warn, logger.error, logger.success.
  keeps_with services.
Qed.

Lemma Keeps_handleGroupsUpsert gs :
  Keeps R (WhatsAppController.handleGroupsUpsert gs).
Proof.
  unfold WhatsAppController.handleGroupsUpsert,
    logger.info, logger.success.
  keeps_with services.
Qed.

Lemma Keeps_handleMessagesUpsert ms :
  Keeps R (WhatsAppController.handleMessagesUpsert ms).
Proof.
  unfold WhatsAppController.handleMessagesUpsert,
    WhatsAppController.handleHiCommand, WhatsAppController.handleSyncCommand,
    WhatsAppController.handleCheckCommand,
    logger.info, logger.error, logger.success.
  keeps_with services.
Qed.

Lemma Keeps_reconnection u : Keeps R (reconnection u).
Proof.
  unfold reconnection, process_exit, logger.warn, logger.error.
  keeps.
Qed.

Lemma Keeps_emit e : Keeps R (emit e).
Proof.
  destruct e; simpl.
  - apply Keeps_bind; [apply Keeps_handleConnectionUpdate|intros _].
    apply Keeps_reconnection.
  - apply Keeps_handleGroupParticipantsUpdate.
  - apply Keeps_handleGroupsUpdate.
  - apply Keeps_handleGroupsUpsert.
  - apply Keeps_handleMessagesUpsert.
Qed.

End Keeps.

Ltac keeps_in frame :=
  repeat first
    [ progress cbv beta zeta
    | match goal with
      | |- Keeps _ (ret _) => apply Keeps_ret; exact _
      | |- Keeps _ (throw _) => apply Keeps_throw; exact _
      | |- Keeps _ (gets _) => apply Keeps_gets; exact _
      | |- Keeps _ (log _ _) => apply (Keeps_log _ frame)
      | |- Keeps _ (storeCall _) => apply (Keeps_storeCall _ frame)
      | |- Keeps _ (when _ _) => apply Keeps_when; [exact _|]
      | |- Keeps _ (tryCatch _ _) =>
          apply Keeps_tryCatch; [exact _| |intros ?]
      | |- Keeps _ (bind _ _) => apply Keeps_bind; [exact _| |intros ?]
      | |- Keeps _ (if ?b then _ else _) => destruct b
      end ].

(** ** The persisted monitored set *)

Lemma persisted_cons d gs :
  persisted (d :: gs) =
  (if IGroup.isMonitored d then {[IGroup.groupId d]} else ∅) ∪ persisted gs.
Proof.
  unfold persisted. simpl. destruct (IGroup.isMonitored d); simpl; set_solver.
Qed.

Lemma persisted_app gs1 gs2 :
  persisted (gs1 ++ gs2) = persisted gs1 ∪ persisted gs2.
Proof.
  induction gs1 as [|d gs1 IH]; simpl.
  - unfold persisted at 2. simpl. set_solver.
  - rewrite !persisted_cons, IH. set_solver.
Qed.

Lemma elem_of_persisted g gs :
  g ∈ persisted gs <->
  exists d, In d gs /\ IGroup.groupId d = g /\ IGroup.isMonitored d = true.
Proof.
  induction gs as [|d gs IH].
  - unfold persisted. simpl. split; [set_solver|]. intros (d & [] & _).
  - rewrite persisted_cons, elem_of_union, IH. split.
    + intros [H|(d' & Hin & Hd)].
      * destruct (IGroup.isMonitored d) eqn:E; [|set_solver].
        apply elem_of_singleton in H. exists d. simpl. auto.
      * exists d'. simpl. tauto.
    + intros (d' & [<-|Hin] & <- & Hm).
      * left. rewrite Hm. set_solver.
      * right. exists d'. auto.
Qed.

Lemma hasId_eq g d : Group.hasId g d = true <-> IGroup.groupId d = g.
Proof. unfold Group.hasId. apply String.eqb_eq. Qed.

(** An upsert that sets [isMonitored: true] adds the group, nothing else. *)
Lemma persisted_register g n t now gs :
  persisted (Group.write g {| Group.isMonitored := Some true; Group.name := n;
                              Group.updatedAt := t |} true now gs)
  = {[g]} ∪ persisted gs.
Proof.
  unfold Group.write.
  destruct (List.find (Group.hasId g) gs) as [x|] eqn:F.
  - destruct (updateFirst_Some _ (Group.apply
      {| Group.isMonitored := Some true; Group.name := n;
         Group.updatedAt := t |}) _ _ F) as (l1 & l2 & -> & _ & Px & ->).
    apply hasId_eq in Px.
    rewrite !persisted_app, !persisted_cons. simpl. rewrite Px.
    destruct (IGroup.isMonitored x); set_solver.
  - rewrite (updateFirst_None _ _ _ F), persisted_app, persisted_cons.
    simpl. unfold persisted at 2. simpl. set_solver.
Qed.

(** An update that clears the flag loses at most that group. *)
Lemma persisted_unregister g now gs :
  persisted gs ∖ {[g]} ⊆
  persisted (Group.write g {| Group.isMonitored := Some false;
                              Group.name := None; Group.updatedAt := None |}
                         false now gs).
Proof.
  unfold Group.write.
  destruct (List.find (Group.hasId g) gs) as [x|] eqn:F.
  - destruct (updateFirst_Some _ (Group.apply
      {| Group.isMonitored := Some false; Group.name := None;
         Group.updatedAt := None |}) _ _ F) as (l1 & l2 & -> & _ & Px & ->).
    apply hasId_eq in Px.
    rewrite !persisted_app, !persisted_cons. simpl. rewrite Px.
    destruct (IGroup.isMonitored x); set_solver.
  - rewrite (updateFirst_None _ _ _ F). set_solver.
Qed.

(** ** Monitoring only grows *)

#[local] Instance grows_preorder : PreOrder grows.
Proof.
  split.
  - intros w. split; reflexivity.
  - intros a b c [H1 H2] [H3 H4]. split; etransitivity; eassumption.
Qed.

Lemma grows_frame w w' :
  groups (db w') = groups (db w) ->
  monitoredGroupsCache w' = monitoredGroupsCache w -> grows w w'.
Proof. intros H1 H2. unfold grows. now rewrite H1, H2. Qed.

Lemma grows_register g n t :
  Keeps grows (Group.findOneAndUpdate g
    {| Group.isMonitored := Some true; Group.name := n;
       Group.updatedAt := t |} true).
Proof.
  unfold Group.findOneAndUpdate, newDate. keeps_in grows_frame.
  apply Keeps_modify. intros w. split; simpl; [reflexivity|].
  rewrite persisted_register. set_solver.
Qed.

Lemma grows_addGroupToMonitored g n :
  Keeps grows (GroupService.addGroupToMonitored g n).
Proof.
  unfold GroupService.addGroupToMonitored, GroupService.isMonitored, newDate,
    logger.info, logger.error, logger.success.
  apply Keeps_tryCatch; [exact _| |intros e; keeps_in grows_frame].
  apply Keeps_bind; [exact _|apply Keeps_gets; exact _|intros now].
  apply Keeps_bind; [exact _|apply grows_register|intros _].
  keeps_in grows_frame.
  apply Keeps_modify. intros w. split; simpl; set_solver.
Qed.

Lemma grows_emit e w : grows w (snd (emit e w)).
Proof.
  apply (Keeps_emit grows grows_frame grows_addGroupToMonitored).
Qed.

(** ** What [addGroupToMonitored] does

    Either the store answers: the document is written, the group is in
    the cache and the call returns; or it rejects: nothing changes and the
    error is thrown on. *)

Lemma addGroupToMonitored_cases g n w :
  let c := Group_findOneAndUpdate g true in
  let w' := snd (GroupService.addGroupToMonitored g n w) in
  env w' = env (called c w) /\ client w' = client w /\
  journal (out w') = c :: journal (out w) /\
  outbox (out w') = outbox (out w) /\
  (exists entry, logs (out w') = entry :: logs (out w)) /\
  users (db w') = users (db w) /\ nextId (db w') = nextId (db w) /\
  ((storeCall c w = (Ok tt, called c w) /\
    fst (GroupService.addGroupToMonitored g n w) = Ok tt /\
    groups (db w') =
      Group.write g (registration n (clock (env w))) true
                  (S (clock (env w))) (groups (db w)) /\
    monitoredGroupsCache w' = {[g]} ∪ monitoredGroupsCache w)
   \/
   (storeCall c w = (Throw (StoreError c), called c w) /\
    fst (GroupService.addGroupToMonitored g n w) = Throw (StoreError c) /\
    groups (db w') = groups (db w) /\
    monitoredGroupsCache w' = monitoredGroupsCache w)).
Proof.
  intros c w'. subst w'.
  pose proof (storeCall_snd c w)
    as (Hdb & Hc & Hcl & Hl & Ho & Hj & Hclock & _).
  unfold GroupService.addGroupToMonitored, GroupService.isMonitored, newDate,
    Group.findOneAndUpdate, tryCatch, bind, gets, modify,
    logger.info, logger.error, logger.success, log, throw.
  fold c. simpl.
  destruct (storeCall_cases c w) as [E|E]; rewrite E; simpl.
  - rewrite Hc, Hclock.
    destruct (bool_decide (g ∈ monitoredGroupsCache w)) eqn:B; simpl;
      rewrite ?Hdb, ?Hcl, ?Hl, ?Ho, ?Hj;
      repeat split; eauto; left; repeat split; auto.
    + rewrite Hc. apply bool_decide_eq_true_1 in B. set_solver.
    + now rewrite Hc.
  - rewrite ?Hdb, ?Hc, ?Hcl, ?Hl, ?Ho, ?Hj.
    repeat split; eauto.
Qed.

(** ** The cache is sound *)

#[local] Instance carries_sound_preorder : PreOrder carries_sound.
Proof.
  split.
  - intros w H. exact H.
  - intros a b c H1 H2 H. exact (H2 (H1 H)).
Qed.

Lemma carries_sound_frame w w' :
  groups (db w') = groups (db w) ->
  monitoredGroupsCache w' = monitoredGroupsCache w -> carries_sound w w'.
Proof. intros H1 H2. unfold carries_sound, cache_sound. now rewrite H1, H2. Qed.

Lemma sound_addGroupToMonitored g n :
  Keeps carries_sound (GroupService.addGroupToMonitored g n).
Proof.
  intros w Hs. unfold cache_sound in *.
  destruct (addGroupToMonitored_cases g n w)
    as (_ & _ & _ & _ & _ & _ & _ & [(_ & _ & Hg & Hc)|(_ & _ & Hg & Hc)]);
    rewrite Hg, Hc; [|assumption].
  unfold registration. rewrite persisted_register. set_solver.
Qed.

Lemma sound_removeGroupFromMonitored g :
  Keeps carries_sound (GroupService.removeGroupFromMonitored g).
Proof.
  intros w Hs. unfold cache_sound in *.
  set (c := Group_findOneAndUpdate g false).
  pose proof (storeCall_snd c w) as (Hdb & Hc & _).
  pose proof (persisted_unregister g (S (clock (env w))) (groups (db w))) as Hp.
  unfold GroupService.removeGroupFromMonitored, GroupService.isMonitored,
    Group.findOneAndUpdate, newDate, tryCatch, bind, gets, modify, when,
    logger.info, logger.error, log, throw.
  fold c. simpl.
  destruct (storeCall_cases c w) as [E|E]; rewrite E; simpl.
  - pose proof (storeCall_snd c w) as (_ & _ & _ & _ & _ & _ & Hclock & _).
    rewrite Hc, Hclock.
    destruct (bool_decide (g ∈ monitoredGroupsCache w)) eqn:B; simpl;
      rewrite ?Hc, ?Hdb.
    + set_solver.
    + apply bool_decide_eq_false_1 in B. set_solver.
  - now rewrite Hdb, Hc.
Qed.

Lemma elem_of_loaded g gs :
  g ∈ (list_to_set (map IGroup.groupId (List.filter IGroup.isMonitored gs))
       : gset string) <-> g ∈ persisted gs.
Proof. reflexivity. Qed.

Lemma sound_loadMonitoredGroups :
  Keeps carries_sound GroupService.loadMonitoredGroups.
Proof.
  intros w Hs. unfold cache_sound in *.
  pose proof (storeCall_snd Group_find w) as (Hdb & Hc & _).
  unfold GroupService.loadMonitoredGroups, Group.find, tryCatch, bind, gets,
    modify, logger.info, logger.error, log, throw.
  simpl.
  destruct (storeCall_cases Group_find w) as [E|E]; rewrite E; simpl.
  - rewrite Hdb. reflexivity.
  - now rewrite Hdb, Hc.
Qed.

Lemma sound_step o w : cache_sound w -> cache_sound (step o w).
Proof.
  destruct o; simpl.
  - auto.
  - apply sound_loadMonitoredGroups.
  - apply sound_addGroupToMonitored.
  - apply sound_removeGroupFromMonitored.
  - apply (Keeps_emit carries_sound carries_sound_frame
                      sound_addGroupToMonitored).
Qed.

Lemma sound_exec ops w : cache_sound w -> cache_sound (exec ops w).
Proof.
  revert w. induction ops as [|o ops IH]; intros w H; simpl; [assumption|].
  apply IH, sound_step, H.
Qed.

Lemma sound_boot d e : cache_sound (boot d e).
Proof. unfold cache_sound. simpl. set_solver. Qed.

(** C9. In one process, from start-up on (an empty cache over any store)
    and after every step (the environment moving on, [loadMonitoredGroups],
    [addGroupToMonitored], [removeGroupFromMonitored], any event of the
    socket, each answered or rejected by the store), every group id in the
    in-memory set has a persisted group document with [isMonitored = true]. *)
Theorem cache_within_persisted (d : Db) (e : Env) (ops : list Op) (g : string) :
  g ∈ monitoredGroupsCache (exec ops (boot d e)) ->
  exists doc, In doc (groups (db (exec ops (boot d e)))) /\
              IGroup.groupId doc = g /\ IGroup.isMonitored doc = true.
Proof.
  intros Hg. apply elem_of_persisted.
  exact (sound_exec ops _ (sound_boot d e) g Hg).
Qed.

Lemma cache_within_persisted_witness :
  exists doc,
    In doc (groups (db (exec [op_load; op_add "a@g.us" (Some "Neol"); op_remove "b@g.us"]
                             (boot {| groups := []; users := []; nextId := 0 |}
                                   {| clock := 0; faults := [];
                                      socket := None |})))) /\
    IGroup.groupId doc = "a@g.us" /\ IGroup.isMonitored doc = true.
Proof.
  apply cache_within_persisted.
  apply (bool_decide_unpack _). vm_compute. exact I.
Defined.

(** ** Registering twice *)

Lemma find_app_None {A} (P : A -> bool) l1 l2 :
  List.find P l1 = None -> List.find P (l1 ++ l2) = List.find P l2.
Proof.
  induction l1 as [|x l1 IH]; simpl; [reflexivity|].
  destruct (P x); [discriminate|]. exact IH.
Qed.

Lemma find_app_Some {A} (P : A -> bool) l1 l2 x :
  List.find P l1 = Some x -> List.find P (l1 ++ l2) = Some x.
Proof.
  induction l1 as [|y l1 IH]; simpl; [discriminate|].
  destruct (P y); [auto|]. exact IH.
Qed.

Lemma updateFirst_app {A} (P : A -> bool) f l1 x l2 :
  List.find P l1 = None -> P x = true ->
  updateFirst P f (l1 ++ x :: l2) = Some (l1 ++ f x :: l2).
Proof.
  intros Hn Px. induction l1 as [|y l1 IH]; simpl in *.
  - now rewrite Px.
  - destruct (P y); [discriminate|]. now rewrite IH.
Qed.

(** What a registering upsert leaves: the list is split around the
    document of the group, which is monitored and carries the name. *)
Lemma Group_write_register g n t now gs :
  exists l1 d l2,
    Group.write g (registration n t) true now gs = l1 ++ d :: l2 /\
    List.find (Group.hasId g) l1 = None /\
    IGroup.groupId d = g /\ IGroup.isMonitored d = true /\
    (forall x, n = Some x -> IGroup.name d = Some x) /\
    Group.apply (registration n t) d = d.
Proof.
  unfold Group.write.
  destruct (List.find (Group.hasId g) gs) as [x|] eqn:F.
  - destruct (updateFirst_Some _ (Group.apply (registration n t)) _ _ F)
      as (l1 & l2 & -> & Hn & Px & ->).
    apply hasId_eq in Px.
    exists l1, (Group.apply (registration n t) x), l2.
    repeat split; auto; try (intros y ->; reflexivity).
    unfold Group.apply. simpl. destruct n; reflexivity.
  - rewrite (updateFirst_None _ _ _ F).
    exists gs, (Group.fresh g (registration n t) now), [].
    repeat split; auto; try (intros y ->; reflexivity).
    unfold Group.apply, Group.fresh. simpl. destruct n; reflexivity.
Qed.

Lemma untimed_apply_again n t t' d :
  Group.apply (registration n t) d = d ->
  untimed (Group.apply (registration n t') d) = untimed d.
Proof.
  intros <-. unfold untimed, Group.apply. simpl. destruct n; reflexivity.
Qed.

Lemma Group_write_twice g n t now t' now' gs :
  map untimed (Group.write g (registration n t') true now'
                 (Group.write g (registration n t) true now gs))
  = map untimed (Group.write g (registration n t) true now gs).
Proof.
  destruct (Group_write_register g n t now gs)
    as (l1 & d & l2 & -> & Hn & Hid & _ & _ & Hfix).
  unfold Group.write at 1.
  rewrite (updateFirst_app _ _ _ _ _ Hn (proj2 (hasId_eq g d) Hid)).
  rewrite !map_app. simpl. now rewrite (untimed_apply_again _ _ _ _ Hfix).
Qed.

(** C3. [addGroupToMonitored] is idempotent: once a call with some
    arguments has returned, a second call with the same arguments (answered
    or rejected by the store) leaves the in-memory set and the persisted
    monitored set with the same members, the group documents equal up to
    their timestamp, and the membership records untouched. *)
Theorem addGroupToMonitored_idempotent
    (g : string) (n : option string) (w : World) :
  let w1 := snd (GroupService.addGroupToMonitored g n w) in
  let w2 := snd (GroupService.addGroupToMonitored g n w1) in
  fst (GroupService.addGroupToMonitored g n w) = Ok tt ->
  monitoredGroupsCache w2 = monitoredGroupsCache w1 /\
  persisted (groups (db w2)) = persisted (groups (db w1)) /\
  map untimed (groups (db w2)) = map untimed (groups (db w1)) /\
  users (db w2) = users (db w1).
Proof.
  intros w1 w2 Hok.
  destruct (addGroupToMonitored_cases g n w)
    as (_ & _ & _ & _ & _ & _ & _ & [(_ & _ & Hg1 & Hc1)|(_ & Hthrow & _)]);
    [|rewrite Hthrow in Hok; discriminate].
  fold w1 in Hg1, Hc1.
  destruct (addGroupToMonitored_cases g n w1)
    as (_ & _ & _ & _ & _ & Hu & _ & [(_ & _ & Hg2 & Hc2)|(_ & _ & Hg2 & Hc2)]);
    fold w2 in Hu, Hg2, Hc2; rewrite Hg2, Hc2, Hu.
  - rewrite Hg1, Hc1. unfold registration at 1 3.
    rewrite persisted_register. fold (registration n (clock (env w1))).
    rewrite Group_write_twice.
    unfold registration. rewrite persisted_register.
    repeat split; set_solver.
  - repeat split.
Qed.

Lemma addGroupToMonitored_idempotent_witness :
  let w := boot {| groups := []; users := []; nextId := 0 |}
                {| clock := 0; faults := []; socket := None |} in
  let w1 := snd (GroupService.addGroupToMonitored "a@g.us" (Some "Neol") w) in
  let w2 := snd (GroupService.addGroupToMonitored "a@g.us" (Some "Neol") w1) in
  monitoredGroupsCache w2 = monitoredGroupsCache w1.
Proof.
  intros w w1 w2.
  refine (proj1 (addGroupToMonitored_idempotent "a@g.us" (Some "Neol") w _)).
  reflexivity.
Defined.

(** ** The status report *)

#[local] Instance reads_only_preorder : PreOrder reads_only.
Proof.
  split.
  - intros w. repeat split. exists []. split; [reflexivity|constructor].
  - intros a b c (H1 & H2 & cs1 & H3 & H4) (H5 & H6 & cs2 & H7 & H8).
    split; [congruence|]. split; [congruence|].
    exists (cs2 ++ cs1). split.
    + unfold issued in *. now rewrite H7, H3, app_assoc.
    + apply Forall_app; auto.
Qed.

Lemma reads_only_log l msg : Keeps reads_only (log l msg).
Proof.
  intros w. repeat split. exists []. split; [reflexivity|constructor].
Qed.

Lemma reads_only_query c : isWrite c = false -> Keeps reads_only (storeCall c).
Proof.
  intros Hc w. fold (called c w).
  destruct (storeCall_snd c w) as (Hdb & Hcache & _ & _ & _ & Hj & _).
  repeat split; auto. exists [c]. split; [exact Hj|]. repeat constructor. exact Hc.
Qed.

Ltac reads :=
  repeat first
    [ progress cbv beta zeta
    | match goal with
      | |- Keeps _ (ret _) => apply Keeps_ret; exact _
      | |- Keeps _ (throw _) => apply Keeps_throw; exact _
      | |- Keeps _ (gets _) => apply Keeps_gets; exact _
      | |- Keeps _ (log _ _) => apply reads_only_log
      | |- Keeps _ (storeCall _) => apply reads_only_query; reflexivity
      | |- Keeps _ (foldM _ _ _) => apply Keeps_foldM; [exact _|intros ? ?]
      | |- Keeps _ (tryCatch _ _) =>
          apply Keeps_tryCatch; [exact _| |intros ?]
      | |- Keeps _ (bind _ _) => apply Keeps_bind; [exact _| |intros ?]
      end ].

Lemma getDatabaseStatus_reads_only :
  Keeps reads_only GroupService.getDatabaseStatus.
Proof.
  unfold GroupService.getDatabaseStatus, Group.find, logger.error. reads.
  unfold GroupService.countGroup, User.countDocuments. reads.
Qed.

Lemma filter_filter_length {A} (P Q : A -> bool) l :
  length (List.filter (fun x => P x && Q x) l) =
  length (List.filter Q (List.filter P l)).
Proof.
  induction l as [|x l IH]; simpl; [reflexivity|].
  destruct (P x); simpl; [|exact IH]. destruct (Q x); simpl; now rewrite IH.
Qed.

Lemma length_filter_cons {A} (P : A -> bool) x l :
  Z.of_nat (length (List.filter P (x :: l))) =
  ((if P x then 1 else 0) + Z.of_nat (length (List.filter P l)))%Z.
Proof. simpl. destruct (P x); simpl length; lia. Qed.

Lemma countDocuments_calm g a w :
  calm w ->
  User.countDocuments g a w =
    (Ok (Z.of_nat (length (List.filter
           (fun d => User.inGroup g d && (negb a || IUser.isActive d))
           (users (db w))))),
     called (User_countDocuments g a) w).
Proof.
  intros Hc. unfold User.countDocuments.
  destruct (storeCall_calm (User_countDocuments g a) w Hc) as [E _].
  rewrite (bind_Ok _ _ _ _ _ E). unfold gets.
  destruct (storeCall_snd (User_countDocuments g a) w) as (-> & _).
  reflexivity.
Qed.

Lemma countGroup_calm acc group w :
  calm w ->
  exists w',
    GroupService.countGroup acc group w =
      (Ok {| GroupService.t_target :=
               if containsTargetKeyword (report_for (users (db w)) group)
               then GroupService.t_target acc + 1
               else GroupService.t_target acc;
             GroupService.t_force :=
               if containsTargetKeyword (report_for (users (db w)) group)
               then GroupService.t_force acc
               else GroupService.t_force acc + 1;
             GroupService.t_details :=
               GroupService.t_details acc ++
               [report_for (users (db w)) group] |}, w') /\
    calm w' /\ db w' = db w.
Proof.
  intros Hc. unfold GroupService.countGroup.
  set (g := IGroup.groupId group).
  pose proof (countDocuments_calm g false w Hc) as E1.
  destruct (storeCall_calm (User_countDocuments g false) w Hc) as [_ Hc1].
  destruct (storeCall_snd (User_countDocuments g false) w) as (Hdb1 & _).
  set (w1 := called (User_countDocuments g false) w) in *.
  pose proof (countDocuments_calm g true w1 Hc1) as E2.
  destruct (storeCall_calm (User_countDocuments g true) w1 Hc1) as [_ Hc2].
  destruct (storeCall_snd (User_countDocuments g true) w1) as (Hdb2 & _).
  exists (called (User_countDocuments g true) w1).
  split; [|split; [assumption|congruence]].
  rewrite (bind_Ok _ _ _ _ _ E1), (bind_Ok _ _ _ _ _ E2). unfold ret.
  rewrite Hdb1. unfold report_for. fold g. simpl.
  rewrite (filter_filter_length (User.inGroup g) IUser.isActive).
  rewrite (List.filter_ext _ (User.inGroup g)); [reflexivity|].
  intros u. simpl. apply andb_true_r.
Qed.

Lemma tally_calm gs : forall acc w,
  calm w ->
  exists w',
    foldM gs acc GroupService.countGroup w =
      (Ok {| GroupService.t_target :=
               GroupService.t_target acc +
               Z.of_nat (length (List.filter containsTargetKeyword
                                   (map (report_for (users (db w))) gs)));
             GroupService.t_force :=
               GroupService.t_force acc +
               Z.of_nat (length (List.filter
                                   (fun x => negb (containsTargetKeyword x))
                                   (map (report_for (users (db w))) gs)));
             GroupService.t_details :=
               GroupService.t_details acc ++
               map (report_for (users (db w))) gs |}, w') /\
    calm w' /\ db w' = db w.
Proof.
  induction gs as [|group gs IH]; intros acc w Hc.
  - simpl. exists w. repeat split; auto. unfold ret.
    rewrite !Z.add_0_r, app_nil_r. now destruct acc.
  - cbn [foldM].
    destruct (countGroup_calm acc group w Hc) as (w1 & E1 & Hc1 & Hdb1).
    rewrite (bind_Ok _ _ _ _ _ E1).
    match goal with
    | |- context [foldM gs ?a _ w1] =>
        destruct (IH a w1 Hc1) as (w2 & E2 & Hc2 & Hdb2)
    end.
    exists w2. split; [|split; [assumption|congruence]].
    rewrite E2, Hdb1. cbn [map GroupService.t_target
      GroupService.t_force GroupService.t_details].
    rewrite !length_filter_cons, <- !app_assoc.
    destruct (containsTargetKeyword (report_for (users (db w)) group));
      cbn [negb]; do 2 f_equal; f_equal; lia.
Qed.

Lemma getDatabaseStatus_calm w :
  calm w ->
  fst (GroupService.getDatabaseStatus w) = Ok (status_of (db w)).
Proof.
  intros Hc. unfold GroupService.getDatabaseStatus, Group.find.
  destruct (storeCall_calm Group_find w Hc) as [E Hc1].
  destruct (storeCall_snd Group_find w) as (Hdb & _).
  set (gs := List.filter IGroup.isMonitored (groups (db w))).
  destruct (tally_calm gs
              {| GroupService.t_target := 0; GroupService.t_force := 0;
                 GroupService.t_details := [] |} _ Hc1) as (w2 & E2 & _).
  unfold tryCatch, bind at 1 2 3. rewrite E. unfold gets at 1.
  rewrite Hdb. fold gs. unfold bind. rewrite E2. simpl.
  rewrite Hdb. reflexivity.
Qed.

(** C6. [getDatabaseStatus] writes nothing, whatever the store answers:
    the collections and the cache are unchanged and every call it issues is
    a query.  When the store answers, it returns the report of the
    specification: one entry per group with [isMonitored = true], with the
    total number of the group's membership records, the number of active
    ones, [inactive = total - active], and the keyword predicate applied to
    the stored name, which decides between keyword match and
    force-monitored.  On the store with one keyword group (2 active, 1
    inactive) and one force-monitored group without members it returns
    2 groups, 1 keyword match, 1 force-monitored and the matching details. *)
Theorem getDatabaseStatus_report :
  (forall w, reads_only w (snd (GroupService.getDatabaseStatus w))) /\
  (forall w, calm w ->
     fst (GroupService.getDatabaseStatus w) = Ok (status_of (db w))) /\
  (forall d detail, In detail (groupDetails (status_of d)) ->
     inactiveMembers detail = (totalMembers detail - activeMembers detail)%Z /\
     exists group, In group (groups d) /\ IGroup.isMonitored group = true /\
                   detail = report_for (users d) group) /\
  fst (GroupService.getDatabaseStatus two_groups) =
    Ok {| totalGroups := 2; targetGroups := 1; forceMonitoredGroups := 1;
          groupDetails :=
            [{| gd_name := "Neol Friends"; gd_id := "1@g.us";
                containsTargetKeyword := true;
                totalMembers := 3; activeMembers := 2; inactiveMembers := 1 |};
             {| gd_name := "Random Chat"; gd_id := "2@g.us";
                containsTargetKeyword := false;
                totalMembers := 0; activeMembers := 0;
                inactiveMembers := 0 |}] |}.
Proof.
  split; [exact getDatabaseStatus_reads_only|].
  split; [exact getDatabaseStatus_calm|].
  split; [|vm_compute; reflexivity].
  intros d detail Hin. unfold status_of in Hin. simpl in Hin.
  apply in_map_iff in Hin as (group & <- & Hg).
  apply filter_In in Hg as [Hg Hm].
  split; [reflexivity|]. exists group. auto.
Qed.

Lemma getDatabaseStatus_report_witness :
  fst (GroupService.getDatabaseStatus two_groups) =
    Ok (status_of (db two_groups)).
Proof.
  apply (proj1 (proj2 getDatabaseStatus_report)). reflexivity.
Defined.

(** ** Handlers that never throw *)

Lemma Safe_ret {A} (a : A) : Safe (ret a).
Proof. intros w. now exists a. Qed.

Lemma Safe_gets {A} (f : World -> A) : Safe (gets f).
Proof. intros w. now exists (f w). Qed.

Lemma Safe_modify f : Safe (modify f).
Proof. intros w. now exists tt. Qed.

Lemma Safe_log l msg : Safe (log l msg).
Proof. apply Safe_modify. Qed.

Lemma Safe_bind {A B} (m : M A) (k : A -> M B) :
  Safe m -> (forall a, Safe (k a)) -> Safe (bind m k).
Proof.
  intros Hm Hk w. unfold bind. destruct (Hm w) as [a Ha].
  destruct (m w) as [r w1]. simpl in Ha. subst r. apply Hk.
Qed.

Lemma Safe_tryCatch {A} (m : M A) h :
  (forall e, Safe (h e)) -> Safe (tryCatch m h).
Proof.
  intros Hh w. unfold tryCatch. destruct (m w) as [[a|e] w1].
  - now exists a.
  - apply Hh.
Qed.

Lemma Safe_when b m : Safe m -> Safe (when b m).
Proof. destruct b; [auto|]. intros _. apply Safe_ret. Qed.

Lemma Safe_forEach {X} (xs : list X) body :
  (forall x, Safe (body x)) -> Safe (forEach xs body).
Proof.
  intros H. induction xs as [|x xs IH]; simpl.
  - apply Safe_ret.
  - apply Safe_bind; auto.
Qed.

Ltac safe :=
  repeat first
    [ progress cbv beta zeta
    | match goal with
      | |- Safe (ret _) => apply Safe_ret
      | |- Safe (gets _) => apply Safe_gets
      | |- Safe (modify _) => apply Safe_modify
      | |- Safe (log _ _) => apply Safe_log
      | |- Safe (when _ _) => apply Safe_when
      | |- Safe (forEach _ _) => apply Safe_forEach; intros ?
      | |- Safe (tryCatch _ _) => apply Safe_tryCatch; intros ?
      | |- Safe (bind _ _) => apply Safe_bind; [|intros ?]
      | |- Safe (if ?b then _ else _) => destruct b
      | |- Safe (match ?x with _ => _ end) => destruct x
      end ].

Lemma Safe_getGroupMetadata g : Safe (WhatsAppClient.getGroupMetadata g).
Proof.
  unfold WhatsAppClient.getGroupMetadata, WhatsAppClient.getSocket,
    logger.error.
  safe.
Qed.

Lemma Safe_fetchAndMonitorTargetGroups :
  Safe WhatsAppClient.fetchAndMonitorTargetGroups.
Proof.
  unfold WhatsAppClient.fetchAndMonitorTargetGroups, WhatsAppClient.getSocket,
    logger.error.
  safe.
Qed.

Lemma Safe_handleMessagesUpsert ms :
  Safe (WhatsAppController.handleMessagesUpsert ms).
Proof.
  unfold WhatsAppController.handleMessagesUpsert,
    WhatsAppController.handleHiCommand, WhatsAppController.handleSyncCommand,
    WhatsAppController.handleCheckCommand, logger.info, logger.error.
  safe.
Qed.

Lemma Safe_connection_update u : Safe (emit (connection_update u)).
Proof.
  simpl. unfold WhatsAppController.handleConnectionUpdate, reconnection,
    process_exit, WhatsAppClient.getSocket,
    logger.info, logger.success, logger.warn, logger.error.
  safe; apply Safe_fetchAndMonitorTargetGroups.
Qed.

(** A participant event of a group that is not monitored is handled
    inside one [try]. *)
Lemma participants_unmonitored_safe u w :
  pu_id u ∉ monitoredGroupsCache w ->
  exists a, fst (WhatsAppController.handleGroupParticipantsUpdate u w) = Ok a.
Proof.
  intros H. unfold WhatsAppController.handleGroupParticipantsUpdate.
  rewrite (bind_Ok _ _ _ _ _ (isMonitored_run _ w)).
  rewrite bool_decide_eq_false_2 by assumption.
  change (negb false) with true. cbv beta iota zeta.
  apply Safe_tryCatch. intros e. unfold logger.error. safe.
Qed.

(** C8, at the failing input.  The group "1@g.us" is monitored and the
    store rejects the next call.  A participant-add event, a rename event
    and a new-group event each end in a [Throw] that leaves the listener:
    the service has logged the error once and issued the call once, but
    neither the controller nor the listener catches it. *)
Theorem store_error_escapes_the_listener :
  let added := group_participants_update
                 {| pu_id := "1@g.us"; pu_participants := ["444"];
                    pu_action := add |} in
  let renamed := groups_update
                   [{| gu_id := Some "1@g.us";
                       gu_subject := Some "Neol Family" |}] in
  let joined := groups_upsert
                  [{| ng_id := "3@g.us"; ng_subject := Some "neol three";
                      ng_participants := None |}] in
  fst (emit added store_down)
    = Throw (StoreError (User_findOneAndUpdate "444" "1@g.us" true)) /\
  logs (out (snd (emit added store_down)))
    = [{| level := ERROR; text := "Error adding members: MongoServerError" |};
       {| level := INFO;
          text := "Group 1@g.us participants add: 444" |}] /\
  journal (out (snd (emit added store_down)))
    = [User_findOneAndUpdate "444" "1@g.us" true] /\
  fst (emit renamed store_down)
    = Throw (StoreError (Group_findOneAndUpdate "1@g.us" true)) /\
  fst (emit joined store_down)
    = Throw (StoreError (Group_findOneAndUpdate "3@g.us" true)).
Proof. vm_compute. repeat split. Qed.

(** ** Writes on the membership collection *)

Lemma isMember_key p g u : User.isMember p g u = true <-> key u = (p, g).
Proof.
  unfold User.isMember, User.inGroup, key.
  rewrite andb_true_iff, !String.eqb_eq. split.
  - intros [-> ->]. reflexivity.
  - intros [= -> ->]. auto.
Qed.

Lemma isMember_false p g u : key u <> (p, g) -> User.isMember p g u = false.
Proof.
  intros H. destruct (User.isMember p g u) eqn:E; [|reflexivity].
  apply isMember_key in E. contradiction.
Qed.

Lemma idkey_apply patch u : idkey (User.apply patch u) = idkey u.
Proof. reflexivity. Qed.

Lemma find_middle {A} (P : A -> bool) l1 x l2 :
  List.find P l1 = None ->
  List.find P (l1 ++ x :: l2) = if P x then Some x else List.find P l2.
Proof. intros H. rewrite (find_app_None _ _ _ H). reflexivity. Qed.

Lemma find_replace_other {A} (Q : A -> bool) l1 u u' l2 :
  Q u = false -> Q u' = false ->
  List.find Q (l1 ++ u' :: l2) = List.find Q (l1 ++ u :: l2).
Proof.
  intros H H'. induction l1 as [|y l1 IH]; simpl.
  - now rewrite H, H'.
  - now rewrite IH.
Qed.

Lemma find_none_forall {A} (P : A -> bool) l :
  (forall x, In x l -> P x = false) -> List.find P l = None.
Proof.
  induction l as [|y l IH]; simpl; intros H; [reflexivity|].
  rewrite (H y) by auto. apply IH. auto.
Qed.

Lemma NoDup_map_inj {A B} (f : A -> B) l x y :
  NoDup (map f l) -> In x l -> In y l -> f x = f y -> x = y.
Proof.
  induction l as [|z l IH]; simpl; [tauto|].
  intros Hnd [->|Hx] [->|Hy] E; auto;
    apply NoDup_cons in Hnd as [Hz Hnd]; rewrite list_elem_of_In in Hz.
  - exfalso. apply Hz. rewrite E. now apply in_map.
  - exfalso. apply Hz. rewrite <- E. now apply in_map.
  - auto.
Qed.

Lemma NoDup_map_middle {A B} (f : A -> B) l1 u l2 x :
  NoDup (map f (l1 ++ u :: l2)) -> In x l1 -> f x <> f u.
Proof.
  rewrite map_app. simpl. intros Hnd Hx E.
  apply NoDup_app in Hnd as (_ & Hnd & _).
  apply (Hnd (f x)).
  - apply list_elem_of_In. now apply in_map.
  - rewrite E. apply list_elem_of_here.
Qed.

(** A well-formed collection finds a record by either index. *)
Lemma look_unique d u :
  wf_db d -> In u (users d) ->
  look (IUser.phoneNumber u) (IUser.groupId u) (users d) = Some u.
Proof.
  intros (_ & Hk & _) Hin. unfold look.
  destruct (List.find _ (users d)) as [v|] eqn:F.
  - apply find_some in F as [Hv Pv]. apply isMember_key in Pv.
    f_equal. exact (NoDup_map_inj key _ v u Hk Hv Hin Pv).
  - exfalso. apply (find_none _ _ F) in Hin.
    rewrite (proj2 (isMember_key _ _ u) eq_refl) in Hin. discriminate.
Qed.

Lemma find_by_id d u :
  wf_db d -> In u (users d) ->
  List.find (User.hasId (IUser._id u)) (users d) = Some u.
Proof.
  intros (Hi & _) Hin.
  destruct (List.find _ (users d)) as [v|] eqn:F.
  - apply find_some in F as [Hv Pv]. apply Nat.eqb_eq in Pv.
    f_equal. exact (NoDup_map_inj IUser._id _ v u Hi Hv Hin Pv).
  - exfalso. apply (find_none _ _ F) in Hin.
    unfold User.hasId in Hin. rewrite Nat.eqb_refl in Hin. discriminate.
Qed.

Lemma wf_db_idkeys d d' :
  map idkey (users d') = map idkey (users d) -> nextId d' = nextId d ->
  wf_db d -> wf_db d'.
Proof.
  intros Hik Hn (Hi & Hk & Hb). unfold wf_db, ids_below in *.
  assert (E1 : map IUser._id (users d') = map IUser._id (users d)).
  { change IUser._id with (fun u => fst (idkey u)).
    rewrite <- !(map_map idkey fst). now rewrite Hik. }
  assert (E2 : map key (users d') = map key (users d)).
  { change key with (fun u => snd (idkey u)).
    rewrite <- !(map_map idkey snd). now rewrite Hik. }
  rewrite E1, E2, Hn. repeat split; auto.
  apply List.Forall_forall. intros u Hu.
  assert (H : In (IUser._id u) (map IUser._id (users d)))
    by (rewrite <- E1; now apply in_map).
  apply in_map_iff in H as (v & <- & Hv).
  exact (proj1 (List.Forall_forall _ _) Hb v Hv).
Qed.

Lemma idkeys_replace patch (l1 : list IUser.t) u l2 :
  map idkey (l1 ++ User.apply patch u :: l2) = map idkey (l1 ++ u :: l2).
Proof. rewrite !map_app. reflexivity. Qed.

(** *** The upsert *)

Lemma write_look_same p g patch now d :
  look p g (users (User.write p g patch true now d)) =
  Some (match look p g (users d) with
        | Some u => User.apply patch u
        | None => User.fresh (nextId d) p g patch now
        end).
Proof.
  unfold User.write, look.
  destruct (List.find (User.isMember p g) (users d)) as [u|] eqn:F.
  - destruct (updateFirst_Some _ (User.apply patch) _ _ F)
      as (l1 & l2 & E & Hn & Pu & ->).
    assert (Pu' : User.isMember p g (User.apply patch u) = true)
      by (apply isMember_key; now apply isMember_key in Pu).
    simpl. rewrite (find_middle _ _ _ _ Hn). now rewrite Pu'.
  - rewrite (updateFirst_None _ _ _ F). simpl.
    rewrite (find_app_None _ _ _ F). simpl.
    now rewrite (proj2 (isMember_key p g (User.fresh (nextId d) p g patch now))
                   eq_refl).
Qed.

Lemma write_look_other p g patch up now d p' g' :
  (p', g') <> (p, g) ->
  look p' g' (users (User.write p g patch up now d)) = look p' g' (users d).
Proof.
  intros Hne. unfold User.write, look.
  destruct (List.find (User.isMember p g) (users d)) as [u|] eqn:F.
  - destruct (updateFirst_Some _ (User.apply patch) _ _ F)
      as (l1 & l2 & E & Hn & Pu & ->).
    simpl. rewrite E. apply isMember_key in Pu.
    apply find_replace_other; apply isMember_false;
      [|change (key (User.apply patch u)) with (key u)]; rewrite Pu; congruence.
  - rewrite (updateFirst_None _ _ _ F). destruct up; [|reflexivity]. simpl.
    destruct (List.find (User.isMember p' g') (users d)) as [v|] eqn:F'.
    + now apply find_app_Some.
    + rewrite (find_app_None _ _ _ F'). simpl.
      rewrite isMember_false; [reflexivity|]. unfold key. simpl. congruence.
Qed.

Lemma write_idkeys p g patch up now d :
  incl (map idkey (users d)) (map idkey (users (User.write p g patch up now d))).
Proof.
  unfold User.write.
  destruct (List.find (User.isMember p g) (users d)) as [u|] eqn:F.
  - destruct (updateFirst_Some _ (User.apply patch) _ _ F)
      as (l1 & l2 & E & Hn & Pu & ->).
    simpl. rewrite idkeys_replace, <- E. apply incl_refl.
  - rewrite (updateFirst_None _ _ _ F). destruct up; [|apply incl_refl].
    simpl. rewrite map_app. apply incl_appl, incl_refl.
Qed.

Lemma write_wf p g patch up now d :
  wf_db d -> wf_db (User.write p g patch up now d).
Proof.
  intros Hwf. unfold User.write.
  destruct (List.find (User.isMember p g) (users d)) as [u|] eqn:F.
  - destruct (updateFirst_Some _ (User.apply patch) _ _ F)
      as (l1 & l2 & E & Hn & Pu & ->).
    apply (wf_db_idkeys d); [|reflexivity|assumption].
    simpl. now rewrite idkeys_replace, <- E.
  - rewrite (updateFirst_None _ _ _ F). destruct up; [|assumption].
    destruct Hwf as (Hi & Hk & Hb). unfold wf_db, ids_below in *. simpl.
    rewrite !map_app. simpl. repeat split.
    + apply NoDup_app. split; [assumption|]. split; [|apply NoDup_singleton].
      intros x Hx Hx'. apply list_elem_of_singleton in Hx'. subst x.
      apply list_elem_of_In, in_map_iff in Hx as (v & Hv & Hin).
      pose proof (proj1 (List.Forall_forall _ _) Hb v Hin). simpl in *. lia.
    + apply NoDup_app. split; [assumption|]. split; [|apply NoDup_singleton].
      intros x Hx Hx'. apply list_elem_of_singleton in Hx'. subst x.
      apply list_elem_of_In, in_map_iff in Hx as (v & Hv & Hin).
      apply (find_none _ _ F) in Hin.
      rewrite (proj2 (isMember_key p g v) Hv) in Hin. discriminate.
    + apply Forall_app. split.
      * eapply List.Forall_impl; [|exact Hb]. simpl. intros; lia.
      * repeat constructor.
Qed.

(** *** The update by [_id] *)

Lemma writeById_idkeys id patch d :
  map idkey (users (User.writeById id patch d)) = map idkey (users d) /\
  nextId (User.writeById id patch d) = nextId d.
Proof.
  unfold User.writeById.
  destruct (List.find (User.hasId id) (users d)) as [u|] eqn:F.
  - destruct (updateFirst_Some _ (User.apply patch) _ _ F)
      as (l1 & l2 & E & Hn & Pu & ->).
    simpl. now rewrite idkeys_replace, <- E.
  - now rewrite (updateFirst_None _ _ _ F).
Qed.

Lemma writeById_wf id patch d : wf_db d -> wf_db (User.writeById id patch d).
Proof.
  destruct (writeById_idkeys id patch d) as [H1 H2].
  now apply wf_db_idkeys.
Qed.

Lemma writeById_look id patch d u :
  wf_db d -> In u (users d) -> IUser._id u = id ->
  look (IUser.phoneNumber u) (IUser.groupId u)
       (users (User.writeById id patch d)) = Some (User.apply patch u) /\
  forall p' g', (p', g') <> key u ->
    look p' g' (users (User.writeById id patch d)) = look p' g' (users d).
Proof.
  intros Hwf Hin <-. pose proof (find_by_id d u Hwf Hin) as F.
  destruct (updateFirst_Some _ (User.apply patch) _ _ F)
    as (l1 & l2 & E & Hn & Pu & Hup).
  unfold User.writeById. rewrite Hup. simpl. unfold look. split.
  - rewrite find_middle.
    + assert (Pu' : User.isMember (IUser.phoneNumber u) (IUser.groupId u)
                                  (User.apply patch u) = true)
        by now apply isMember_key.
      now rewrite Pu'.
    + apply find_none_forall. intros x Hx. apply isMember_false.
      destruct Hwf as (_ & Hk & _). rewrite E in Hk.
      exact (NoDup_map_middle key _ _ _ _ Hk Hx).
  - intros p' g' Hne. rewrite E.
    apply find_replace_other; apply isMember_false;
      [|change (key (User.apply patch u)) with (key u)]; congruence.
Qed.

(** ** Computations that return *)

Lemma wp_ret {A} (a : A) (Q : A -> World -> Prop) w : Q a w -> wp (ret a) Q w.
Proof. auto. Qed.

Lemma wp_gets {A} (f : World -> A) (Q : A -> World -> Prop) w :
  Q (f w) w -> wp (gets f) Q w.
Proof. auto. Qed.

Lemma wp_modify f (Q : unit -> World -> Prop) w :
  Q tt (f w) -> wp (modify f) Q w.
Proof. auto. Qed.

Lemma wp_bind {A B} (m : M A) (k : A -> M B) (Q : B -> World -> Prop) w :
  wp m (fun a w' => wp (k a) Q w') w -> wp (bind m k) Q w.
Proof. unfold wp, bind. destruct (m w) as [[a|e] w1]; auto. Qed.

Lemma wp_tryCatch {A} (m : M A) h (Q : A -> World -> Prop) w :
  wp m Q w -> wp (tryCatch m h) Q w.
Proof. unfold wp, tryCatch. destruct (m w) as [[a|e] w1]; [auto|tauto]. Qed.

Lemma wp_conseq {A} (m : M A) (Q Q' : A -> World -> Prop) w :
  wp m Q w -> (forall a w', Q a w' -> Q' a w') -> wp m Q' w.
Proof. unfold wp. destruct (m w) as [[a|e] w1]; auto. Qed.

Lemma wp_elim {A} (m : M A) (Q : A -> World -> Prop) w :
  wp m Q w -> exists a, fst (m w) = Ok a /\ Q a (snd (m w)).
Proof. unfold wp. destruct (m w) as [[a|e] w1]; [eauto|tauto]. Qed.

Lemma wp_storeCall c (Q : unit -> World -> Prop) w :
  calm w -> Q tt (called c w) -> wp (storeCall c) Q w.
Proof.
  intros Hc HQ. unfold wp. now rewrite (proj1 (storeCall_calm c w Hc)).
Qed.

Lemma called_calm c w : calm w -> calm (called c w).
Proof. intros H. apply (storeCall_calm c w H). Qed.

Lemma stable_intro w w' :
  calm w' -> monitoredGroupsCache w' = monitoredGroupsCache w ->
  groups (db w') = groups (db w) -> socket (env w') = socket (env w) ->
  wf_db (db w') ->
  incl (map idkey (users (db w))) (map idkey (users (db w'))) ->
  stable w w'.
Proof. unfold stable. tauto. Qed.

Lemma stable_refl w : calm w -> wf_db (db w) -> stable w w.
Proof. intros. apply stable_intro; auto. apply incl_refl. Qed.

Lemma stable_trans a b c : stable a b -> stable b c -> stable a c.
Proof.
  intros (_ & H2 & H3 & H4 & _ & H6) (G1 & G2 & G3 & G4 & G5 & G6).
  apply stable_intro; try congruence; auto.
  eapply incl_tran; eassumption.
Qed.

Lemma stable_called c w : calm w -> wf_db (db w) -> stable w (called c w).
Proof.
  intros Hc Hwf.
  destruct (storeCall_snd c w) as (Hdb & Hca & _ & _ & _ & _ & _ & Hs & _).
  apply stable_intro; try (rewrite Hdb); auto.
  - now apply called_calm.
  - apply incl_refl.
Qed.

Lemma issued_refl w : issued w w [].
Proof. reflexivity. Qed.

Lemma issued_trans a b c cs1 cs2 :
  issued a b cs1 -> issued b c cs2 -> issued a c (cs2 ++ cs1).
Proof. unfold issued. intros H1 H2. now rewrite H2, H1, app_assoc. Qed.

Lemma issued_called c w : issued w (called c w) [c].
Proof. apply (storeCall_snd c w). Qed.

(** The upsert of one member, when the store answers. *)
Lemma markActive_spec g p w :
  calm w -> wf_db (db w) ->
  wp (GroupService.markActive g p)
     (fun _ w' =>
        stable w w' /\
        (exists u, membership p g w' = Some u /\ IUser.isActive u = true) /\
        (forall p' g', (p', g') <> (p, g) ->
                       membership p' g' w' = membership p' g' w) /\
        issued w w' [User_findOneAndUpdate p g true]) w.
Proof.
  intros Hc Hwf. unfold GroupService.markActive, newDate, User.findOneAndUpdate.
  apply wp_bind, wp_gets, wp_bind, wp_storeCall; [assumption|].
  apply wp_bind, wp_gets, wp_modify.
  set (c := User_findOneAndUpdate p g true).
  destruct (stable_called c w Hc Hwf) as (S1 & S2 & S3 & S4 & S5 & S6).
  destruct (storeCall_snd c w) as (Hdb & _).
  pose proof (issued_called c w) as Hj.
  unfold membership. simpl. rewrite Hdb.
  split; [|split; [|split]].
  - apply stable_intro; simpl; rewrite ?Hdb; auto.
    + now rewrite User_write_groups.
    + now apply write_wf.
    + apply write_idkeys.
  - rewrite write_look_same. eexists. split; [reflexivity|].
    destruct (look p g (users (db w))); reflexivity.
  - intros p' g' Hne. apply (write_look_other p g _ true _ _ p' g' Hne).
  - exact Hj.
Qed.

(** The update of one record by its [_id], when the store answers. *)
Lemma retire_spec u w :
  calm w -> wf_db (db w) -> In u (users (db w)) ->
  wp (now <- newDate ;;
      User.findByIdAndUpdate (IUser._id u) (GroupService.deactivate now))
     (fun _ w' =>
        stable w w' /\
        map idkey (users (db w')) = map idkey (users (db w)) /\
        (exists t, membership (IUser.phoneNumber u) (IUser.groupId u) w' =
                   Some (User.apply (GroupService.deactivate t) u)) /\
        (forall p' g', (p', g') <> key u ->
                       membership p' g' w' = membership p' g' w) /\
        issued w w' [User_findByIdAndUpdate (IUser._id u)]) w.
Proof.
  intros Hc Hwf Hin. unfold newDate, User.findByIdAndUpdate.
  apply wp_bind, wp_gets, wp_bind, wp_storeCall; [assumption|].
  apply wp_modify.
  set (c := User_findByIdAndUpdate (IUser._id u)).
  set (patch := GroupService.deactivate (clock (env w))).
  destruct (stable_called c w Hc Hwf) as (S1 & S2 & S3 & S4 & S5 & S6).
  destruct (storeCall_snd c w) as (Hdb & _).
  destruct (writeById_idkeys (IUser._id u) patch (db w)) as [Hik Hn].
  destruct (writeById_look (IUser._id u) patch (db w) u Hwf Hin eq_refl)
    as [Hsame Hother].
  pose proof (issued_called c w) as Hj.
  unfold membership. simpl. rewrite Hdb.
  split; [|split; [assumption|split; [|split]]].
  - apply stable_intro; simpl; rewrite ?Hdb; auto.
    + now rewrite User_writeById_groups.
    + now apply writeById_wf.
    + rewrite Hik. apply incl_refl.
  - exists (clock (env w)). exact Hsame.
  - exact Hother.
  - exact Hj.
Qed.

(** ** The two loops of [syncGroupMembers] *)

Lemma sync_phase1 g ms : forall acc w,
  calm w -> wf_db (db w) ->
  wp (foldM ms acc (GroupService.syncMember g))
     (fun processed w' =>
        stable w w' /\
        (forall p, p ∈ processed <-> In p ms \/ p ∈ acc) /\
        (forall p, In p ms ->
           exists u, membership p g w' = Some u /\ IUser.isActive u = true) /\
        (forall p' g', g' <> g \/ ~ In p' ms ->
           membership p' g' w' = membership p' g' w) /\
        exists cs, issued w w' cs /\
          Forall (fun c => exists p, In p ms /\
                                     c = User_findOneAndUpdate p g true) cs) w.
Proof.
  induction ms as [|a ms IH]; intros acc w Hc Hwf; cbn [foldM].
  - apply wp_ret. split; [now apply stable_refl|].
    split; [simpl; tauto|]. split; [intros p []|]. split; [auto|].
    exists []. split; [reflexivity|constructor].
  - apply wp_bind. unfold GroupService.syncMember at 1. cbv zeta.
    apply wp_bind.
    eapply wp_conseq; [now apply markActive_spec|].
    intros [] w1 (S1 & (u & Hu & Ha) & Ho & Hj1). apply wp_ret.
    eapply wp_conseq; [apply IH; apply S1|].
    intros processed w2 (S2 & Hp & Hact & Hoth & cs & Hj2 & Hcs).
    split; [exact (stable_trans _ _ _ S1 S2)|]. split; [|split; [|split]].
    + intros p. rewrite Hp, elem_of_union, elem_of_singleton. simpl.
      intuition congruence.
    + intros p [<-|Hin].
      * destruct (List.in_dec String.string_dec a ms) as [Hin|Hnin].
        -- now apply Hact.
        -- exists u. rewrite (Hoth a g) by auto. auto.
      * now apply Hact.
    + intros p' g' Hne. rewrite Hoth by (simpl in Hne; tauto).
      apply Ho. simpl in Hne. intros [= -> ->]. tauto.
    + exists (cs ++ [User_findOneAndUpdate a g true]).
      split; [exact (issued_trans _ _ _ _ _ Hj1 Hj2)|].
      apply Forall_app. split.
      * eapply List.Forall_impl; [|exact Hcs].
        intros c (p & Hin & ->). exists p. simpl. auto.
      * repeat constructor. exists a. simpl. auto.
Qed.

Lemma retires_entry processed m :
  (negb (bool_decide (fst (IUser.phoneNumber m, m) ∈ processed))
   && IUser.isActive (snd (IUser.phoneNumber m, m))) = retires processed m.
Proof. reflexivity. Qed.

Lemma sync_phase2 processed L : forall w,
  calm w -> wf_db (db w) -> NoDup (map key L) ->
  (forall m, In m L -> retires processed m = true ->
     membership (IUser.phoneNumber m) (IUser.groupId m) w = Some m) ->
  wp (forEach (map (fun m => (IUser.phoneNumber m, m)) L)
              (GroupService.retireMember processed))
     (fun _ w' =>
        stable w w' /\
        (forall m, In m L -> retires processed m = true ->
           exists t, membership (IUser.phoneNumber m) (IUser.groupId m) w' =
                     Some (User.apply (GroupService.deactivate t) m)) /\
        (forall p g,
           (forall m, In m L -> retires processed m = true -> key m <> (p, g)) ->
           membership p g w' = membership p g w) /\
        exists cs, issued w w' cs /\
          Forall (fun c => exists m, In m L /\ retires processed m = true /\
                             c = User_findByIdAndUpdate (IUser._id m)) cs) w.
Proof.
  induction L as [|m L IH]; intros w Hc Hwf Hnd Hcur; cbn [map forEach].
  - apply wp_ret. split; [now apply stable_refl|]. split; [intros m []|].
    split; [auto|]. exists []. split; [reflexivity|constructor].
  - apply NoDup_cons in Hnd as [Hm Hnd]. rewrite list_elem_of_In in Hm.
    assert (Hfresh : forall m', In m' L -> key m' <> key m).
    { intros m' Hin E. apply Hm. rewrite <- E. now apply in_map. }
    apply wp_bind. unfold GroupService.retireMember at 1. cbv zeta.
    rewrite retires_entry. cbn [fst snd].
    destruct (retires processed m) eqn:R; cbn [when].
    + assert (Hin : In m (users (db w))).
      { specialize (Hcur m (or_introl eq_refl) R).
        unfold membership, look in Hcur. now apply find_some in Hcur. }
      eapply wp_conseq; [now apply retire_spec|].
      intros [] w1 (S1 & _ & (t & Ht) & Ho & Hj1).
      eapply wp_conseq.
      { apply IH; try apply S1; [assumption|].
        intros m' Hin' R'. rewrite Ho by (apply Hfresh, Hin').
        apply Hcur; auto. now right. }
      intros [] w2 (S2 & Hret & Hoth & cs & Hj2 & Hcs).
      split; [exact (stable_trans _ _ _ S1 S2)|]. split; [|split].
      * intros m' [<-|Hin'] R'; [|now apply Hret].
        exists t. rewrite Hoth; [exact Ht|].
        intros m' Hin' _. now apply Hfresh.
      * intros p g Hne. rewrite Hoth.
        -- apply Ho. intros E. apply (Hne m (or_introl eq_refl) R). now symmetry.
        -- intros m' Hin' R'. apply Hne; auto. now right.
      * exists (cs ++ [User_findByIdAndUpdate (IUser._id m)]).
        split; [exact (issued_trans _ _ _ _ _ Hj1 Hj2)|].
        apply Forall_app. split.
        -- eapply List.Forall_impl; [|exact Hcs].
           intros c (m' & Hin' & R' & ->). exists m'. simpl. auto.
        -- repeat constructor. exists m. simpl. auto.
    + apply wp_ret.
      eapply wp_conseq.
      { apply IH; try assumption. intros m' Hin' R'. apply Hcur; auto. now right. }
      intros [] w2 (S2 & Hret & Hoth & cs & Hj2 & Hcs).
      split; [assumption|]. split; [|split].
      * intros m' [<-|Hin'] R'; [congruence|now apply Hret].
      * intros p g Hne. apply Hoth. intros m' Hin' R'. apply Hne; auto. now right.
      * exists cs. split; [assumption|].
        eapply List.Forall_impl; [|exact Hcs].
        intros c (m' & Hin' & R' & ->). exists m'. simpl. auto.
Qed.

(** *** The map of existing members *)

Lemma Map_set_fresh {V} k (v : V) m :
  ~ In k (map fst m) -> Map_set k v m = m ++ [(k, v)].
Proof.
  induction m as [|[k' v'] m IH]; simpl; intros H; [reflexivity|].
  destruct (String.eqb k' k) eqn:E.
  - apply String.eqb_eq in E. tauto.
  - now rewrite IH by tauto.
Qed.

Lemma Map_of_distinct {V} (entries : list (string * V)) :
  NoDup (map fst entries) -> Map_of entries = entries.
Proof.
  unfold Map_of.
  enough (G : forall acc,
    NoDup (map fst (acc ++ entries)) ->
    fold_left (fun m kv => Map_set (fst kv) (snd kv) m) entries acc
    = acc ++ entries) by (intros H; exact (G [] H)).
  induction entries as [|[k v] es IH]; intros acc Hnd; simpl.
  - now rewrite app_nil_r.
  - rewrite Map_set_fresh.
    + rewrite IH; rewrite <- app_assoc; [reflexivity|exact Hnd].
    + rewrite map_app in Hnd. apply NoDup_app in Hnd as (_ & Hnd & _).
      intros Hin. apply (Hnd k); [now apply list_elem_of_In|].
      simpl. apply list_elem_of_here.
Qed.

Lemma NoDup_map_filter {A B} (f : A -> B) P l :
  NoDup (map f l) -> NoDup (map f (List.filter P l)).
Proof.
  induction l as [|x l IH]; simpl; intros H; [constructor|].
  apply NoDup_cons in H as [Hx H]. destruct (P x); simpl; [|auto].
  apply NoDup_cons. split; [|auto].
  intros Hin. apply Hx. apply list_elem_of_In. apply list_elem_of_In in Hin.
  apply in_map_iff in Hin as (y & E & Hy). apply filter_In in Hy as [Hy _].
  rewrite <- E. now apply in_map.
Qed.

Lemma NoDup_phones g l :
  (forall m, In m l -> IUser.groupId m = g) ->
  NoDup (map key l) -> NoDup (map IUser.phoneNumber l).
Proof.
  induction l as [|x l IH]; simpl; intros Hg H; [constructor|].
  apply NoDup_cons in H as [Hx H]. apply NoDup_cons. split; [|auto].
  intros Hin. apply Hx. apply list_elem_of_In. apply list_elem_of_In in Hin.
  apply in_map_iff in Hin as (y & E & Hy). apply in_map_iff. exists y.
  split; [|assumption]. unfold key. rewrite E, (Hg y), (Hg x); auto.
Qed.

(** ** Reconciliation *)

Lemma inGroup_eq g m : User.inGroup g m = true <-> IUser.groupId m = g.
Proof. unfold User.inGroup. apply String.eqb_eq. Qed.

Lemma membership_In p g w u :
  membership p g w = Some u ->
  In u (users (db w)) /\ IUser.phoneNumber u = p /\ IUser.groupId u = g.
Proof.
  unfold membership, look. intros F. apply find_some in F as [Hin Pu].
  apply isMember_key in Pu. injection Pu as -> ->. auto.
Qed.

Lemma syncGroupMembers_spec g ms w :
  calm w -> wf_db (db w) -> g ∈ monitoredGroupsCache w ->
  wp (GroupService.syncGroupMembers g ms)
     (fun _ w' =>
        stable w w' /\ reconciled g ms w w' /\
        exists cs, issued w w' cs /\
                   Forall (sync_call g ms (users (db w))) cs) w.
Proof.
  intros Hc Hwf Hg. unfold GroupService.syncGroupMembers.
  apply wp_bind. unfold GroupService.isMonitored. apply wp_gets.
  rewrite (bool_decide_eq_true_2 _ Hg). change (negb true) with false.
  cbv iota. apply wp_tryCatch. apply wp_bind. unfold User.find.
  apply wp_bind, wp_storeCall; [assumption|]. apply wp_gets. cbv zeta.
  set (c := User_find g).
  pose proof (stable_called c w Hc Hwf) as S0.
  destruct (storeCall_snd c w) as (Hdb & _). rewrite Hdb.
  set (S := List.filter (User.inGroup g) (users (db w))).
  assert (HS : forall m, In m S -> In m (users (db w)) /\ IUser.groupId m = g).
  { intros m Hm. apply filter_In in Hm as [Hm Hgm].
    apply inGroup_eq in Hgm. auto. }
  assert (HndS : NoDup (map key S)) by (apply NoDup_map_filter, Hwf).
  rewrite Map_of_distinct.
  2:{ rewrite map_map. simpl. apply (NoDup_phones g); [|assumption].
      intros m Hm. now apply HS. }
  assert (Hm0 : forall p g', membership p g' (called c w) = membership p g' w)
    by (intros; unfold membership; now rewrite Hdb).
  apply wp_bind.
  eapply wp_conseq; [apply sync_phase1; apply S0|].
  intros processed w1 (S1 & Hp & Hact & Hoth & cs1 & Hj1 & Hcs1).
  assert (Hproc : forall p, p ∈ processed <-> In p ms).
  { intros p. rewrite Hp. set_solver. }
  assert (Hretires : forall m, retires processed m = true ->
            ~ In (IUser.phoneNumber m) ms /\ IUser.isActive m = true).
  { intros m R. unfold retires in R. apply andb_prop in R as [R1 R2].
    split; [|assumption]. rewrite <- Hproc.
    apply negb_true_iff, bool_decide_eq_false_1 in R1. exact R1. }
  apply wp_bind.
  eapply wp_conseq.
  { apply (sync_phase2 processed S); try apply S1; [assumption|].
    intros m Hm R. destruct (HS m Hm) as [Hin Hgm].
    rewrite Hoth by (right; apply (Hretires m R)).
    rewrite Hm0. now apply look_unique. }
  intros [] w2 (S2 & Hret & Hkeep & cs2 & Hj2 & Hcs2).
  unfold logger.success, log. apply wp_modify.
  split; [exact (stable_trans _ _ _ S0 (stable_trans _ _ _ S1 S2))|].
  split.
  2:{ exists (cs2 ++ cs1 ++ [c]). split.
      - exact (issued_trans _ _ _ _ _
                 (issued_trans _ _ _ _ _ (issued_called c w) Hj1) Hj2).
      - apply Forall_app. split; [|apply Forall_app; split].
        + eapply List.Forall_impl; [|exact Hcs2].
          intros x (m & Hm & R & ->). right. right. exists m.
          destruct (HS m Hm) as [Hin Hgm]. destruct (Hretires m R). auto 6.
        + eapply List.Forall_impl; [|exact Hcs1].
          intros x (p & Hin & ->). right. left. eauto.
        + repeat constructor. }
  change (reconciled g ms w w2).
  split; [|split].
  - intros p Hin. destruct (Hact p Hin) as (u & Hu & Ha). exists u.
    split; [|assumption]. rewrite Hkeep; [assumption|].
    intros m Hm R [= E _]. apply (Hretires m R). now rewrite E.
  - intros p Hnin.
    assert (E1 : membership p g w1 = membership p g w)
      by (rewrite Hoth, Hm0; auto).
    destruct (membership p g w) as [u|] eqn:F.
    + destruct (membership_In _ _ _ _ F) as (Hin & Hpu & Hgu).
      assert (HuS : In u S) by (apply filter_In; split;
                                [assumption|now apply inGroup_eq]).
      destruct (IUser.isActive u) eqn:A.
      * assert (R : retires processed u = true).
        { unfold retires. rewrite A, andb_true_r.
          apply negb_true_iff, bool_decide_eq_false_2.
          rewrite Hproc, Hpu. exact Hnin. }
        destruct (Hret u HuS R) as (t & Ht). exists t.
        now rewrite <- Hpu, <- Hgu.
      * rewrite Hkeep; [exact E1|].
        intros m Hm R Ek. destruct (HS m Hm) as [Hinm _].
        assert (m = u).
        { apply (NoDup_map_inj key (users (db w))); auto; [apply Hwf|].
          rewrite Ek. unfold key. now rewrite Hpu, Hgu. }
        subst m. destruct (Hretires u R) as [_ A']. congruence.
    + rewrite Hkeep; [exact E1|].
      intros m Hm R Ek. destruct (HS m Hm) as [Hinm _].
      pose proof (look_unique (db w) m Hwf Hinm) as L.
      injection Ek as Ep Eg. rewrite Ep, Eg in L.
      unfold membership in F. congruence.
  - intros p g' Hne. rewrite Hkeep.
    + rewrite Hoth, Hm0; auto.
    + intros m Hm R [= _ Eg]. destruct (HS m Hm) as [_ Hgm]. congruence.
Qed.

(** ** Registering, when the store answers *)

Lemma addGroupToMonitored_spec g n w :
  calm w ->
  wp (GroupService.addGroupToMonitored g n)
     (fun _ w' =>
        calm w' /\
        monitoredGroupsCache w' = {[g]} ∪ monitoredGroupsCache w /\
        groups (db w') =
          Group.write g (registration n (clock (env w))) true
                      (S (clock (env w))) (groups (db w)) /\
        users (db w') = users (db w) /\ nextId (db w') = nextId (db w) /\
        socket (env w') = socket (env w) /\
        (exists entry, logs (out w') = entry :: logs (out w))) w.
Proof.
  intros Hc. set (c := Group_findOneAndUpdate g true).
  destruct (addGroupToMonitored_cases g n w)
    as (He & _ & _ & _ & Hl & Hu & Hn & [(_ & Hok & Hg & Hca)|(E & _)]).
  - unfold wp. destruct (GroupService.addGroupToMonitored g n w) as [r w'].
    simpl in *. subst r.
    destruct (storeCall_snd c w) as (_ & _ & _ & _ & _ & _ & _ & Hs & _).
    repeat split; auto.
    + unfold calm. rewrite He. now apply called_calm.
    + now rewrite He.
  - rewrite (proj1 (storeCall_calm _ w Hc)) in E. discriminate.
Qed.

Lemma find_registered g n t now gs :
  exists doc,
    List.find (Group.hasId g) (Group.write g (registration n t) true now gs)
      = Some doc /\
    IGroup.groupId doc = g /\ IGroup.isMonitored doc = true /\
    (forall x, n = Some x -> IGroup.name doc = Some x).
Proof.
  destruct (Group_write_register g n t now gs)
    as (l1 & d & l2 & -> & Hn & Hid & Hm & Hname & _).
  exists d. rewrite (find_middle _ _ _ _ Hn).
  now rewrite (proj2 (hasId_eq g d) Hid).
Qed.

Lemma wp_log l msg (Q : unit -> World -> Prop) w :
  Q tt (snd (log l msg w)) -> wp (log l msg) Q w.
Proof. auto. Qed.

(** A rename of a monitored group, when the store answers. *)
Lemma rename_monitored g n w :
  calm w -> g ∈ monitoredGroupsCache w ->
  truthy g = true -> truthy n = true ->
  GroupService.isTargetGroup (Some n) = false ->
  wp (WhatsAppController.handleGroupsUpdate
        [{| gu_id := Some g; gu_subject := Some n |}])
     (fun _ w' =>
        monitoredGroupsCache w' = monitoredGroupsCache w /\
        groups (db w') =
          Group.write g (registration (Some n) (clock (env w))) true
                      (S (clock (env w))) (groups (db w)) /\
        In {| level := WARN;
              text := "Group " +:+ g +:+ " renamed to '" +:+ n
                      +:+ "' which doesn't match target criteria anymore" |}
           (logs (out w'))) w.
Proof.
  intros Hc Hg Tg Tn Hk. unfold WhatsAppController.handleGroupsUpdate.
  cbn [forEach gu_id gu_subject]. rewrite Tg, Tn, Hk. cbn [negb].
  apply wp_bind, wp_bind. unfold GroupService.isMonitored at 1.
  apply wp_gets. rewrite (bool_decide_eq_true_2 _ Hg). cbn [when].
  apply wp_bind. unfold logger.info at 1. apply wp_log.
  apply wp_bind. unfold GroupService.isMonitored. apply wp_gets.
  cbn [log modify snd with_out monitoredGroupsCache].
  rewrite (bool_decide_eq_true_2 _ Hg).
  apply wp_bind.
  eapply wp_conseq; [apply addGroupToMonitored_spec; exact Hc|].
  intros [] w1 (Hc1 & Hca & Hgr & _).
  apply wp_bind. unfold logger.info. apply wp_log.
  unfold logger.warn. apply wp_log. apply wp_ret.
  split; [|split].
  - simpl. rewrite Hca. set_solver.
  - exact Hgr.
  - simpl. auto.
Qed.

(** C7. Monitoring is sticky.  Whatever event the socket emits, in
    whatever state and however the store and the server behave, the
    in-memory monitored set and the persisted monitored set afterwards
    contain what they contained before.  In particular a rename of a
    monitored group to a name without the keyword, when the store answers,
    returns normally, stores the new name in the group's document, logs the
    warning, and leaves the group in both sets. *)
Theorem monitoring_is_sticky :
  (forall e w,
     monitoredGroupsCache w ⊆ monitoredGroupsCache (snd (emit e w)) /\
     persisted (groups (db w)) ⊆ persisted (groups (db (snd (emit e w))))) /\
  (forall g n w,
     calm w -> g ∈ monitoredGroupsCache w ->
     truthy g = true -> truthy n = true ->
     GroupService.isTargetGroup (Some n) = false ->
     let renamed := groups_update [{| gu_id := Some g; gu_subject := Some n |}] in
     let w' := snd (emit renamed w) in
     fst (emit renamed w) = Ok tt /\
     (exists doc, List.find (Group.hasId g) (groups (db w')) = Some doc /\
                  IGroup.name doc = Some n /\ IGroup.isMonitored doc = true) /\
     In {| level := WARN;
           text := "Group " +:+ g +:+ " renamed to '" +:+ n
                   +:+ "' which doesn't match target criteria anymore" |}
        (logs (out w')) /\
     g ∈ monitoredGroupsCache w' /\
     g ∈ persisted (groups (db w'))).
Proof.
  split; [exact grows_emit|].
  intros g n w Hc Hg Tg Tn Hk renamed w'. subst w' renamed. cbn [emit].
  destruct (wp_elim _ _ _ (rename_monitored g n w Hc Hg Tg Tn Hk))
    as ([] & Hok & Hca & Hgr & Hlog).
  split; [exact Hok|].
  destruct (find_registered g (Some n) (clock (env w)) (S (clock (env w)))
              (groups (db w))) as (doc & Hf & Hid & Hm & Hname).
  rewrite <- Hgr in Hf.
  split; [exists doc; auto|]. split; [exact Hlog|].
  split; [now rewrite Hca|].
  apply elem_of_persisted. exists doc. apply find_some in Hf as [Hin _]. auto.
Qed.

Lemma monitoring_is_sticky_witness :
  let renamed := groups_update [{| gu_id := Some "1@g.us";
                                   gu_subject := Some "Old Friends" |}] in
  fst (emit renamed two_groups) = Ok tt /\
  "1@g.us" ∈ monitoredGroupsCache (snd (emit renamed two_groups)).
Proof.
  intros renamed.
  assert (Hin : "1@g.us" ∈ monitoredGroupsCache two_groups)
    by (apply (bool_decide_unpack _); vm_compute; exact I).
  destruct (proj2 monitoring_is_sticky "1@g.us" "Old Friends" two_groups
              eq_refl Hin eq_refl eq_refl eq_refl) as (H1 & _ & _ & H2 & _).
  split; assumption.
Defined.

(** ** Two reconciliations in a row *)

Lemma sync_run g ms w :
  calm w -> wf_db (db w) -> g ∈ monitoredGroupsCache w ->
  let w' := snd (GroupService.syncGroupMembers g ms w) in
  fst (GroupService.syncGroupMembers g ms w) = Ok tt /\
  stable w w' /\ reconciled g ms w w' /\
  exists cs, issued w w' cs /\ Forall (sync_call g ms (users (db w))) cs.
Proof.
  intros Hc Hwf Hg w'.
  destruct (wp_elim _ _ _ (syncGroupMembers_spec g ms w Hc Hwf Hg))
    as ([] & Hok & H).
  split; assumption.
Qed.

(** In a well-formed collection a record is the answer to the query of
    its own index. *)
Lemma membership_of_record w u :
  wf_db (db w) -> In u (users (db w)) ->
  membership (IUser.phoneNumber u) (IUser.groupId u) w = Some u.
Proof. intros Hwf Hin. now apply look_unique. Qed.

(** A record that is inactive and not on the roster is not written. *)
Lemma sync_skips_inactive g ms w u :
  calm w -> wf_db (db w) -> g ∈ monitoredGroupsCache w ->
  In u (users (db w)) -> IUser.groupId u = g ->
  IUser.isActive u = false -> ~ In (IUser.phoneNumber u) ms ->
  let w' := snd (GroupService.syncGroupMembers g ms w) in
  membership (IUser.phoneNumber u) g w' = Some u /\
  exists cs, issued w w' cs /\
    ~ In (User_findByIdAndUpdate (IUser._id u)) cs /\
    forall upsert, ~ In (User_findOneAndUpdate (IUser.phoneNumber u) g upsert) cs.
Proof.
  intros Hc Hwf Hg Hin <- Hina Hnot w'.
  destruct (sync_run _ ms w Hc Hwf Hg)
    as (_ & _ & (_ & Habsent & _) & cs & Hj & Hcs).
  fold w' in Habsent, Hj. split.
  - specialize (Habsent _ Hnot).
    now rewrite (membership_of_record w u Hwf Hin), Hina in Habsent.
  - exists cs. split; [assumption|].
    rewrite List.Forall_forall in Hcs. split.
    + intros Hc'. destruct (Hcs _ Hc') as [E|[(p & _ & E)|(m & Hm & _ & Ha & _ & E)]];
        try discriminate.
      injection E as E.
      assert (m = u)
        by (apply (NoDup_map_inj IUser._id (users (db w))); auto; apply Hwf).
      congruence.
    + intros up Hc'.
      destruct (Hcs _ Hc') as [E|[(p & Hp & E)|(m & _ & _ & _ & _ & E)]];
        try discriminate.
      injection E as E _. congruence.
Qed.

(** C1. Let [g] be monitored, the store answer and hold no membership
    record of [g], and [A] differ from [B] and [C].  After
    [syncGroupMembers(g, [A, B])] and then [syncGroupMembers(g, [B, C])],
    both of which return, [A] has an inactive record, [B] and [C] have
    active ones, every record of the collection is a record of [g] for
    [A], [B] or [C] or is a record the collection held before, unchanged,
    and all of those are still there; the group documents are untouched.
    Moreover, in any reconciliation, a record of the group that is already
    inactive and not on the roster is not written again: it is found as it
    was, and neither an update by its [_id] nor a write on its index is
    issued. *)
Theorem sync_twice_reconciles :
  (forall (g A B C : string) (w : World),
     g ∈ monitoredGroupsCache w -> calm w -> wf_db (db w) ->
     (forall p, membership p g w = None) ->
     A <> B -> A <> C ->
     let w1 := snd (GroupService.syncGroupMembers g [A; B] w) in
     let w2 := snd (GroupService.syncGroupMembers g [B; C] w1) in
     fst (GroupService.syncGroupMembers g [A; B] w) = Ok tt /\
     fst (GroupService.syncGroupMembers g [B; C] w1) = Ok tt /\
     (exists a, membership A g w2 = Some a /\ IUser.isActive a = false) /\
     (exists b, membership B g w2 = Some b /\ IUser.isActive b = true) /\
     (exists c, membership C g w2 = Some c /\ IUser.isActive c = true) /\
     (forall u, In u (users (db w2)) ->
        (IUser.groupId u = g /\ In (IUser.phoneNumber u) [A; B; C]) \/
        In u (users (db w))) /\
     (forall u, In u (users (db w)) -> In u (users (db w2))) /\
     groups (db w2) = groups (db w)) /\
  (forall (g : string) (ms : list string) (w : World) (u : IUser.t),
     g ∈ monitoredGroupsCache w -> calm w -> wf_db (db w) ->
     In u (users (db w)) -> IUser.groupId u = g ->
     IUser.isActive u = false -> ~ In (IUser.phoneNumber u) ms ->
     let w' := snd (GroupService.syncGroupMembers g ms w) in
     membership (IUser.phoneNumber u) g w' = Some u /\
     exists cs, issued w w' cs /\
       ~ In (User_findByIdAndUpdate (IUser._id u)) cs /\
       forall upsert,
         ~ In (User_findOneAndUpdate (IUser.phoneNumber u) g upsert) cs).
Proof.
  split; [|intros; now apply sync_skips_inactive].
  intros g A B C w Hg Hc Hwf Hempty HAB HAC w1 w2.
  destruct (sync_run g [A; B] w Hc Hwf Hg)
    as (Hok1 & S1 & (Hon1 & Hoff1 & Hout1) & _).
  fold w1 in S1, Hon1, Hoff1, Hout1.
  destruct S1 as (Hc1 & Hca1 & Hgr1 & _ & Hwf1 & _).
  assert (Hg1 : g ∈ monitoredGroupsCache w1) by now rewrite Hca1.
  destruct (sync_run g [B; C] w1 Hc1 Hwf1 Hg1)
    as (Hok2 & S2 & (Hon2 & Hoff2 & Hout2) & _).
  fold w2 in S2, Hon2, Hoff2, Hout2.
  destruct S2 as (Hc2 & Hca2 & Hgr2 & _ & Hwf2 & _).
  assert (Hnone : forall p, ~ In p [A; B; C] -> membership p g w2 = None).
  { intros p Hp.
    assert (Hp1 : ~ In p [A; B]) by (simpl in *; tauto).
    assert (Hp2 : ~ In p [B; C]) by (simpl in *; tauto).
    specialize (Hoff1 p Hp1). rewrite Hempty in Hoff1.
    specialize (Hoff2 p Hp2). now rewrite Hoff1 in Hoff2. }
  assert (Hother : forall p g', g' <> g ->
            membership p g' w2 = membership p g' w)
    by (intros; rewrite Hout2, Hout1; auto).
  split; [exact Hok1|]. split; [exact Hok2|]. split; [|split; [|split]].
  - destruct (Hon1 A) as (a & Ha & Hact); [simpl; auto|].
    assert (HA : ~ In A [B; C]) by (simpl; intuition congruence).
    specialize (Hoff2 A HA). rewrite Ha, Hact in Hoff2.
    destruct Hoff2 as (t & Ht). eexists. split; [exact Ht|reflexivity].
  - apply Hon2. simpl. auto.
  - apply Hon2. simpl. auto.
  - split; [|split; [|congruence]].
    + intros u Hu. pose proof (membership_of_record w2 u Hwf2 Hu) as Hm.
      destruct (String.string_dec (IUser.groupId u) g) as [Eg|Eg].
      * left. split; [assumption|].
        destruct (List.in_dec String.string_dec (IUser.phoneNumber u) [A; B; C])
          as [Hin|Hnin]; [assumption|].
        rewrite Eg, (Hnone _ Hnin) in Hm. discriminate.
      * right. rewrite (Hother _ _ Eg) in Hm.
        now apply membership_In in Hm.
    + intros u Hu. pose proof (membership_of_record w u Hwf Hu) as Hm.
      assert (Eg : IUser.groupId u <> g).
      { intros Eg. rewrite Eg, Hempty in Hm. discriminate. }
      rewrite <- (Hother _ _ Eg) in Hm. now apply membership_In in Hm.
Qed.

Lemma sync_twice_reconciles_witness :
  let w := two_groups in
  let w1 := snd (GroupService.syncGroupMembers "2@g.us" ["111"; "222"] w) in
  let w2 := snd (GroupService.syncGroupMembers "2@g.us" ["222"; "333"] w1) in
  exists a, membership "111" "2@g.us" w2 = Some a /\ IUser.isActive a = false.
Proof.
  intros w w1 w2.
  assert (Hg : "2@g.us" ∈ monitoredGroupsCache w)
    by (apply (bool_decide_unpack _); vm_compute; exact I).
  assert (Hwf : wf_db (db w)).
  { repeat split.
    - apply (bool_decide_unpack _). vm_compute. exact I.
    - apply (bool_decide_unpack _). vm_compute. exact I.
    - repeat constructor. }
  assert (Hempty : forall p, membership p "2@g.us" w = None).
  { intros p. unfold membership, look. simpl.
    unfold User.isMember, User.inGroup. simpl. now rewrite !andb_false_r. }
  refine (proj1 (proj2 (proj2
    (proj1 sync_twice_reconciles "2@g.us" "111" "222" "333" w
       Hg eq_refl Hwf Hempty _ _)))); discriminate.
Defined.

(** ** One command in a batch *)

Lemma forEach_app {X} (xs ys : list X) body w :
  forEach (xs ++ ys) body w = (forEach xs body ;; forEach ys body) w.
Proof.
  revert w. induction xs as [|x xs IH]; intros w.
  - cbn [app forEach]. unfold bind, ret. reflexivity.
  - cbn [app forEach]. unfold bind in *.
    destruct (body x w) as [[[]|e] w1]; [|reflexivity].
    apply IH.
Qed.

Lemma forEach_skip {X} (xs : list X) body :
  (forall x, In x xs -> forall w, body x w = (Ok tt, w)) ->
  forall w, forEach xs body w = (Ok tt, w).
Proof.
  induction xs as [|x xs IH]; intros H w; [reflexivity|].
  cbn [forEach]. unfold bind. rewrite (H x (or_introl eq_refl)).
  apply IH. intros y Hy. apply H. now right.
Qed.

(** An element between elements that do nothing. *)
Lemma forEach_among {X} (pre post : list X) x body w :
  (forall y, In y pre -> forall w, body y w = (Ok tt, w)) ->
  (forall y, In y post -> forall w, body y w = (Ok tt, w)) ->
  forEach (pre ++ x :: post) body w = forEach [x] body w.
Proof.
  intros Hpre Hpost. rewrite forEach_app. unfold bind at 1.
  rewrite (forEach_skip pre body Hpre). cbn [forEach]. unfold bind.
  destruct (body x w) as [[[]|e] w1]; [|reflexivity].
  now rewrite (forEach_skip post body Hpost).
Qed.

(** A command between messages that are not commands. *)
Lemma command_among_others pre msg post w :
  Forall (fun m => isCommand m = false) pre ->
  Forall (fun m => isCommand m = false) post ->
  WhatsAppController.handleMessagesUpsert (pre ++ msg :: post) w =
  WhatsAppController.handleMessagesUpsert [msg] w.
Proof.
  intros Hpre Hpost. rewrite List.Forall_forall in Hpre, Hpost.
  unfold WhatsAppController.handleMessagesUpsert.
  apply forEach_among; intros m Hm w0;
    [pose proof (Hpre m Hm) as H|pose proof (Hpost m Hm) as H];
    revert H; unfold isCommand;
    (destruct (message m) as [body|]; [|reflexivity]);
    (destruct (remoteJid m) as [jid|]; [|reflexivity]);
    (destruct (truthy jid); [|reflexivity]); cbv zeta;
    (destruct (fromMe m); [|reflexivity]);
    (destruct (String.eqb (textOf body) "check"); [discriminate|]);
    (destruct (isJidGroup jid); [|now rewrite !andb_false_r]);
    (destruct (String.eqb (textOf body) "Hi!"); [discriminate|]);
    (destruct (String.eqb (textOf body) "sync"); [discriminate|]);
    reflexivity.
Qed.

(** ** The [sync] command *)

Lemma getGroupMetadata_spec g sock r md w :
  socket (env w) = Some sock -> remote sock = Some r -> assoc g r = Some md ->
  WhatsAppClient.getGroupMetadata g w = (Ok (Some md), w).
Proof.
  intros Hs Hr Ha.
  unfold WhatsAppClient.getGroupMetadata, WhatsAppClient.getSocket,
    WhatsAppClient.groupMetadata, bind, gets, tryCatch.
  rewrite Hs, Hr, Ha. reflexivity.
Qed.

Lemma isJidGroup_truthy jid : isJidGroup jid = true -> truthy jid = true.
Proof. destruct jid; [discriminate|reflexivity]. Qed.

Lemma registration_preserves_wf w w' :
  users (db w') = users (db w) -> nextId (db w') = nextId (db w) ->
  wf_db (db w) -> wf_db (db w').
Proof. intros Hu Hn. apply wf_db_idkeys; [now rewrite Hu|assumption]. Qed.

(** [handleSyncCommand], when the server and the store answer: the group
    is registered under its name, whatever that name is, and its roster is
    reconciled. *)
Lemma handleSyncCommand_spec jid sock r md w :
  calm w -> wf_db (db w) ->
  socket (env w) = Some sock -> remote sock = Some r -> assoc jid r = Some md ->
  wp (WhatsAppController.handleSyncCommand jid)
     (fun _ w' =>
        calm w' /\
        monitoredGroupsCache w' = {[jid]} ∪ monitoredGroupsCache w /\
        (exists t now,
           groups (db w') =
           Group.write jid (registration (Some (subject md)) t) true now
                       (groups (db w))) /\
        reconciled jid (participants md) w w') w.
Proof.
  intros Hc Hwf Hs Hr Ha. unfold WhatsAppController.handleSyncCommand.
  apply wp_tryCatch, wp_bind.
  unfold wp at 1. rewrite (getGroupMetadata_spec jid sock r md w Hs Hr Ha).
  cbv zeta. apply wp_bind. unfold logger.info at 1. apply wp_log.
  apply wp_bind.
  eapply wp_conseq; [apply addGroupToMonitored_spec; exact Hc|].
  intros [] w1 (Hc1 & Hca1 & Hgr1 & Hu1 & Hn1 & _).
  cbn [log modify snd with_out env clock] in Hgr1.
  apply wp_bind. unfold logger.info at 1. apply wp_log.
  apply wp_bind.
  eapply wp_conseq.
  { apply (syncGroupMembers_spec jid (participants md)); [exact Hc1| |].
    - apply (registration_preserves_wf w); assumption.
    - change (jid ∈ monitoredGroupsCache w1). rewrite Hca1. set_solver. }
  intros [] w2 ((Hc2 & Hca2 & Hgr2 & _) & Hrec & _).
  unfold logger.success. apply wp_log.
  split; [exact Hc2|]. split; [|split].
  - change (monitoredGroupsCache w2 = {[jid]} ∪ monitoredGroupsCache w).
    now rewrite Hca2.
  - exists (clock (env w)), (S (clock (env w))).
    change (groups (db w2) = Group.write jid
              (registration (Some (subject md)) (clock (env w))) true
              (S (clock (env w))) (groups (db w))).
    now rewrite Hgr2.
  - assert (Hm : forall p g, membership p g w1 = membership p g w)
      by (intros; unfold membership; now rewrite Hu1).
    destruct Hrec as (R1 & R2 & R3). split; [|split].
    + exact R1.
    + intros p Hp. specialize (R2 p Hp).
      change (membership p jid (snd (log INFO _ w1))) with (membership p jid w1)
        in R2.
      rewrite Hm in R2. exact R2.
    + intros p g' Hne. rewrite <- Hm. now apply R3.
Qed.

Lemma sync_message_spec msg body jid sock r md w :
  message msg = Some body -> remoteJid msg = Some jid -> fromMe msg = true ->
  textOf body = "sync" -> isJidGroup jid = true ->
  calm w -> wf_db (db w) ->
  socket (env w) = Some sock -> remote sock = Some r -> assoc jid r = Some md ->
  wp (WhatsAppController.handleMessagesUpsert [msg])
     (fun _ w' =>
        calm w' /\
        monitoredGroupsCache w' = {[jid]} ∪ monitoredGroupsCache w /\
        (exists t now,
           groups (db w') =
           Group.write jid (registration (Some (subject md)) t) true now
                       (groups (db w))) /\
        reconciled jid (participants md) w w') w.
Proof.
  intros Hmsg Hjid Hme Htext Hgroup Hc Hwf Hs Hr Ha.
  unfold WhatsAppController.handleMessagesUpsert. cbn [forEach].
  rewrite Hmsg, Hjid, (isJidGroup_truthy jid Hgroup). cbn [negb]. cbv zeta.
  rewrite Htext, Hme, Hgroup.
  change (String.eqb "sync" "Hi!") with false.
  change (String.eqb "sync" "sync") with true.
  change (String.eqb "sync" "check") with false.
  cbn [andb when].
  apply wp_bind, wp_bind, wp_ret, wp_bind, wp_bind.
  unfold logger.info. apply wp_log.
  eapply wp_conseq.
  { apply (handleSyncCommand_spec jid sock r md); [exact Hc|exact Hwf|..];
      eassumption. }
  intros [] w1 H. apply wp_ret, wp_ret. exact H.
Qed.

Lemma In_length_pos {A} (x : A) l : In x l -> (1 <= Z.of_nat (length l))%Z.
Proof. destruct l; simpl; [tauto|lia]. Qed.

(** C5. A message of the account itself whose text is exactly "sync",
    sent in a group, alone or among messages that are not commands, makes
    the router register that group with [isMonitored = true] under its
    name, whatever the name is (the keyword predicate is not consulted),
    and reconcile the full roster: every listed identifier has an active
    record, an unlisted active record of the group has [isActive = false],
    an unlisted inactive one is as it was, other groups are untouched; this
    when the server answers the metadata query and the store answers.  If
    the name lacks the keyword, the status report then lists the group with
    [containsTargetKeyword = false] and counts it as force-monitored. *)
Theorem sync_command_force_monitors
    (pre post : list WAMessage)
    (msg : WAMessage) (body : MessageBody) (jid : string)
    (sock : Socket) (r : list (string * GroupMetadata)) (md : GroupMetadata)
    (w : World) :
  Forall (fun m => isCommand m = false) pre ->
  Forall (fun m => isCommand m = false) post ->
  message msg = Some body -> remoteJid msg = Some jid -> fromMe msg = true ->
  textOf body = "sync" -> isJidGroup jid = true ->
  calm w -> wf_db (db w) ->
  socket (env w) = Some sock -> remote sock = Some r -> assoc jid r = Some md ->
  let batch := messages_upsert (pre ++ msg :: post) in
  let w' := snd (emit batch w) in
  fst (emit batch w) = Ok tt /\
  jid ∈ monitoredGroupsCache w' /\
  (exists doc, List.find (Group.hasId jid) (groups (db w')) = Some doc /\
               IGroup.isMonitored doc = true /\
               IGroup.name doc = Some (subject md)) /\
  reconciled jid (participants md) w w' /\
  (GroupService.isTargetGroup (Some (subject md)) = false ->
   exists st detail,
     fst (GroupService.getDatabaseStatus w') = Ok st /\
     In detail (groupDetails st) /\ gd_id detail = jid /\
     containsTargetKeyword detail = false /\
     (1 <= forceMonitoredGroups st)%Z).
Proof.
  intros Hpre Hpost Hmsg Hjid Hme Htext Hgroup Hc Hwf Hs Hr Ha batch w'.
  subst w' batch. cbn [emit].
  rewrite (command_among_others pre msg post w Hpre Hpost).
  destruct (wp_elim _ _ _
    (sync_message_spec msg body jid sock r md w
       Hmsg Hjid Hme Htext Hgroup Hc Hwf Hs Hr Ha))
    as ([] & Hok & Hc' & Hca & (t & now & Hgr) & Hrec).
  set (w' := snd (WhatsAppController.handleMessagesUpsert [msg] w)) in *.
  destruct (find_registered jid (Some (subject md)) t now (groups (db w)))
    as (doc & Hf & Hid & Hm & Hname).
  rewrite <- Hgr in Hf. specialize (Hname _ eq_refl).
  split; [exact Hok|]. split; [rewrite Hca; set_solver|].
  split; [exists doc; auto|]. split; [exact Hrec|].
  intros Hk. exists (status_of (db w')), (report_for (users (db w')) doc).
  assert (Hdoc : In doc (List.filter IGroup.isMonitored (groups (db w')))).
  { apply filter_In. apply find_some in Hf as [Hin _]. auto. }
  assert (Hno : containsTargetKeyword (report_for (users (db w')) doc) = false).
  { unfold report_for. simpl. rewrite Hname. simpl.
    destruct (truthy (subject md)); [exact Hk|reflexivity]. }
  split; [now apply getDatabaseStatus_calm|].
  split; [unfold status_of; simpl; now apply in_map|].
  split; [exact Hid|]. split; [exact Hno|].
  unfold status_of. simpl.
  apply (In_length_pos (report_for (users (db w')) doc)).
  apply filter_In. split; [now apply in_map|]. now rewrite Hno.
Qed.

Lemma sync_command_force_monitors_witness :
  let shouted := {| message := Some {| conversation := Some "SYNC";
                                       extendedText := None |};
                    remoteJid := Some "9@g.us"; fromMe := true |} in
  let msg := {| message := Some {| conversation := Some "sync";
                                   extendedText := None |};
                remoteJid := Some "9@g.us"; fromMe := true |} in
  let md := {| subject := "Random Chat"; participants := ["111"; "222"] |} in
  let w := with_env (fun e => {| clock := clock e; faults := faults e;
                                 socket := Some {| user := None;
                                   remote := Some [("9@g.us", md)] |} |})
                    two_groups in
  "9@g.us" ∈ monitoredGroupsCache
    (snd (emit (messages_upsert ([shouted] ++ msg :: [])) w)).
Proof.
  intros shouted msg md w.
  assert (Hwf : wf_db (db w)).
  { repeat split.
    - apply (bool_decide_unpack _). vm_compute. exact I.
    - apply (bool_decide_unpack _). vm_compute. exact I.
    - repeat constructor. }
  assert (Hpre : Forall (fun m => isCommand m = false) [shouted])
    by (repeat constructor).
  assert (Hpost : Forall (fun m => isCommand m = false) [])
    by constructor.
  exact (proj1 (proj2
    (sync_command_force_monitors [shouted] [] msg _ "9@g.us" _ _ md w
       Hpre Hpost
       eq_refl eq_refl eq_refl eq_refl eq_refl eq_refl Hwf
       eq_refl eq_refl eq_refl))).
Defined.

Lemma handleMembersRemoved_unseen_witness :
  db (snd (GroupService.handleMembersRemoved "2@g.us" ["999"] store_down))
  = db store_down.
Proof.
  assert (Hg : "2@g.us" ∈ monitoredGroupsCache store_down)
    by (apply (bool_decide_unpack _); vm_compute; exact I).
  refine (proj1 (handleMembersRemoved_unseen_creates_nothing
                   "2@g.us" "999" store_down Hg eq_refl
                   GroupService.handleMembersRemoved _)).
  simpl. auto.
Defined.

(** * Further properties of the code *)

(** ** Listeners that contain every failure *)

(** X1. Whatever messages arrive and however the store and the server
    behave, the [messages.upsert] listener returns normally: the three
    command handlers catch every error of the calls they make. *)
Theorem messages_listener_contains_errors (ms : list WAMessage) (w : World) :
  fst (emit (messages_upsert ms) w) = Ok tt.
Proof.
  destruct (Safe_handleMessagesUpsert ms w) as [[] H]. exact H.
Qed.

(** X2. The [connection.update] listener returns normally for every
    update: the scan of the groups at connection-open catches its errors,
    and the reconnection logic calls nothing that can reject. *)
Theorem connection_listener_contains_errors (u : ConnectionUpdate) (w : World) :
  fst (emit (connection_update u) w) = Ok tt.
Proof.
  destruct (Safe_connection_update u w) as [[] H]. exact H.
Qed.

(** ** Metadata queries *)

Lemma only_logged_refl w : only_logged w w.
Proof. repeat split. Qed.

Lemma getGroupMetadata_run g w :
  fst (WhatsAppClient.getGroupMetadata g w) = Ok (metadataOf w g) /\
  match metadataOf w g with
  | Some _ => snd (WhatsAppClient.getGroupMetadata g w) = w
  | None =>
      only_logged w (snd (WhatsAppClient.getGroupMetadata g w)) /\
      exists msg,
        logs (out (snd (WhatsAppClient.getGroupMetadata g w)))
        = {| level := ERROR; text := msg |} :: logs (out w)
  end.
Proof.
  unfold metadataOf, WhatsAppClient.getGroupMetadata, WhatsAppClient.getSocket,
    WhatsAppClient.groupMetadata, bind, gets, tryCatch.
  destruct (socket (env w)) as [sock|]; simpl.
  - destruct (remote sock) as [r|]; simpl.
    + destruct (assoc g r); simpl; repeat split; eauto.
    + repeat split; eauto.
  - repeat split; eauto.
Qed.

(** X3. [getGroupMetadata] never throws.  It answers the metadata when
    there is a socket, the server is reachable and knows the group, and
    then it leaves the state exactly as it was; otherwise it answers
    [null] after logging one error, and nothing but the log has moved. *)
Theorem getGroupMetadata_answers (g : string) (w : World) :
  fst (WhatsAppClient.getGroupMetadata g w) = Ok (metadataOf w g) /\
  match metadataOf w g with
  | Some _ => snd (WhatsAppClient.getGroupMetadata g w) = w
  | None =>
      only_logged w (snd (WhatsAppClient.getGroupMetadata g w)) /\
      exists msg,
        logs (out (snd (WhatsAppClient.getGroupMetadata g w)))
        = {| level := ERROR; text := msg |} :: logs (out w)
  end.
Proof. exact (getGroupMetadata_run g w). Qed.

(** ** Messages that are not commands *)

Lemma ignored_message msg w :
  isCommand msg = false ->
  WhatsAppController.handleMessagesUpsert [msg] w = (Ok tt, w).
Proof.
  unfold isCommand, WhatsAppController.handleMessagesUpsert. cbn [forEach].
  destruct (message msg) as [body|]; [|reflexivity].
  destruct (remoteJid msg) as [jid|]; [|reflexivity].
  destruct (truthy jid); [|reflexivity]. cbv zeta.
  destruct (fromMe msg); [|reflexivity].
  destruct (String.eqb (textOf body) "check"); [discriminate|].
  destruct (isJidGroup jid);
    [|now rewrite !andb_false_r].
  destruct (String.eqb (textOf body) "Hi!"); [discriminate|].
  destruct (String.eqb (textOf body) "sync"); [discriminate|].
  reflexivity.
Qed.

(** X4. A message that is not one of the three commands (no content, no
    chat, written by someone else, any other text, also one that differs
    only in letter case, or [Hi!] and [sync] outside a group) leaves no
    trace at all: no store call, no log line, the state is the same. *)
Theorem non_commands_are_ignored (ms : list WAMessage) (w : World) :
  Forall (fun msg => isCommand msg = false) ms ->
  emit (messages_upsert ms) w = (Ok tt, w).
Proof.
  unfold emit, WhatsAppController.handleMessagesUpsert.
  induction 1 as [|msg ms Hmsg _ IH]; [reflexivity|].
  pose proof (ignored_message msg w Hmsg) as H.
  unfold WhatsAppController.handleMessagesUpsert in H.
  cbn [forEach] in *. unfold bind at 1 in H. unfold bind at 1.
  match type of H with
  | (let (_, _) := ?b in _) = _ => destruct b as [[[]|e] w1]
  end; [|discriminate].
  unfold ret in H. injection H as ->. exact IH.
Qed.

Lemma non_commands_are_ignored_witness :
  let shouted := {| message := Some {| conversation := Some "SYNC";
                                       extendedText := None |};
                    remoteJid := Some "1@g.us"; fromMe := true |} in
  let foreign := {| message := Some {| conversation := Some "sync";
                                       extendedText := None |};
                    remoteJid := Some "1@g.us"; fromMe := false |} in
  emit (messages_upsert [shouted; foreign]) store_down = (Ok tt, store_down).
Proof.
  intros shouted foreign. apply non_commands_are_ignored.
  repeat constructor.
Defined.

(** ** All or nothing on the group collection *)

Lemma storeCall_next c w :
  storeCall c w =
  ((if nextRejects w then Throw (StoreError c) else Ok tt), called c w).
Proof.
  unfold nextRejects, called, storeCall.
  destruct (faults (env w)) as [|[] fs]; reflexivity.
Qed.

(** X5. [loadMonitoredGroups] never touches the store.  When the store
    answers, the cache becomes exactly the set of the groups persisted with
    [isMonitored = true]; when it rejects, the error is logged and thrown on
    and the cache is what it was. *)
Theorem loadMonitoredGroups_outcome (w : World) :
  let w' := snd (GroupService.loadMonitoredGroups w) in
  db w' = db w /\
  if nextRejects w
  then fst (GroupService.loadMonitoredGroups w) = Throw (StoreError Group_find) /\
       monitoredGroupsCache w' = monitoredGroupsCache w /\
       exists msg, logs (out w')
                   = {| level := ERROR; text := msg |} :: logs (out w)
  else fst (GroupService.loadMonitoredGroups w) = Ok tt /\
       monitoredGroupsCache w' = persisted (groups (db w)).
Proof.
  intros w'. subst w'.
  destruct (storeCall_snd Group_find w) as (Hdb & Hc & _ & Hl & _).
  unfold GroupService.loadMonitoredGroups, Group.find, tryCatch, bind, gets,
    modify, logger.info, logger.error, log, throw.
  rewrite storeCall_next. destruct (nextRejects w); simpl.
  - rewrite Hdb, Hc, Hl. repeat split; eauto.
  - rewrite Hdb. repeat split; eauto.
Qed.

(** X6. [addGroupToMonitored] is all or nothing.  When the store rejects
    the upsert, the error is logged and thrown on, and neither the
    collections nor the cache have changed; when it answers, the document
    is written and the group is in the cache.  Either way exactly one store
    call is issued and the membership records are untouched. *)
Theorem addGroupToMonitored_outcome
    (g : string) (n : option string) (w : World) :
  let w' := snd (GroupService.addGroupToMonitored g n w) in
  issued w w' [Group_findOneAndUpdate g true] /\
  users (db w') = users (db w) /\
  if nextRejects w
  then fst (GroupService.addGroupToMonitored g n w)
         = Throw (StoreError (Group_findOneAndUpdate g true)) /\
       db w' = db w /\
       monitoredGroupsCache w' = monitoredGroupsCache w
  else fst (GroupService.addGroupToMonitored g n w) = Ok tt /\
       monitoredGroupsCache w' = {[g]} ∪ monitoredGroupsCache w /\
       g ∈ persisted (groups (db w')).
Proof.
  intros w'. subst w'.
  destruct (addGroupToMonitored_cases g n w)
    as (_ & _ & Hj & _ & _ & Hu & Hn & H).
  split; [exact Hj|]. split; [exact Hu|].
  rewrite storeCall_next in H.
  destruct (nextRejects w);
    destruct H as [(E & Hok & Hg & Hc)|(E & Hok & Hg & Hc)]; try discriminate.
  - repeat split; auto.
    destruct (db (snd (GroupService.addGroupToMonitored g n w))) as [gs us ni].
    destruct (db w). simpl in *. congruence.
  - repeat split; auto. rewrite Hg. unfold registration.
    rewrite persisted_register. set_solver.
Qed.

Lemma persisted_none g gs :
  List.find (Group.hasId g) gs = None -> g ∉ persisted gs.
Proof.
  intros F Hg. apply elem_of_persisted in Hg as (d & Hin & Hid & _).
  apply (find_none _ _ F) in Hin. apply hasId_eq in Hid. congruence.
Qed.

Lemma Group_write_ids g p now gs :
  map IGroup.groupId (Group.write g p false now gs) = map IGroup.groupId gs.
Proof.
  unfold Group.write.
  destruct (List.find (Group.hasId g) gs) as [x|] eqn:F.
  - destruct (updateFirst_Some _ (Group.apply p) _ _ F)
      as (l1 & l2 & -> & _ & _ & ->).
    rewrite !map_app. reflexivity.
  - now rewrite (updateFirst_None _ _ _ F).
Qed.

Lemma persisted_unregister_unique g now gs :
  NoDup (map IGroup.groupId gs) ->
  persisted (Group.write g unregistration false now gs) = persisted gs ∖ {[g]}.
Proof.
  intros Hnd. unfold Group.write.
  destruct (List.find (Group.hasId g) gs) as [x|] eqn:F.
  - destruct (updateFirst_Some _ (Group.apply unregistration) _ _ F)
      as (l1 & l2 & -> & Hn & Px & ->).
    apply hasId_eq in Px.
    assert (H1 : g ∉ persisted l1) by now apply persisted_none.
    assert (H2 : g ∉ persisted l2).
    { intros Hg. apply elem_of_persisted in Hg as (d & Hin & Hid & _).
      rewrite map_app in Hnd. apply NoDup_app in Hnd as (_ & _ & Hnd).
      simpl in Hnd. apply NoDup_cons in Hnd as [Hx _]. apply Hx.
      rewrite Px, <- Hid. apply list_elem_of_In. now apply in_map. }
    rewrite !persisted_app, !persisted_cons. simpl. rewrite Px.
    destruct (IGroup.isMonitored x); set_solver.
  - rewrite (updateFirst_None _ _ _ F).
    pose proof (persisted_none g gs F). set_solver.
Qed.

(** X7. [removeGroupFromMonitored], when the store answers: the group
    leaves the cache, its document (if there is one) is updated, never
    created, so the collection holds the same group ids; every other group
    stays persisted as it was, and with unique group ids the persisted
    monitored set loses exactly this group.  Membership records are kept. *)
Theorem removeGroupFromMonitored_effect (g : string) (w : World) :
  nextRejects w = false ->
  let w' := snd (GroupService.removeGroupFromMonitored g w) in
  fst (GroupService.removeGroupFromMonitored g w) = Ok tt /\
  monitoredGroupsCache w' = monitoredGroupsCache w ∖ {[g]} /\
  map IGroup.groupId (groups (db w')) = map IGroup.groupId (groups (db w)) /\
  users (db w') = users (db w) /\
  persisted (groups (db w)) ∖ {[g]} ⊆ persisted (groups (db w')) /\
  (NoDup (map IGroup.groupId (groups (db w))) ->
   persisted (groups (db w')) = persisted (groups (db w)) ∖ {[g]}).
Proof.
  intros Hnext w'. subst w'.
  set (c := Group_findOneAndUpdate g false).
  destruct (storeCall_snd c w) as (Hdb & Hc & _ & _ & _ & _ & Hclock & _).
  unfold GroupService.removeGroupFromMonitored, GroupService.isMonitored,
    Group.findOneAndUpdate, newDate, tryCatch, bind, gets, modify, when,
    logger.info, logger.error, log, throw.
  fold c. rewrite storeCall_next, Hnext. simpl. rewrite Hc.
  fold unregistration.
  destruct (bool_decide (g ∈ monitoredGroupsCache w)) eqn:B; simpl;
    rewrite ?Hc, ?Hdb.
  - repeat split; auto using Group_write_ids, persisted_unregister,
      persisted_unregister_unique.
  - apply bool_decide_eq_false_1 in B.
    repeat split; auto using Group_write_ids, persisted_unregister,
      persisted_unregister_unique.
    set_solver.
Qed.

Lemma removeGroupFromMonitored_effect_witness :
  "1@g.us" ∉ monitoredGroupsCache
              (snd (GroupService.removeGroupFromMonitored "1@g.us" two_groups)).
Proof.
  destruct (removeGroupFromMonitored_effect "1@g.us" two_groups eq_refl)
    as (_ & -> & _).
  set_solver.
Defined.

(** ** The totals of the status report *)

Lemma filter_partition_length {A} (P : A -> bool) l :
  length (List.filter P l) + length (List.filter (fun x => negb (P x)) l)
  = length l.
Proof.
  induction l as [|x l IH]; simpl; [reflexivity|].
  destruct (P x); simpl; lia.
Qed.

Lemma filter_length_le' {A} (P : A -> bool) l :
  length (List.filter P l) <= length l.
Proof.
  induction l as [|x l IH]; simpl; [lia|]. destruct (P x); simpl; lia.
Qed.

(** X8. In a report that [getDatabaseStatus] returns, every monitored
    group is counted once, either as keyword match or as force-monitored:
    [totalGroups = targetGroups + forceMonitoredGroups], which is also the
    number of detail blocks; and in every block
    [0 <= activeMembers <= totalMembers] and [inactiveMembers >= 0]. *)
Theorem status_report_totals (w : World) (st : IDatabaseStatus) :
  calm w ->
  fst (GroupService.getDatabaseStatus w) = Ok st ->
  totalGroups st = (targetGroups st + forceMonitoredGroups st)%Z /\
  totalGroups st = Z.of_nat (length (groupDetails st)) /\
  forall detail, In detail (groupDetails st) ->
    (0 <= activeMembers detail <= totalMembers detail)%Z /\
    (0 <= inactiveMembers detail)%Z /\
    (activeMembers detail + inactiveMembers detail = totalMembers detail)%Z.
Proof.
  intros Hc Hst. rewrite (getDatabaseStatus_calm w Hc) in Hst.
  injection Hst as <-. unfold status_of. simpl.
  set (ds := map (report_for (users (db w)))
                 (List.filter IGroup.isMonitored (groups (db w)))).
  split; [|split].
  - rewrite <- Nat2Z.inj_add, filter_partition_length.
    unfold ds. now rewrite length_map.
  - unfold ds. now rewrite length_map.
  - intros detail Hin. unfold ds in Hin.
    apply in_map_iff in Hin as (group & <- & _). unfold report_for. simpl.
    pose proof (filter_length_le' IUser.isActive
      (List.filter (User.inGroup (IGroup.groupId group)) (users (db w)))).
    lia.
Qed.

Lemma status_report_totals_witness :
  exists st, fst (GroupService.getDatabaseStatus two_groups) = Ok st /\
             totalGroups st = (targetGroups st + forceMonitoredGroups st)%Z.
Proof.
  eexists. split; [reflexivity|].
  refine (proj1 (status_report_totals two_groups _ eq_refl eq_refl)).
Defined.

(** ** Participant events that change nothing *)

(** X9. A [promote] or [demote] event of a monitored group writes one
    log line and nothing else: no store call, the collections and the cache
    as they were; admin changes are not recorded. *)
Theorem admin_changes_are_not_recorded (u : ParticipantsUpdate) (w : World) :
  pu_id u ∈ monitoredGroupsCache w ->
  pu_action u = promote \/ pu_action u = demote ->
  fst (WhatsAppController.handleGroupParticipantsUpdate u w) = Ok tt /\
  only_logged w (snd (WhatsAppController.handleGroupParticipantsUpdate u w)).
Proof.
  intros Hg Ha. unfold WhatsAppController.handleGroupParticipantsUpdate.
  cbv zeta. rewrite (bind_Ok _ _ _ _ _ (isMonitored_run _ w)).
  rewrite (bool_decide_eq_true_2 _ Hg). change (negb true) with false.
  cbv iota. unfold WhatsAppController.applyAction.
  destruct Ha as [-> | ->]; repeat split.
Qed.

Lemma admin_changes_are_not_recorded_witness :
  db (snd (WhatsAppController.handleGroupParticipantsUpdate
             {| pu_id := "1@g.us"; pu_participants := ["111"];
                pu_action := promote |} store_down)) = db store_down.
Proof.
  assert (Hg : "1@g.us" ∈ monitoredGroupsCache store_down)
    by (apply (bool_decide_unpack _); vm_compute; exact I).
  exact (proj1 (proj2 (admin_changes_are_not_recorded
    {| pu_id := "1@g.us"; pu_participants := ["111"]; pu_action := promote |}
    store_down Hg (or_introl eq_refl)))).
Defined.

Lemma only_logged_log l msg w : only_logged w (snd (log l msg w)).
Proof. repeat split. Qed.

Lemma only_logged_trans a b c :
  only_logged a b -> only_logged b c -> only_logged a c.
Proof.
  intros (H1 & H2 & H3 & H4 & H5 & H6) (G1 & G2 & G3 & G4 & G5 & G6).
  unfold only_logged. repeat split; congruence.
Qed.

(** What the lookup leaves behind, in one equation. *)
Lemma getGroupMetadata_eq g w :
  exists w1, WhatsAppClient.getGroupMetadata g w = (Ok (metadataOf w g), w1) /\
             only_logged w w1.
Proof.
  destruct (getGroupMetadata_run g w) as [Hf Hs].
  exists (snd (WhatsAppClient.getGroupMetadata g w)). split.
  - rewrite <- Hf. now destruct (WhatsAppClient.getGroupMetadata g w).
  - destruct (metadataOf w g); [rewrite Hs; apply only_logged_refl|apply Hs].
Qed.

(** X10. A participant event of a group that is not monitored and whose
    name does not carry the keyword, or whose metadata cannot be fetched,
    is dropped: the handler returns normally, issues no store call and
    leaves the collections and the cache as they were, whatever the
    action. *)
Theorem foreign_group_activity_is_skipped (u : ParticipantsUpdate) (w : World) :
  pu_id u ∉ monitoredGroupsCache w ->
  match metadataOf w (pu_id u) with
  | Some md => GroupService.isTargetGroup (Some (subject md)) = false
  | None => True
  end ->
  fst (emit (group_participants_update u) w) = Ok tt /\
  only_logged w (snd (emit (group_participants_update u) w)).
Proof.
  intros Hg Hmd. cbn [emit].
  unfold WhatsAppController.handleGroupParticipantsUpdate.
  cbv zeta. rewrite (bind_Ok _ _ _ _ _ (isMonitored_run _ w)).
  rewrite (bool_decide_eq_false_2 _ Hg). change (negb false) with true.
  cbv iota.
  destruct (getGroupMetadata_eq (pu_id u) w) as (w1 & E & L).
  unfold tryCatch. rewrite (bind_Ok _ _ _ _ _ E).
  destruct (metadataOf w (pu_id u)) as [md|]; cbv beta iota zeta.
  - rewrite Hmd. split; [reflexivity|].
    exact (only_logged_trans _ _ _ L (only_logged_log _ _ w1)).
  - split; [reflexivity|exact L].
Qed.

Lemma foreign_group_activity_is_skipped_witness :
  db (snd (emit (group_participants_update
                   {| pu_id := "7@g.us"; pu_participants := ["111"];
                      pu_action := add |}) store_down)) = db store_down.
Proof.
  assert (Hg : "7@g.us" ∉ monitoredGroupsCache store_down)
    by (vm_compute; set_solver).
  exact (proj1 (proj2 (foreign_group_activity_is_skipped
    {| pu_id := "7@g.us"; pu_participants := ["111"]; pu_action := add |}
    store_down Hg I))).
Defined.

(** ** New groups without the keyword *)

#[local] Instance only_logged_preorder : PreOrder only_logged.
Proof.
  split; [exact only_logged_refl|exact only_logged_trans].
Qed.

Lemma forEach_all {X} (R : World -> World -> Prop) `{!PreOrder R}
    (xs : list X) body :
  (forall x, In x xs ->
     forall w, fst (body x w) = Ok tt /\ R w (snd (body x w))) ->
  forall w, fst (forEach xs body w) = Ok tt /\ R w (snd (forEach xs body w)).
Proof.
  induction xs as [|x xs IH]; intros H w; cbn [forEach].
  - split; reflexivity.
  - destruct (H x (or_introl eq_refl) w) as [Hok HR]. unfold bind.
    destruct (body x w) as [r w1]. simpl in Hok, HR. subst r.
    destruct (IH (fun y Hy => H y (or_intror Hy)) w1) as [Hok' HR'].
    split; [exact Hok'|]. etransitivity; eassumption.
Qed.

(** X11. Being added to groups whose names do not carry the keyword (or
    have no name) registers nothing: the listener returns normally, issues
    no store call and leaves the collections and the cache as they were. *)
Theorem new_groups_without_keyword_are_skipped
    (gs : list NewGroup) (w : World) :
  Forall (fun group => GroupService.isTargetGroup (ng_subject group) = false) gs ->
  fst (emit (groups_upsert gs) w) = Ok tt /\
  only_logged w (snd (emit (groups_upsert gs) w)).
Proof.
  cbn [emit]. unfold WhatsAppController.handleGroupsUpsert.
  intros H. apply forEach_all; [exact _|].
  intros group Hin w0. rewrite List.Forall_forall in H.
  rewrite (H group Hin). repeat split.
Qed.

Lemma new_groups_without_keyword_are_skipped_witness :
  db (snd (emit (groups_upsert
                   [{| ng_id := "7@g.us"; ng_subject := Some "Book club";
                       ng_participants := Some ["111"] |};
                    {| ng_id := "8@g.us"; ng_subject := None;
                       ng_participants := None |}]) store_down))
  = db store_down.
Proof.
  refine (proj1 (proj2 (new_groups_without_keyword_are_skipped _ store_down _))).
  repeat constructor.
Defined.

(** ** Incremental removals *)

Lemma Forall2_diag {A} (P : A -> A -> Prop) l :
  (forall x, P x x) -> Forall2 P l l.
Proof. intros H. induction l; constructor; auto. Qed.

Lemma Forall2_chain {A} (P : A -> A -> Prop) l1 : forall l2 l3,
  (forall x y z, P x y -> P y z -> P x z) ->
  Forall2 P l1 l2 -> Forall2 P l2 l3 -> Forall2 P l1 l3.
Proof.
  induction l1 as [|x l1 IH]; intros l2 l3 Ht H12 H23;
    inversion H12; subst; inversion H23; subst; constructor; eauto.
Qed.

Lemma Forall2_same_length {A} (P : A -> A -> Prop) l1 l2 :
  Forall2 P l1 l2 -> length l2 = length l1.
Proof. induction 1; simpl; congruence. Qed.

#[local] Instance only_deactivated_preorder : PreOrder only_deactivated.
Proof.
  split.
  - intros w. split; [|auto]. apply Forall2_diag. auto.
  - intros a b c (F1 & N1 & G1 & C1) (F2 & N2 & G2 & C2).
    split; [|repeat split; congruence].
    eapply Forall2_chain; [|exact F1|exact F2].
    intros x y z [E1 A1] [E2 A2]. split; [congruence|auto].
Qed.

Lemma Forall2_replace (P : IUser.t -> IUser.t -> Prop) l1 u u' l2 :
  (forall x, P x x) -> P u u' ->
  Forall2 P (l1 ++ u :: l2) (l1 ++ u' :: l2).
Proof.
  intros Hr Hu. induction l1 as [|x l1 IH]; simpl.
  - constructor; [assumption|now apply Forall2_diag].
  - constructor; auto.
Qed.

Lemma deactivation_only_deactivates p g now now' w :
  only_deactivated w
    (with_db (User.write p g (GroupService.deactivate now) false now') w).
Proof.
  split; [|split; [|split; [|reflexivity]]]; simpl.
  - unfold User.write.
    destruct (List.find (User.isMember p g) (users (db w))) as [u|] eqn:F.
    + destruct (updateFirst_Some _
                  (User.apply (GroupService.deactivate now)) _ _ F)
        as (l1 & l2 & E & _ & _ & ->).
      simpl. rewrite E. apply Forall2_replace; [auto|].
      split; [reflexivity|discriminate].
    + rewrite (updateFirst_None _ _ _ F). apply Forall2_diag. auto.
  - unfold User.write. now destruct (updateFirst _ _ _).
  - apply User_write_groups.
Qed.

Lemma only_deactivated_frame w w' :
  db w' = db w -> monitoredGroupsCache w' = monitoredGroupsCache w ->
  only_deactivated w w'.
Proof.
  intros Hdb Hc. unfold only_deactivated. rewrite Hdb, Hc.
  apply (@reflexivity _ _ (@PreOrder_Reflexive _ _ only_deactivated_preorder)).
Qed.

Lemma handleMembersRemoved_only_deactivates g ms :
  Keeps only_deactivated (GroupService.handleMembersRemoved g ms).
Proof.
  unfold GroupService.handleMembersRemoved, GroupService.isMonitored,
    GroupService.markInactive, User.findOneAndUpdate, newDate,
    logger.success, logger.error.
  repeat first
    [ progress cbv beta zeta
    | match goal with
      | |- Keeps _ (ret _) => apply Keeps_ret; exact _
      | |- Keeps _ (throw _) => apply Keeps_throw; exact _
      | |- Keeps _ (gets _) => apply Keeps_gets; exact _
      | |- Keeps _ (log _ _) =>
          intros ?; apply only_deactivated_frame; reflexivity
      | |- Keeps _ (storeCall ?c) =>
          let w := fresh "w" in
          intros w; apply only_deactivated_frame;
          apply (storeCall_snd c w)
      | |- Keeps _ (modify _) =>
          intros ?; apply deactivation_only_deactivates
      | |- Keeps _ (forEach _ _) => apply Keeps_forEach; [exact _|intros ?]
      | |- Keeps _ (tryCatch _ _) =>
          apply Keeps_tryCatch; [exact _| |intros ?]
      | |- Keeps _ (bind _ _) => apply Keeps_bind; [exact _| |intros ?]
      | |- Keeps _ (if ?b then _ else _) => destruct b
      end ].
Qed.

(** X12. [handleMembersRemoved] never creates a record and never
    activates one, for every group, every list of identifiers and every
    behaviour of the store: afterwards the collection holds, position by
    position, the records it held, with the same [_id] and index, none
    active that was not active; the [ObjectId] counter, the group documents
    and the cache are the same. *)
Theorem handleMembersRemoved_only_deactivates_records
    (g : string) (ms : list string) (w : World) :
  only_deactivated w (snd (GroupService.handleMembersRemoved g ms w)) /\
  length (users (db (snd (GroupService.handleMembersRemoved g ms w))))
  = length (users (db w)).
Proof.
  pose proof (handleMembersRemoved_only_deactivates g ms w) as H.
  split; [exact H|]. destruct H as (F & _).
  exact (Forall2_same_length _ _ _ F).
Qed.

(** ** Incremental changes, when the store answers *)

Lemma write_look_noupsert p g patch now d :
  look p g (users (User.write p g patch false now d))
  = option_map (User.apply patch) (look p g (users d)).
Proof.
  unfold User.write, look.
  destruct (List.find (User.isMember p g) (users d)) as [u|] eqn:F.
  - destruct (updateFirst_Some _ (User.apply patch) _ _ F)
      as (l1 & l2 & E & Hn & Pu & ->).
    assert (Pu' : User.isMember p g (User.apply patch u) = true)
      by (apply isMember_key; now apply isMember_key in Pu).
    simpl. rewrite (find_middle _ _ _ _ Hn). now rewrite Pu'.
  - rewrite (updateFirst_None _ _ _ F). simpl. now rewrite F.
Qed.

Lemma write_hit_identity p g patch up now d u :
  look p g (users d) = Some u ->
  map idkey (users (User.write p g patch up now d)) = map idkey (users d) /\
  nextId (User.write p g patch up now d) = nextId d.
Proof.
  unfold look, User.write. intros F.
  destruct (updateFirst_Some _ (User.apply patch) _ _ F)
    as (l1 & l2 & E & _ & _ & ->).
  simpl. now rewrite idkeys_replace, <- E.
Qed.

Lemma markInactive_spec g p w :
  calm w ->
  wp (GroupService.markInactive g p)
     (fun _ w' =>
        calm w' /\ monitoredGroupsCache w' = monitoredGroupsCache w /\
        clock (env w') = S (clock (env w)) /\
        retired (clock (env w)) (clock (env w'))
                (membership p g w) (membership p g w') /\
        forall p' g', (p', g') <> (p, g) ->
                      membership p' g' w' = membership p' g' w) w.
Proof.
  intros Hc. unfold GroupService.markInactive, newDate, User.findOneAndUpdate.
  apply wp_bind, wp_gets, wp_bind, wp_storeCall; [assumption|].
  apply wp_bind, wp_gets, wp_modify.
  set (c := User_findOneAndUpdate p g false).
  destruct (storeCall_snd c w) as (Hdb & Hca & _ & _ & _ & _ & Hcl & _).
  pose proof (called_calm c w Hc) as Hc1.
  unfold membership. cbn [with_db db env monitoredGroupsCache].
  rewrite Hdb, Hcl.
  split; [exact Hc1|]. split; [exact Hca|]. split; [reflexivity|]. split.
  - rewrite write_look_noupsert. unfold retired.
    destruct (look p g (users (db w))) as [u|]; [|reflexivity].
    exists (clock (env w)). split; [lia|reflexivity].
  - intros p' g' Hne. now apply write_look_other.
Qed.

Lemma retired_again lo mid hi o1 o2 o3 :
  lo <= mid ->
  retired lo mid o1 o2 -> retired mid hi o2 o3 -> retired lo hi o1 o3.
Proof.
  unfold retired. intros Hle. destruct o1 as [u|].
  - intros (t & Ht & ->) (t' & Ht' & ->). exists t'.
    split; [lia|reflexivity].
  - intros ->. auto.
Qed.

Lemma retired_widen lo hi lo' hi' o1 o2 :
  lo' <= lo -> hi <= hi' -> retired lo hi o1 o2 -> retired lo' hi' o1 o2.
Proof.
  unfold retired. intros H1 H2. destruct o1 as [u|]; [|auto].
  intros (t & Ht & ->). exists t. split; [lia|reflexivity].
Qed.

Lemma removal_loop g ms : forall w,
  calm w ->
  wp (forEach ms (GroupService.markInactive g))
     (fun _ w' =>
        calm w' /\ monitoredGroupsCache w' = monitoredGroupsCache w /\
        clock (env w') = clock (env w) + length ms /\
        (forall p, In p ms ->
           retired (clock (env w)) (clock (env w'))
                   (membership p g w) (membership p g w')) /\
        (forall p' g', g' <> g \/ ~ In p' ms ->
                       membership p' g' w' = membership p' g' w)) w.
Proof.
  induction ms as [|a ms IH]; intros w Hc; cbn [forEach].
  - apply wp_ret. split; [exact Hc|]. split; [reflexivity|].
    split; [simpl; lia|]. split; [intros p []|auto].
  - apply wp_bind.
    eapply wp_conseq; [now apply markInactive_spec|].
    intros [] w1 (Hc1 & Hca1 & Hcl1 & Hret1 & Ho1).
    eapply wp_conseq; [now apply IH|].
    intros [] w2 (Hc2 & Hca2 & Hcl2 & Hret2 & Ho2).
    split; [assumption|]. split; [congruence|].
    split; [simpl; lia|]. split.
    + intros p Hp.
      destruct (String.string_dec p a) as [->|Hne].
      * destruct (List.in_dec String.string_dec a ms) as [Hin|Hnin].
        -- apply (retired_again _ (clock (env w1)) _ _ (membership a g w1));
             [lia|exact Hret1|now apply Hret2].
        -- rewrite (Ho2 a g) by auto.
           apply (retired_widen (clock (env w)) (clock (env w1)));
             [lia|lia|exact Hret1].
      * destruct Hp as [<-|Hp]; [congruence|].
        specialize (Hret2 p Hp). rewrite Ho1 in Hret2 by congruence.
        apply (retired_widen (clock (env w1)) (clock (env w2)));
          [lia|lia|exact Hret2].
    + intros p' g' Hne. rewrite Ho2 by (simpl in Hne; tauto).
      apply Ho1. simpl in Hne. intros [= -> ->]. tauto.
Qed.

Lemma addition_loop g ms : forall w,
  calm w -> wf_db (db w) ->
  wp (forEach ms (GroupService.markActive g))
     (fun _ w' =>
        stable w w' /\
        (forall p, In p ms ->
           exists u, membership p g w' = Some u /\ IUser.isActive u = true) /\
        (forall p' g', g' <> g \/ ~ In p' ms ->
           membership p' g' w' = membership p' g' w)) w.
Proof.
  induction ms as [|a ms IH]; intros w Hc Hwf; cbn [forEach].
  - apply wp_ret. split; [now apply stable_refl|]. split; [intros p []|auto].
  - apply wp_bind.
    eapply wp_conseq; [now apply markActive_spec|].
    intros [] w1 (S1 & (u & Hu & Ha) & Ho & _).
    eapply wp_conseq; [apply IH; apply S1|].
    intros [] w2 (S2 & Hact & Hoth).
    split; [exact (stable_trans _ _ _ S1 S2)|]. split.
    + intros p [<-|Hin]; [|now apply Hact].
      destruct (List.in_dec String.string_dec a ms) as [Hin|Hnin];
        [now apply Hact|].
      exists u. rewrite (Hoth a g) by auto. auto.
    + intros p' g' Hne. rewrite Hoth by (simpl in Hne; tauto).
      apply Ho. simpl in Hne. intros [= -> ->]. tauto.
Qed.

Lemma handleMembersAdded_run g ms w :
  calm w -> wf_db (db w) -> g ∈ monitoredGroupsCache w ->
  wp (GroupService.handleMembersAdded g ms)
     (fun _ w' =>
        calm w' /\
        (forall p, In p ms ->
           exists u, membership p g w' = Some u /\ IUser.isActive u = true) /\
        (forall p' g', g' <> g \/ ~ In p' ms ->
           membership p' g' w' = membership p' g' w) /\
        groups (db w') = groups (db w) /\
        monitoredGroupsCache w' = monitoredGroupsCache w /\
        wf_db (db w')) w.
Proof.
  intros Hc Hwf Hg.
  unfold GroupService.handleMembersAdded, GroupService.isMonitored.
  apply wp_bind, wp_gets. rewrite (bool_decide_eq_true_2 _ Hg).
  change (negb true) with false. cbv iota.
  apply wp_tryCatch, wp_bind.
  eapply wp_conseq; [now apply addition_loop|].
  intros [] w1 ((Hc1 & Hca & Hgr & _ & Hwf1 & _) & Hact & Hoth).
  unfold logger.success. apply wp_log.
  split; [exact Hc1|]. split; [exact Hact|]. split; [exact Hoth|].
  split; [exact Hgr|]. split; [exact Hca|exact Hwf1].
Qed.

(** X13. [handleMembersAdded] on a monitored group, when the store
    answers and keeps its uniqueness guarantees: the call returns, every
    listed identifier has an active record in the group afterwards, and the
    record of every other identifier and of every other group is what it
    was; the group documents and the cache are untouched. *)
Theorem handleMembersAdded_activates
    (g : string) (ms : list string) (w : World) :
  calm w -> wf_db (db w) -> g ∈ monitoredGroupsCache w ->
  let w' := snd (GroupService.handleMembersAdded g ms w) in
  fst (GroupService.handleMembersAdded g ms w) = Ok tt /\
  (forall p, In p ms ->
     exists u, membership p g w' = Some u /\ IUser.isActive u = true) /\
  (forall p' g', g' <> g \/ ~ In p' ms ->
     membership p' g' w' = membership p' g' w) /\
  groups (db w') = groups (db w) /\
  monitoredGroupsCache w' = monitoredGroupsCache w /\
  wf_db (db w').
Proof.
  intros Hc Hwf Hg w'. subst w'.
  destruct (wp_elim _ _ _ (handleMembersAdded_run g ms w Hc Hwf Hg))
    as ([] & Hok & _ & Hrest).
  split; assumption.
Qed.

Lemma handleMembersAdded_activates_witness :
  exists u, membership "222" "1@g.us"
              (snd (GroupService.handleMembersAdded "1@g.us" ["222"] two_groups))
            = Some u /\ IUser.isActive u = true.
Proof.
  assert (Hg : "1@g.us" ∈ monitoredGroupsCache two_groups)
    by (apply (bool_decide_unpack _); vm_compute; exact I).
  assert (Hwf : wf_db (db two_groups)).
  { repeat split.
    - apply (bool_decide_unpack _). vm_compute. exact I.
    - apply (bool_decide_unpack _). vm_compute. exact I.
    - repeat constructor. }
  refine (proj1 (proj2 (handleMembersAdded_activates "1@g.us" ["222"]
                          two_groups eq_refl Hwf Hg)) "222" _).
  simpl. auto.
Defined.

Lemma handleMembersRemoved_run g ms w :
  calm w -> g ∈ monitoredGroupsCache w ->
  wp (GroupService.handleMembersRemoved g ms)
     (fun _ w' =>
        calm w' /\ monitoredGroupsCache w' = monitoredGroupsCache w /\
        clock (env w') = clock (env w) + length ms /\
        (forall p, In p ms ->
           retired (clock (env w)) (clock (env w'))
                   (membership p g w) (membership p g w')) /\
        (forall p' g', g' <> g \/ ~ In p' ms ->
           membership p' g' w' = membership p' g' w)) w.
Proof.
  intros Hc Hg.
  unfold GroupService.handleMembersRemoved, GroupService.isMonitored.
  apply wp_bind, wp_gets. rewrite (bool_decide_eq_true_2 _ Hg).
  change (negb true) with false. cbv iota.
  apply wp_tryCatch, wp_bind.
  eapply wp_conseq; [now apply removal_loop|].
  intros [] w1 (Hc1 & Hca & Hcl & Hret & Hoth).
  unfold logger.success. apply wp_log.
  split; [exact Hc1|]. split; [exact Hca|]. split; [exact Hcl|].
  split; assumption.
Qed.

(** X14. [handleMembersRemoved] on a monitored group, when the store
    answers: the call returns; every listed identifier that had a record in
    the group has the same record with [isActive = false] and a refreshed
    timestamp, a time read from the clock during this call, also when the
    record was inactive already; a listed identifier without a record still
    has none; every other record is what it was. *)
Theorem handleMembersRemoved_deactivates
    (g : string) (ms : list string) (w : World) :
  calm w -> g ∈ monitoredGroupsCache w ->
  let w' := snd (GroupService.handleMembersRemoved g ms w) in
  fst (GroupService.handleMembersRemoved g ms w) = Ok tt /\
  (forall p, In p ms ->
     match membership p g w with
     | Some u => exists t,
         clock (env w) <= t < clock (env w') /\
         membership p g w' =
           Some {| IUser._id := IUser._id u;
                   IUser.phoneNumber := IUser.phoneNumber u;
                   IUser.groupId := IUser.groupId u;
                   IUser.isActive := false;
                   IUser.updatedAt := t |}
     | None => membership p g w' = None
     end) /\
  (forall p' g', g' <> g \/ ~ In p' ms ->
     membership p' g' w' = membership p' g' w).
Proof.
  intros Hc Hg w'. subst w'.
  destruct (wp_elim _ _ _ (handleMembersRemoved_run g ms w Hc Hg))
    as ([] & Hok & _ & _ & _ & Hret & Hoth).
  split; [assumption|]. split; [|assumption].
  intros p Hp. specialize (Hret p Hp). unfold retired in Hret.
  destruct (membership p g w) as [u|]; [|exact Hret].
  destruct Hret as (t & Hb & Ht). exists t. split; [exact Hb|exact Ht].
Qed.

Lemma handleMembersRemoved_deactivates_witness :
  let w' := snd (GroupService.handleMembersRemoved "1@g.us" ["222"]
                   two_groups) in
  exists t, clock (env two_groups) <= t < clock (env w') /\
            membership "222" "1@g.us" w'
            = Some (IUser.mk 1 "222" "1@g.us" false t).
Proof.
  intros w'.
  assert (Hg : "1@g.us" ∈ monitoredGroupsCache two_groups)
    by (apply (bool_decide_unpack _); vm_compute; exact I).
  exact (proj1 (proj2 (handleMembersRemoved_deactivates "1@g.us" ["222"]
                         two_groups eq_refl Hg)) "222" (or_introl eq_refl)).
Defined.

(** ** A member who leaves and comes back *)

Lemma Forall2_idkeys (l l' : list IUser.t) :
  Forall2 (fun u u' => idkey u' = idkey u /\
                       (IUser.isActive u' = true -> IUser.isActive u = true))
          l l' ->
  map idkey l' = map idkey l.
Proof. induction 1 as [|u u' l l' [E _] _ IH]; simpl; congruence. Qed.

Lemma markActive_existing g p u w :
  calm w -> membership p g w = Some u ->
  wp (GroupService.markActive g p)
     (fun _ w' =>
        membership p g w' =
          Some (User.apply (GroupService.activate (clock (env w))) u) /\
        map idkey (users (db w')) = map idkey (users (db w)) /\
        nextId (db w') = nextId (db w)) w.
Proof.
  intros Hc Hm. unfold GroupService.markActive, newDate, User.findOneAndUpdate.
  apply wp_bind, wp_gets, wp_bind, wp_storeCall; [assumption|].
  apply wp_bind, wp_gets, wp_modify.
  set (c := User_findOneAndUpdate p g true).
  destruct (storeCall_snd c w) as (Hdb & _).
  unfold membership in *. simpl. rewrite Hdb. split.
  - now rewrite write_look_same, Hm.
  - now apply (write_hit_identity p g _ true _ (db w) u).
Qed.

(** X15. A member who is removed from a monitored group and added again
    keeps one record: when the store answers, the removal flips the record
    to inactive, the addition flips the same record (same [_id]) back to
    active, no record is created and the [ObjectId] counter has not
    moved. *)
Theorem rejoining_member_keeps_one_record
    (g p : string) (u : IUser.t) (w : World) :
  calm w -> g ∈ monitoredGroupsCache w -> membership p g w = Some u ->
  let w1 := snd (GroupService.handleMembersRemoved g [p] w) in
  let w2 := snd (GroupService.handleMembersAdded g [p] w1) in
  fst (GroupService.handleMembersRemoved g [p] w) = Ok tt /\
  fst (GroupService.handleMembersAdded g [p] w1) = Ok tt /\
  (exists t, membership p g w1 =
             Some (IUser.mk (IUser._id u) (IUser.phoneNumber u)
                            (IUser.groupId u) false t)) /\
  (exists t, membership p g w2 =
             Some (IUser.mk (IUser._id u) (IUser.phoneNumber u)
                            (IUser.groupId u) true t)) /\
  map idkey (users (db w2)) = map idkey (users (db w)) /\
  nextId (db w2) = nextId (db w).
Proof.
  intros Hc Hg Hm w1 w2.
  destruct (wp_elim _ _ _ (handleMembersRemoved_run g [p] w Hc Hg))
    as ([] & Hok1 & Hc1 & Hca1 & _ & Hret & _).
  fold w1 in Hc1, Hca1, Hret.
  specialize (Hret p (or_introl eq_refl)). unfold retired in Hret.
  rewrite Hm in Hret. destruct Hret as (t1 & _ & Hm1).
  destruct (handleMembersRemoved_only_deactivates g [p] w) as (F & Hn1 & _).
  fold w1 in F, Hn1. apply Forall2_idkeys in F.
  assert (Hg1 : g ∈ monitoredGroupsCache w1) by now rewrite Hca1.
  assert (H : wp (GroupService.handleMembersAdded g [p])
    (fun _ w' =>
       membership p g w' =
         Some (User.apply (GroupService.activate (clock (env w1)))
                 (User.apply (GroupService.deactivate t1) u)) /\
       map idkey (users (db w')) = map idkey (users (db w1)) /\
       nextId (db w') = nextId (db w1)) w1).
  { unfold GroupService.handleMembersAdded, GroupService.isMonitored.
    apply wp_bind, wp_gets. rewrite (bool_decide_eq_true_2 _ Hg1).
    change (negb true) with false. cbv iota.
    apply wp_tryCatch, wp_bind. cbn [forEach]. apply wp_bind.
    eapply wp_conseq; [now apply (markActive_existing g p _ w1 Hc1 Hm1)|].
    intros [] w' H. apply wp_ret. unfold logger.success. apply wp_log.
    exact H. }
  destruct (wp_elim _ _ _ H) as ([] & Hok2 & Hm2 & Hik & Hn2).
  fold w2 in Hm2, Hik, Hn2.
  split; [exact Hok1|]. split; [exact Hok2|].
  split; [exists t1; exact Hm1|].
  split; [exists (clock (env w1)); exact Hm2|].
  split; congruence.
Qed.

Lemma rejoining_member_keeps_one_record_witness :
  let w1 := snd (GroupService.handleMembersRemoved "1@g.us" ["111"] two_groups) in
  let w2 := snd (GroupService.handleMembersAdded "1@g.us" ["111"] w1) in
  nextId (db w2) = nextId (db two_groups).
Proof.
  intros w1 w2.
  assert (Hg : "1@g.us" ∈ monitoredGroupsCache two_groups)
    by (apply (bool_decide_unpack _); vm_compute; exact I).
  refine (proj2 (proj2 (proj2 (proj2 (proj2
    (rejoining_member_keeps_one_record "1@g.us" "111" _ two_groups
       eq_refl Hg eq_refl)))))).
Defined.

(** ** The [Hi!] command *)

Lemma hi_without_keyword jid w :
  match metadataOf w jid with
  | Some md => GroupService.isTargetGroup (Some (subject md)) = false
  | None => True
  end ->
  wp (WhatsAppController.handleHiCommand jid) (fun _ w' => only_logged w w') w.
Proof.
  intros Hmd. unfold WhatsAppController.handleHiCommand.
  apply wp_tryCatch, wp_bind.
  destruct (getGroupMetadata_eq jid w) as (w1 & E & L).
  unfold wp at 1. rewrite E.
  destruct (metadataOf w jid) as [md|]; cbv beta iota zeta.
  - apply wp_bind. unfold logger.info at 1. apply wp_log.
    rewrite Hmd. unfold logger.info. apply wp_log.
    eapply only_logged_trans; [exact L|].
    eapply only_logged_trans; apply only_logged_log.
  - apply wp_ret. exact L.
Qed.

(** X16. The [Hi!] command is gated by the keyword: when the name of the
    chat's group does not carry it, or the metadata cannot be fetched, a
    message [Hi!] registers nothing; the listener returns normally and
    nothing but the log has moved, whatever the store would answer. *)
Theorem hi_command_requires_keyword
    (msg : WAMessage) (body : MessageBody) (jid : string) (w : World) :
  message msg = Some body -> remoteJid msg = Some jid ->
  textOf body = "Hi!" ->
  match metadataOf w jid with
  | Some md => GroupService.isTargetGroup (Some (subject md)) = false
  | None => True
  end ->
  fst (emit (messages_upsert [msg]) w) = Ok tt /\
  only_logged w (snd (emit (messages_upsert [msg]) w)).
Proof.
  intros Hmsg Hjid Htext Hmd.
  assert (H : wp (emit (messages_upsert [msg]))
                 (fun _ w' => only_logged w w') w).
  { cbn [emit]. unfold WhatsAppController.handleMessagesUpsert.
    cbn [forEach]. rewrite Hmsg, Hjid.
    apply wp_bind. destruct (truthy jid); cbn [negb];
      [|apply wp_ret, wp_ret, only_logged_refl].
    cbv zeta. rewrite Htext.
    change (String.eqb "Hi!" "Hi!") with true.
    change (String.eqb "Hi!" "sync") with false.
    change (String.eqb "Hi!" "check") with false.
    rewrite !andb_false_r, andb_true_r. cbn [andb when].
    apply wp_bind.
    destruct (fromMe msg && isJidGroup jid); cbn [when].
    - apply wp_bind. unfold logger.info. apply wp_log.
      eapply wp_conseq.
      + apply hi_without_keyword.
        change (metadataOf (snd (log INFO ("Detected 'Hi!' in group " +:+ jid) w)) jid)
          with (metadataOf w jid). exact Hmd.
      + intros [] w1 L. apply wp_bind, wp_ret, wp_ret, wp_ret.
        eapply only_logged_trans; [apply only_logged_log|exact L].
    - apply wp_ret, wp_bind, wp_ret, wp_ret, wp_ret, only_logged_refl. }
  destruct (wp_elim _ _ _ H) as ([] & Hok & L). split; assumption.
Qed.

Lemma hi_command_requires_keyword_witness :
  let msg := {| message := Some {| conversation := Some "Hi!";
                                   extendedText := None |};
                remoteJid := Some "9@g.us"; fromMe := true |} in
  let md := {| subject := "Random Chat"; participants := ["111"; "222"] |} in
  let w := with_env (fun e => {| clock := clock e; faults := faults e;
                                 socket := Some {| user := None;
                                   remote := Some [("9@g.us", md)] |} |})
                    two_groups in
  db (snd (emit (messages_upsert [msg]) w)) = db w.
Proof.
  intros msg md w.
  exact (proj1 (proj2 (hi_command_requires_keyword msg _ "9@g.us" w
                         eq_refl eq_refl eq_refl eq_refl))).
Defined.

Lemma handleHiCommand_spec jid sock r md w :
  calm w -> wf_db (db w) ->
  socket (env w) = Some sock -> remote sock = Some r -> assoc jid r = Some md ->
  GroupService.isTargetGroup (Some (subject md)) = true ->
  wp (WhatsAppController.handleHiCommand jid)
     (fun _ w' =>
        calm w' /\
        monitoredGroupsCache w' = {[jid]} ∪ monitoredGroupsCache w /\
        (exists t now,
           groups (db w') =
           Group.write jid (registration (Some (subject md)) t) true now
                       (groups (db w))) /\
        reconciled jid (participants md) w w') w.
Proof.
  intros Hc Hwf Hs Hr Ha Hk. unfold WhatsAppController.handleHiCommand.
  apply wp_tryCatch, wp_bind.
  unfold wp at 1. rewrite (getGroupMetadata_spec jid sock r md w Hs Hr Ha).
  cbv zeta. apply wp_bind. unfold logger.info at 1. apply wp_log.
  rewrite Hk.
  apply wp_bind. unfold logger.info at 1. apply wp_log.
  apply wp_bind.
  eapply wp_conseq; [apply addGroupToMonitored_spec; exact Hc|].
  intros [] w1 (Hc1 & Hca1 & Hgr1 & Hu1 & Hn1 & _).
  cbn [log modify snd with_out env clock db groups users nextId
       monitoredGroupsCache] in Hgr1, Hu1, Hn1, Hca1.
  apply wp_bind. unfold logger.info at 1. apply wp_log.
  apply wp_bind.
  eapply wp_conseq.
  { apply (syncGroupMembers_spec jid (participants md)); [exact Hc1| |].
    - apply (registration_preserves_wf w); assumption.
    - change (jid ∈ monitoredGroupsCache w1). rewrite Hca1. set_solver. }
  intros [] w2 ((Hc2 & Hca2 & Hgr2 & _) & Hrec & _).
  unfold logger.success. apply wp_log.
  split; [exact Hc2|]. split; [|split].
  - change (monitoredGroupsCache w2 = {[jid]} ∪ monitoredGroupsCache w).
    now rewrite Hca2.
  - exists (clock (env w)), (S (clock (env w))).
    change (groups (db w2) = Group.write jid
              (registration (Some (subject md)) (clock (env w))) true
              (S (clock (env w))) (groups (db w))).
    now rewrite Hgr2.
  - assert (Hm : forall p g, membership p g w1 = membership p g w)
      by (intros; unfold membership; now rewrite Hu1).
    destruct Hrec as (R1 & R2 & R3). split; [|split].
    + exact R1.
    + intros p Hp. specialize (R2 p Hp).
      change (membership p jid (snd (log INFO _ w1))) with (membership p jid w1)
        in R2.
      rewrite Hm in R2. exact R2.
    + intros p g' Hne. rewrite <- Hm. now apply R3.
Qed.

(** X17. A message of the account itself whose text is exactly [Hi!],
    sent in a group whose name carries the keyword, alone or among messages
    that are not commands, registers the group under that name with
    [isMonitored = true] and reconciles its roster (every listed identifier
    has an active record, an unlisted active record of the group has
    [isActive = false], an unlisted inactive one is as it was, other groups
    are untouched), when the server answers the metadata query and the
    store answers. *)
Theorem hi_command_registers_keyword_group
    (pre post : list WAMessage)
    (msg : WAMessage) (body : MessageBody) (jid : string)
    (sock : Socket) (r : list (string * GroupMetadata)) (md : GroupMetadata)
    (w : World) :
  Forall (fun m => isCommand m = false) pre ->
  Forall (fun m => isCommand m = false) post ->
  message msg = Some body -> remoteJid msg = Some jid -> fromMe msg = true ->
  textOf body = "Hi!" -> isJidGroup jid = true ->
  calm w -> wf_db (db w) ->
  socket (env w) = Some sock -> remote sock = Some r -> assoc jid r = Some md ->
  GroupService.isTargetGroup (Some (subject md)) = true ->
  let batch := messages_upsert (pre ++ msg :: post) in
  let w' := snd (emit batch w) in
  fst (emit batch w) = Ok tt /\
  jid ∈ monitoredGroupsCache w' /\
  (exists doc, List.find (Group.hasId jid) (groups (db w')) = Some doc /\
               IGroup.isMonitored doc = true /\
               IGroup.name doc = Some (subject md)) /\
  reconciled jid (participants md) w w'.
Proof.
  intros Hpre Hpost Hmsg Hjid Hme Htext Hgroup Hc Hwf Hs Hr Ha Hk batch w'.
  subst w' batch. cbn [emit].
  rewrite (command_among_others pre msg post w Hpre Hpost).
  assert (H : wp (WhatsAppController.handleMessagesUpsert [msg])
     (fun _ w' =>
        calm w' /\
        monitoredGroupsCache w' = {[jid]} ∪ monitoredGroupsCache w /\
        (exists t now,
           groups (db w') =
           Group.write jid (registration (Some (subject md)) t) true now
                       (groups (db w))) /\
        reconciled jid (participants md) w w') w).
  { unfold WhatsAppController.handleMessagesUpsert. cbn [forEach].
    rewrite Hmsg, Hjid, (isJidGroup_truthy jid Hgroup). cbn [negb]. cbv zeta.
    rewrite Htext, Hme, Hgroup.
    change (String.eqb "Hi!" "Hi!") with true.
    change (String.eqb "Hi!" "sync") with false.
    change (String.eqb "Hi!" "check") with false.
    cbn [andb when].
    apply wp_bind, wp_bind, wp_bind.
    unfold logger.info. apply wp_log.
    eapply wp_conseq.
    { apply (handleHiCommand_spec jid sock r md); [exact Hc|exact Hwf|..];
        eassumption. }
    intros [] w1 H. apply wp_bind, wp_ret, wp_ret, wp_ret. exact H. }
  destruct (wp_elim _ _ _ H) as ([] & Hok & Hc' & Hca & (t & now & Hgr) & Hrec).
  set (w' := snd (WhatsAppController.handleMessagesUpsert [msg] w)) in *.
  destruct (find_registered jid (Some (subject md)) t now (groups (db w)))
    as (doc & Hf & Hid & Hm & Hname).
  rewrite <- Hgr in Hf. specialize (Hname _ eq_refl).
  split; [exact Hok|]. split; [rewrite Hca; set_solver|].
  split; [exists doc; auto|exact Hrec].
Qed.

Lemma hi_command_registers_keyword_group_witness :
  let foreign := {| message := Some {| conversation := Some "Hi!";
                                       extendedText := None |};
                    remoteJid := Some "9@g.us"; fromMe := false |} in
  let msg := {| message := Some {| conversation := Some "Hi!";
                                   extendedText := None |};
                remoteJid := Some "9@g.us"; fromMe := true |} in
  let md := {| subject := "NEOL alumni"; participants := ["111"; "222"] |} in
  let w := with_env (fun e => {| clock := clock e; faults := faults e;
                                 socket := Some {| user := None;
                                   remote := Some [("9@g.us", md)] |} |})
                    two_groups in
  "9@g.us" ∈ monitoredGroupsCache
    (snd (emit (messages_upsert ([] ++ msg :: [foreign])) w)).
Proof.
  intros foreign msg md w.
  assert (Hwf : wf_db (db w)).
  { repeat split.
    - apply (bool_decide_unpack _). vm_compute. exact I.
    - apply (bool_decide_unpack _). vm_compute. exact I.
    - repeat constructor. }
  assert (Hpre : Forall (fun m => isCommand m = false) [])
    by constructor.
  assert (Hpost : Forall (fun m => isCommand m = false) [foreign])
    by (repeat constructor).
  exact (proj1 (proj2
    (hi_command_registers_keyword_group [] [foreign] msg _ "9@g.us" _ _ md w
       Hpre Hpost
       eq_refl eq_refl eq_refl eq_refl eq_refl eq_refl Hwf
       eq_refl eq_refl eq_refl eq_refl))).
Defined.

(** ** Relations that every step of the program respects *)

Section Leaves.
Variable R : World -> World -> Prop.
Context `{!PreOrder R}.

Hypothesis R_log : forall l msg, Keeps R (log l msg).
Hypothesis R_store : forall c, Keeps R (storeCall c).

Ltac leaves_with leaf :=
  repeat first
    [ leaf
    | progress cbv beta zeta
    | match goal with
      | |- Keeps _ (ret _) => apply Keeps_ret; exact _
      | |- Keeps _ (throw _) => apply Keeps_throw; exact _
      | |- Keeps _ (gets _) => apply Keeps_gets; exact _
      | |- Keeps _ (log _ _) => apply R_log
      | |- Keeps _ (storeCall _) => apply R_store
      | |- Keeps _ (when _ _) => apply Keeps_when; [exact _|]
      | |- Keeps _ (forEach _ _) => apply Keeps_forEach; [exact _|intros ?]
      | |- Keeps _ (foldM _ _ _) => apply Keeps_foldM; [exact _|intros ? ?]
      | |- Keeps _ (tryCatch _ _) =>
          apply Keeps_tryCatch; [exact _| |intros ?]
      | |- Keeps _ (bind _ _) => apply Keeps_bind; [exact _| |intros ?]
      | |- Keeps _ (if ?b then _ else _) => destruct b
      | |- Keeps _ (match ?x with _ => _ end) => destruct x
      end ].

Ltac leaves := leaves_with fail.

Lemma Leaves_User_find g : Keeps R (User.find g).
Proof. unfold User.find. leaves. Qed.

Lemma Leaves_countDocuments g a : Keeps R (User.countDocuments g a).
Proof. unfold User.countDocuments. leaves. Qed.

Lemma Leaves_Group_find : Keeps R Group.find.
Proof. unfold Group.find. leaves. Qed.

Lemma Leaves_getDatabaseStatus : Keeps R GroupService.getDatabaseStatus.
Proof.
  unfold GroupService.getDatabaseStatus, logger.error.
  leaves_with ltac:(first [apply Leaves_Group_find|apply Leaves_countDocuments
                          |progress unfold GroupService.countGroup]).
Qed.

Lemma Leaves_getGroupMetadata g : Keeps R (WhatsAppClient.getGroupMetadata g).
Proof.
  unfold WhatsAppClient.getGroupMetadata, WhatsAppClient.getSocket,
    WhatsAppClient.groupMetadata, logger.error.
  leaves.
Qed.

Hypothesis R_users : forall p g patch up,
  Keeps R (User.findOneAndUpdate p g patch up).
Hypothesis R_user : forall id patch, Keeps R (User.findByIdAndUpdate id patch).

Ltac records :=
  first [ apply R_users | apply R_user | apply Leaves_User_find ].

Lemma Leaves_syncGroupMembers g ms :
  Keeps R (GroupService.syncGroupMembers g ms).
Proof.
  unfold GroupService.syncGroupMembers, GroupService.syncMember,
    GroupService.retireMember, GroupService.markActive,
    GroupService.isMonitored, newDate,
    logger.info, logger.error, logger.success.
  leaves_with records.
Qed.

Lemma Leaves_handleMembersAdded g ms :
  Keeps R (GroupService.handleMembersAdded g ms).
Proof.
  unfold GroupService.handleMembersAdded, GroupService.isMonitored,
    logger.error, logger.success.
  leaves_with ltac:(first [records
                          |progress unfold GroupService.markActive, newDate]).
Qed.

Lemma Leaves_handleMembersRemoved g ms :
  Keeps R (GroupService.handleMembersRemoved g ms).
Proof.
  unfold GroupService.handleMembersRemoved, GroupService.isMonitored,
    logger.error, logger.success.
  leaves_with ltac:(first [records
                          |progress unfold GroupService.markInactive, newDate]).
Qed.

Hypothesis R_groups : forall g patch up,
  Keeps R (Group.findOneAndUpdate g patch up).
Hypothesis R_cache : forall f, Keeps R (modify (with_cache f)).

Ltac registry :=
  first [ apply R_groups | apply R_cache | apply Leaves_Group_find ].

Lemma Leaves_loadMonitoredGroups : Keeps R GroupService.loadMonitoredGroups.
Proof.
  unfold GroupService.loadMonitoredGroups, logger.info, logger.error.
  leaves_with registry.
Qed.

Lemma Leaves_addGroupToMonitored g n :
  Keeps R (GroupService.addGroupToMonitored g n).
Proof.
  unfold GroupService.addGroupToMonitored, GroupService.isMonitored, newDate,
    logger.info, logger.error, logger.success.
  leaves_with registry.
Qed.

Lemma Leaves_removeGroupFromMonitored g :
  Keeps R (GroupService.removeGroupFromMonitored g).
Proof.
  unfold GroupService.removeGroupFromMonitored, GroupService.isMonitored,
    logger.info, logger.error.
  leaves_with registry.
Qed.

Hypothesis R_send : forall to text, Keeps R (WhatsAppClient.sendMessage to text).

Ltac served :=
  first [ apply Leaves_addGroupToMonitored | apply Leaves_syncGroupMembers
        | apply Leaves_handleMembersAdded | apply Leaves_handleMembersRemoved
        | apply Leaves_getDatabaseStatus | apply Leaves_getGroupMetadata
        | apply R_send ].

Lemma Leaves_fetchAndMonitorTargetGroups :
  Keeps R WhatsAppClient.fetchAndMonitorTargetGroups.
Proof.
  unfold WhatsAppClient.fetchAndMonitorTargetGroups,
    WhatsAppClient.getSocket, WhatsAppClient.groupFetchAllParticipating,
    logger.info, logger.error, logger.success.
  leaves_with served.
Qed.

Lemma Leaves_handleConnectionUpdate u :
  Keeps R (WhatsAppController.handleConnectionUpdate u).
Proof.
  unfold WhatsAppController.handleConnectionUpdate,
    WhatsAppClient.getSocket, logger.info, logger.success.
  leaves_with ltac:(apply Leaves_fetchAndMonitorTargetGroups).
Qed.

Lemma Leaves_handleGroupParticipantsUpdate u :
  Keeps R (WhatsAppController.handleGroupParticipantsUpdate u).
Proof.
  unfold WhatsAppController.handleGroupParticipantsUpdate,
    WhatsAppController.applyAction,
    GroupService.isMonitored, logger.info, logger.error, logger.success.
  leaves_with served.
Qed.

Lemma Leaves_handleGroupsUpdate us :
  Keeps R (WhatsAppController.handleGroupsUpdate us).
Proof.
  unfold WhatsAppController.handleGroupsUpdate, GroupService.isMonitored,
    logger.info, logger.warn, logger.error, logger.success.
  leaves_with served.
Qed.

Lemma Leaves_handleGroupsUpsert gs :
  Keeps R (WhatsAppController.handleGroupsUpsert gs).
Proof.
  unfold WhatsAppController.handleGroupsUpsert,
    logger.info, logger.success.
  leaves_with served.
Qed.

Lemma Leaves_handleMessagesUpsert ms :
  Keeps R (WhatsAppController.handleMessagesUpsert ms).
Proof.
  unfold WhatsAppController.handleMessagesUpsert,
    WhatsAppController.handleHiCommand, WhatsAppController.handleSyncCommand,
    WhatsAppController.handleCheckCommand,
    logger.info, logger.error, logger.success.
  leaves_with served.
Qed.

Hypothesis R_reconnection : forall u, Keeps R (reconnection u).

Lemma Leaves_emit e : Keeps R (emit e).
Proof.
  destruct e; cbn [emit].
  - apply Keeps_bind; [exact _|apply Leaves_handleConnectionUpdate|intros _].
    apply R_reconnection.
  - apply Leaves_handleGroupParticipantsUpdate.
  - apply Leaves_handleGroupsUpdate.
  - apply Leaves_handleGroupsUpsert.
  - apply Leaves_handleMessagesUpsert.
Qed.

Hypothesis R_env : forall e w, R w (with_env (fun _ => e) w).

Lemma Leaves_step o w : R w (step o w).
Proof.
  destruct o; cbn [step].
  - apply R_env.
  - apply Leaves_loadMonitoredGroups.
  - apply Leaves_addGroupToMonitored.
  - apply Leaves_removeGroupFromMonitored.
  - apply Leaves_emit.
Qed.

Lemma Leaves_exec ops : forall w, R w (exec ops w).
Proof.
  unfold exec. induction ops as [|o ops IH]; intros w; cbn [fold_left].
  - reflexivity.
  - etransitivity; [apply Leaves_step|apply IH].
Qed.

End Leaves.

(** ** The [check] command *)

#[local] Instance same_channel_preorder : PreOrder same_channel.
Proof.
  split.
  - intros w. split; reflexivity.
  - intros a b c [H1 H2] [H3 H4]. split; congruence.
Qed.

Lemma same_channel_log l msg : Keeps same_channel (log l msg).
Proof. intros w. split; reflexivity. Qed.

Lemma same_channel_storeCall c : Keeps same_channel (storeCall c).
Proof.
  intros w. fold (called c w).
  destruct (storeCall_snd c w) as (_ & _ & _ & _ & Ho & _ & _ & Hs & _).
  split; assumption.
Qed.

Lemma getDatabaseStatus_wp (Q : IDatabaseStatus -> World -> Prop) w :
  calm w ->
  (forall w1, db w1 = db w ->
              monitoredGroupsCache w1 = monitoredGroupsCache w ->
              same_channel w w1 -> Q (status_of (db w)) w1) ->
  wp GroupService.getDatabaseStatus Q w.
Proof.
  intros Hc HQ. unfold wp.
  pose proof (getDatabaseStatus_calm w Hc) as E.
  destruct (getDatabaseStatus_reads_only w) as (Hdb & Hca & _).
  pose proof (Leaves_getDatabaseStatus same_channel
                same_channel_log same_channel_storeCall w) as Hch.
  destruct (GroupService.getDatabaseStatus w) as [[st|e] w1];
    [|discriminate]. simpl in *. injection E as ->. now apply HQ.
Qed.

(** X18. A message [check] of the account itself, when the store answers
    and the server is reachable: the listener returns normally, exactly one
    message is sent, to the chat the command came from, and its text is the
    formatted report of the database as it is; the collections and the
    cache are unchanged. *)
Theorem check_command_replies_with_the_report
    (msg : WAMessage) (body : MessageBody) (jid : string)
    (sock : Socket) (r : list (string * GroupMetadata)) (w : World) :
  message msg = Some body -> remoteJid msg = Some jid -> truthy jid = true ->
  fromMe msg = true -> textOf body = "check" ->
  calm w -> socket (env w) = Some sock -> remote sock = Some r ->
  let w' := snd (emit (messages_upsert [msg]) w) in
  fst (emit (messages_upsert [msg]) w) = Ok tt /\
  outbox (out w') =
    (jid, GroupService.formatDatabaseStatus (status_of (db w)))
    :: outbox (out w) /\
  db w' = db w /\ monitoredGroupsCache w' = monitoredGroupsCache w.
Proof.
  intros Hmsg Hjid Htr Hme Htext Hc Hs Hr w'. subst w'.
  assert (H : wp (emit (messages_upsert [msg]))
     (fun _ w' =>
        outbox (out w') =
          (jid, GroupService.formatDatabaseStatus (status_of (db w)))
          :: outbox (out w) /\
        db w' = db w /\ monitoredGroupsCache w' = monitoredGroupsCache w) w).
  { cbn [emit]. unfold WhatsAppController.handleMessagesUpsert. cbn [forEach].
    rewrite Hmsg, Hjid, Htr. cbn [negb]. cbv zeta.
    rewrite Htext, Hme.
    change (String.eqb "check" "Hi!") with false.
    change (String.eqb "check" "sync") with false.
    change (String.eqb "check" "check") with true.
    cbn [andb when].
    apply wp_bind, wp_bind, wp_ret, wp_bind, wp_ret, wp_bind.
    unfold logger.info at 1. apply wp_log.
    unfold WhatsAppController.handleCheckCommand.
    apply (wp_conseq _ (fun _ w' =>
        outbox (out w') =
          (jid, GroupService.formatDatabaseStatus (status_of (db w)))
          :: outbox (out w) /\
        db w' = db w /\ monitoredGroupsCache w' = monitoredGroupsCache w));
      [|intros [] w2 H; apply wp_ret; exact H].
    apply wp_tryCatch, wp_bind, getDatabaseStatus_wp; [exact Hc|].
    intros w1 Hdb Hca [Hso Hou]. cbv zeta.
    cbn [log modify snd with_out db monitoredGroupsCache env out outbox]
      in Hdb, Hca, Hso, Hou.
    apply wp_bind. unfold logger.info. apply wp_log.
    rewrite Htr. cbn [when].
    unfold WhatsAppClient.sendMessage, WhatsAppClient.getSocket.
    apply wp_bind, wp_gets.
    cbn [log modify snd with_out env]. rewrite Hso, Hs.
    apply wp_tryCatch. rewrite Hr. apply wp_modify.
    cbn [with_out out outbox db monitoredGroupsCache log modify snd].
    rewrite Hou, Hdb. repeat split. exact Hca. }
  destruct (wp_elim _ _ _ H) as ([] & Hok & Hout & Hdb & Hca).
  repeat split; assumption.
Qed.

Lemma check_command_replies_with_the_report_witness :
  let msg := {| message := Some {| conversation := Some "check";
                                   extendedText := None |};
                remoteJid := Some "me@s.whatsapp.net"; fromMe := true |} in
  let w := with_env (fun e => {| clock := clock e; faults := faults e;
                                 socket := Some {| user := None;
                                                   remote := Some [] |} |})
                    two_groups in
  length (outbox (out (snd (emit (messages_upsert [msg]) w)))) = 1.
Proof.
  intros msg w.
  exact (f_equal (@length _) (proj1 (proj2
    (check_command_replies_with_the_report msg _ "me@s.whatsapp.net" _ [] w
       eq_refl eq_refl eq_refl eq_refl eq_refl eq_refl eq_refl eq_refl)))).
Defined.

(** X19. No error reaches the chat: when the store rejects the first
    query of a [check] command, or the server cannot be reached, the
    listener still returns normally and no message has been sent. *)
Theorem check_command_failure_is_silent
    (msg : WAMessage) (body : MessageBody) (jid : string) (w : World) :
  message msg = Some body -> remoteJid msg = Some jid ->
  textOf body = "check" ->
  nextRejects w = true \/
  match socket (env w) with
  | Some sock => remote sock = None
  | None => True
  end ->
  fst (emit (messages_upsert [msg]) w) = Ok tt /\
  outbox (out (snd (emit (messages_upsert [msg]) w))) = outbox (out w).
Proof.
  intros Hmsg Hjid Htext Hbad.
  assert (H : wp (emit (messages_upsert [msg]))
                 (fun _ w' => outbox (out w') = outbox (out w)) w).
  { cbn [emit]. unfold WhatsAppController.handleMessagesUpsert. cbn [forEach].
    rewrite Hmsg, Hjid.
    apply wp_bind. destruct (truthy jid) eqn:Htr; cbn [negb];
      [|apply wp_ret, wp_ret; reflexivity].
    cbv zeta. rewrite Htext.
    change (String.eqb "check" "Hi!") with false.
    change (String.eqb "check" "sync") with false.
    change (String.eqb "check" "check") with true.
    rewrite !andb_false_r, andb_true_r. cbn [andb when].
    apply wp_bind, wp_ret, wp_bind, wp_ret.
    destruct (fromMe msg); cbn [when];
      [|apply wp_ret, wp_ret; reflexivity].
    apply wp_bind. unfold logger.info at 1. apply wp_log.
    set (w0 := snd (log INFO "Detected check command" w)).
    apply (wp_conseq _ (fun _ w' => outbox (out w') = outbox (out w)));
      [|intros [] w2 H; apply wp_ret; exact H].
    unfold WhatsAppController.handleCheckCommand, wp, tryCatch, bind at 1.
    pose proof (Leaves_getDatabaseStatus same_channel
                  same_channel_log same_channel_storeCall w0) as [Hso Hou].
    change (socket (env w0)) with (socket (env w)) in Hso.
    change (outbox (out w0)) with (outbox (out w)) in Hou.
    destruct (GroupService.getDatabaseStatus w0) as [[st|e] w1] eqn:E;
      simpl in Hso, Hou.
    - cbv zeta. unfold logger.info, log, bind, modify. rewrite Htr.
      cbn [when]. unfold WhatsAppClient.sendMessage, WhatsAppClient.getSocket,
        bind, gets, tryCatch. cbn [env with_out]. rewrite Hso.
      destruct Hbad as [Hrej|Hbad].
      + exfalso. revert E.
        unfold GroupService.getDatabaseStatus, Group.find, tryCatch,
          bind at 1 2 3. rewrite storeCall_next.
        change (nextRejects w0) with (nextRejects w). rewrite Hrej.
        unfold logger.error, log, bind, modify, throw. discriminate.
      + destruct (socket (env w)) as [sock|]; [rewrite Hbad|]; simpl;
          exact Hou.
    - unfold logger.error, log, modify. simpl. exact Hou. }
  destruct (wp_elim _ _ _ H) as ([] & Hok & Hout). split; assumption.
Qed.

Lemma check_command_failure_is_silent_witness :
  let msg := {| message := Some {| conversation := Some "check";
                                   extendedText := None |};
                remoteJid := Some "me@s.whatsapp.net"; fromMe := true |} in
  outbox (out (snd (emit (messages_upsert [msg]) store_down))) = [].
Proof.
  intros msg.
  exact (proj2 (check_command_failure_is_silent msg _ "me@s.whatsapp.net"
                  store_down eq_refl eq_refl eq_refl (or_introl eq_refl))).
Defined.

(** ** What the collections never lose *)

#[local] Instance nothing_lost_preorder : PreOrder nothing_lost.
Proof.
  split.
  - intros w. split; [apply incl_refl|]. split; [apply incl_refl|lia].
  - intros a b c (H1 & H2 & H3) (H4 & H5 & H6).
    split; [eapply incl_tran; eassumption|].
    split; [eapply incl_tran; eassumption|lia].
Qed.

Lemma nothing_lost_frame w w' : db w' = db w -> nothing_lost w w'.
Proof.
  intros E. unfold nothing_lost. rewrite E.
  split; [apply incl_refl|]. split; [apply incl_refl|lia].
Qed.

Lemma db_sendMessage to text w :
  db (snd (WhatsAppClient.sendMessage to text w)) = db w.
Proof.
  unfold WhatsAppClient.sendMessage, WhatsAppClient.getSocket, bind, gets,
    tryCatch, modify, throw, logger.error, log.
  destruct (socket (env w)) as [sock|]; [|reflexivity].
  destruct (remote sock); reflexivity.
Qed.

Lemma db_reconnection u w : db (snd (reconnection u w)) = db w.
Proof.
  unfold reconnection, process_exit, bind, gets, modify, logger.warn,
    logger.error, log.
  destruct (connection u) as [[]|]; try reflexivity.
  destruct (bool_decide _); [reflexivity|].
  destruct (_ <? _)%nat; reflexivity.
Qed.

Lemma write_nextId p g patch up now d :
  nextId d <= nextId (User.write p g patch up now d).
Proof.
  unfold User.write. destruct (updateFirst _ _ _); simpl; [lia|].
  destruct up; simpl; lia.
Qed.

Lemma Group_write_ids_incl g p up now gs :
  incl (map IGroup.groupId gs) (map IGroup.groupId (Group.write g p up now gs)).
Proof.
  unfold Group.write.
  destruct (List.find (Group.hasId g) gs) as [x|] eqn:F.
  - destruct (updateFirst_Some _ (Group.apply p) _ _ F)
      as (l1 & l2 & -> & _ & _ & ->).
    rewrite !map_app. apply incl_refl.
  - rewrite (updateFirst_None _ _ _ F). destruct up; [|apply incl_refl].
    rewrite map_app. apply incl_appl, incl_refl.
Qed.

Lemma nothing_lost_users p g patch up :
  Keeps nothing_lost (User.findOneAndUpdate p g patch up).
Proof.
  intros w. unfold User.findOneAndUpdate, newDate, bind, gets, modify.
  set (c := User_findOneAndUpdate p g up).
  destruct (storeCall_snd c w) as (Hdb & _). unfold called in Hdb.
  destruct (storeCall c w) as [[[]|e] w1]; simpl in *;
    [|now apply nothing_lost_frame].
  unfold nothing_lost. simpl. rewrite Hdb, User_write_groups.
  split; [apply write_idkeys|]. split; [apply incl_refl|apply write_nextId].
Qed.

Lemma nothing_lost_user id patch :
  Keeps nothing_lost (User.findByIdAndUpdate id patch).
Proof.
  intros w. unfold User.findByIdAndUpdate, bind, modify.
  set (c := User_findByIdAndUpdate id).
  destruct (storeCall_snd c w) as (Hdb & _). unfold called in Hdb.
  destruct (storeCall c w) as [[[]|e] w1]; simpl in *;
    [|now apply nothing_lost_frame].
  unfold nothing_lost. simpl. rewrite Hdb, User_writeById_groups.
  destruct (writeById_idkeys id patch (db w)) as [-> ->].
  split; [apply incl_refl|]. split; [apply incl_refl|lia].
Qed.

Lemma nothing_lost_groups g patch up :
  Keeps nothing_lost (Group.findOneAndUpdate g patch up).
Proof.
  intros w. unfold Group.findOneAndUpdate, newDate, bind, gets, modify.
  set (c := Group_findOneAndUpdate g up).
  destruct (storeCall_snd c w) as (Hdb & _). unfold called in Hdb.
  destruct (storeCall c w) as [[[]|e] w1]; simpl in *;
    [|now apply nothing_lost_frame].
  unfold nothing_lost. simpl. rewrite Hdb.
  split; [apply incl_refl|]. split; [apply Group_write_ids_incl|lia].
Qed.

(** X20. Nothing is ever deleted.  Whatever the environment does, whatever
    services are called and whatever events the socket emits, in whatever
    order and however the store answers: every membership record is still
    in the collection under its [_id], phone identifier and group, every
    group document under its id, and the [ObjectId] counter has not gone
    back. *)
Theorem nothing_is_ever_deleted (ops : list Op) (w : World) :
  nothing_lost w (exec ops w).
Proof.
  apply (Leaves_exec nothing_lost).
  - intros l msg w0. now apply nothing_lost_frame.
  - intros c w0. apply nothing_lost_frame.
    exact (proj1 (storeCall_snd c w0)).
  - exact nothing_lost_users.
  - exact nothing_lost_user.
  - exact nothing_lost_groups.
  - intros f w0. now apply nothing_lost_frame.
  - intros to text w0. apply nothing_lost_frame, db_sendMessage.
  - intros u w0. apply nothing_lost_frame, db_reconnection.
  - intros e w0. now apply nothing_lost_frame.
Qed.

(** ** The uniqueness constraints *)

#[local] Instance carries_unique_preorder : PreOrder carries_unique.
Proof.
  split.
  - intros w H. exact H.
  - intros a b c H1 H2 H. apply H2, H1, H.
Qed.

Lemma carries_unique_frame w w' : db w' = db w -> carries_unique w w'.
Proof. intros E. unfold carries_unique. now rewrite E. Qed.

Lemma Group_write_unique g p up now gs :
  NoDup (map IGroup.groupId gs) ->
  NoDup (map IGroup.groupId (Group.write g p up now gs)).
Proof.
  intros Hnd. unfold Group.write.
  destruct (List.find (Group.hasId g) gs) as [x|] eqn:F.
  - destruct (updateFirst_Some _ (Group.apply p) _ _ F)
      as (l1 & l2 & -> & _ & _ & ->).
    rewrite map_app in *. exact Hnd.
  - rewrite (updateFirst_None _ _ _ F). destruct up; [|exact Hnd].
    rewrite map_app. apply NoDup_app. split; [exact Hnd|].
    split; [|apply NoDup_singleton].
    intros y Hy Hy'. apply list_elem_of_singleton in Hy'. subst y.
    apply list_elem_of_In, in_map_iff in Hy as (d & Hd & Hin).
    apply (find_none _ _ F) in Hin. apply hasId_eq in Hd. simpl in Hd.
    congruence.
Qed.

Lemma carries_unique_users p g patch up :
  Keeps carries_unique (User.findOneAndUpdate p g patch up).
Proof.
  intros w. unfold User.findOneAndUpdate, newDate, bind, gets, modify.
  set (c := User_findOneAndUpdate p g up).
  destruct (storeCall_snd c w) as (Hdb & _). unfold called in Hdb.
  destruct (storeCall c w) as [[[]|e] w1]; simpl in *;
    [|now apply carries_unique_frame].
  intros [Hwf Hnd]. split; simpl; rewrite Hdb.
  - now apply write_wf.
  - now rewrite User_write_groups.
Qed.

Lemma carries_unique_user id patch :
  Keeps carries_unique (User.findByIdAndUpdate id patch).
Proof.
  intros w. unfold User.findByIdAndUpdate, bind, modify.
  set (c := User_findByIdAndUpdate id).
  destruct (storeCall_snd c w) as (Hdb & _). unfold called in Hdb.
  destruct (storeCall c w) as [[[]|e] w1]; simpl in *;
    [|now apply carries_unique_frame].
  intros [Hwf Hnd]. split; simpl; rewrite Hdb.
  - now apply writeById_wf.
  - now rewrite User_writeById_groups.
Qed.

Lemma carries_unique_groups g patch up :
  Keeps carries_unique (Group.findOneAndUpdate g patch up).
Proof.
  intros w. unfold Group.findOneAndUpdate, newDate, bind, gets, modify.
  set (c := Group_findOneAndUpdate g up).
  destruct (storeCall_snd c w) as (Hdb & _). unfold called in Hdb.
  destruct (storeCall c w) as [[[]|e] w1]; simpl in *;
    [|now apply carries_unique_frame].
  intros [Hwf Hnd]. split; simpl; rewrite Hdb.
  - now apply (wf_db_idkeys (db w)).
  - now apply Group_write_unique.
Qed.

(** X21. The program never breaks the uniqueness constraints of its
    collections by itself: if [ObjectId]s, the index on
    [(phoneNumber, groupId)] and the group ids are unique, they still are
    after any sequence of service calls and events, however the store
    answers.  Every write of the code is an update or an upsert by the
    unique key. *)
Theorem uniqueness_is_preserved (ops : list Op) (w : World) :
  unique_db (db w) -> unique_db (db (exec ops w)).
Proof.
  apply (Leaves_exec carries_unique).
  - intros l msg w0. now apply carries_unique_frame.
  - intros c w0. apply carries_unique_frame.
    exact (proj1 (storeCall_snd c w0)).
  - exact carries_unique_users.
  - exact carries_unique_user.
  - exact carries_unique_groups.
  - intros f w0. now apply carries_unique_frame.
  - intros to text w0. apply carries_unique_frame, db_sendMessage.
  - intros u w0. apply carries_unique_frame, db_reconnection.
  - intros e w0. now apply carries_unique_frame.
Qed.

Lemma uniqueness_is_preserved_witness :
  unique_db (db (exec [op_emit (group_participants_update
                         {| pu_id := "1@g.us"; pu_participants := ["444"];
                            pu_action := add |});
                       op_add "3@g.us" None] two_groups)).
Proof.
  apply uniqueness_is_preserved.
  split; [repeat split|].
  - apply (bool_decide_unpack _). vm_compute. exact I.
  - apply (bool_decide_unpack _). vm_compute. exact I.
  - repeat constructor.
  - apply (bool_decide_unpack _). vm_compute. exact I.
Defined.

(** ** The reconnection policy *)

#[local] Instance carries_backoff_preorder : PreOrder carries_backoff.
Proof.
  split.
  - intros w H. exact H.
  - intros a b c H1 H2 H. apply H2, H1, H.
Qed.

#[local] Instance same_client_preorder : PreOrder same_client.
Proof.
  split.
  - intros w. reflexivity.
  - intros a b c H1 H2. unfold same_client in *. congruence.
Qed.

Lemma client_sendMessage to text w :
  client (snd (WhatsAppClient.sendMessage to text w)) = client w.
Proof.
  unfold WhatsAppClient.sendMessage, WhatsAppClient.getSocket, bind, gets,
    tryCatch, modify, throw, logger.error, log.
  destruct (socket (env w)) as [sock|]; [|reflexivity].
  destruct (remote sock); reflexivity.
Qed.

Lemma client_storeCall c w : client (snd (storeCall c w)) = client w.
Proof. exact (proj1 (proj2 (proj2 (storeCall_snd c w)))). Qed.

Lemma client_users p g patch up :
  Keeps same_client (User.findOneAndUpdate p g patch up).
Proof.
  intros w. unfold same_client, User.findOneAndUpdate, newDate, bind, gets,
    modify.
  pose proof (client_storeCall (User_findOneAndUpdate p g up) w) as H.
  destruct (storeCall _ w) as [[[]|e] w1]; exact H.
Qed.

Lemma client_user id patch : Keeps same_client (User.findByIdAndUpdate id patch).
Proof.
  intros w. unfold same_client, User.findByIdAndUpdate, bind, modify.
  pose proof (client_storeCall (User_findByIdAndUpdate id) w) as H.
  destruct (storeCall _ w) as [[[]|e] w1]; exact H.
Qed.

Lemma client_groups g patch up :
  Keeps same_client (Group.findOneAndUpdate g patch up).
Proof.
  intros w. unfold same_client, Group.findOneAndUpdate, newDate, bind, gets,
    modify.
  pose proof (client_storeCall (Group_findOneAndUpdate g up) w) as H.
  destruct (storeCall _ w) as [[[]|e] w1]; exact H.
Qed.

Lemma same_client_backoff {A} (m : M A) :
  Keeps same_client m -> Keeps carries_backoff m.
Proof. intros H w Hb. now rewrite (H w). Qed.

Lemma reconnection_backoff u : Keeps carries_backoff (reconnection u).
Proof.
  intros w [Hn Ht].
  unfold reconnection, process_exit, bind, gets, modify, logger.warn,
    logger.error, log.
  destruct (connection u) as [[]|]; try (split; assumption).
  - split; [simpl; lia|exact Ht].
  - destruct (bool_decide _); [split; assumption|].
    destruct (reconnectAttempts (client w) <? _)%nat eqn:E;
      [|split; assumption].
    apply Nat.ltb_lt in E. split; [simpl; lia|]. simpl.
    constructor; [|exact Ht]. unfold WhatsAppClient.MAX_RECONNECT_ATTEMPTS in *.
    lia.
Qed.

(** X22. The reconnection policy stays within its bounds.  From the
    start of the process and through any sequence of events and service
    calls, the attempt counter never exceeds [MAX_RECONNECT_ATTEMPTS] and
    every reconnection timer is set to at least one and at most ten
    seconds. *)
Theorem reconnection_stays_within_bounds (ops : list Op) (d : Db) (e : Env) :
  backoff_ok (client (exec ops (boot d e))).
Proof.
  apply (Leaves_exec carries_backoff).
  - intros l msg w0 H. exact H.
  - intros c w0 H. now rewrite client_storeCall.
  - intros. apply same_client_backoff, client_users.
  - intros. apply same_client_backoff, client_user.
  - intros. apply same_client_backoff, client_groups.
  - intros f w0 H. exact H.
  - intros to text w0 H. now rewrite client_sendMessage.
  - exact reconnection_backoff.
  - intros e0 w0 H. exact H.
  - split; [simpl; unfold WhatsAppClient.MAX_RECONNECT_ATTEMPTS; lia|].
    constructor.
Qed.

Lemma handlers_keep_the_client :
  (forall u, Keeps same_client (WhatsAppController.handleConnectionUpdate u)) /\
  (forall u, Keeps same_client
               (WhatsAppController.handleGroupParticipantsUpdate u)) /\
  (forall us, Keeps same_client (WhatsAppController.handleGroupsUpdate us)) /\
  (forall gs, Keeps same_client (WhatsAppController.handleGroupsUpsert gs)) /\
  (forall ms, Keeps same_client (WhatsAppController.handleMessagesUpsert ms)).
Proof.
  assert (L : forall l msg, Keeps same_client (log l msg))
    by (intros l msg w; reflexivity).
  assert (S : forall c, Keeps same_client (storeCall c))
    by (intros c w; apply client_storeCall).
  assert (C : forall f, Keeps same_client (modify (with_cache f)))
    by (intros f w; reflexivity).
  assert (M : forall to text,
             Keeps same_client (WhatsAppClient.sendMessage to text))
    by (intros to text w; apply client_sendMessage).
  split; [|split; [|split; [|split]]]; intros x;
    [ apply Leaves_handleConnectionUpdate
    | apply Leaves_handleGroupParticipantsUpdate
    | apply Leaves_handleGroupsUpdate
    | apply Leaves_handleGroupsUpsert
    | apply Leaves_handleMessagesUpsert ];
    first [ exact _ | assumption | exact client_users | exact client_user
          | exact client_groups ].
Qed.

(** X23. [process.exit] is reached for two reasons only.  If a listener
    returns normally and the process, which had not been ended before the
    event, has been ended by it, then the exit code is 1 and the event was
    a closed connection: either a logout, or another failure when
    [MAX_RECONNECT_ATTEMPTS] attempts had been used up.  (A listener that
    does not return normally is outside this statement.) *)
Theorem exit_only_on_logout_or_exhaustion (e : Event) (w : World) :
  fst (emit e w) = Ok tt ->
  exited (client w) = None ->
  exited (client (snd (emit e w))) <> None ->
  exited (client (snd (emit e w))) = Some 1 /\
  exists u, e = connection_update u /\ connection u = Some conn_close /\
    (statusCode u = Some DisconnectReason.loggedOut \/
     (statusCode u <> Some DisconnectReason.loggedOut /\
      WhatsAppClient.MAX_RECONNECT_ATTEMPTS <= reconnectAttempts (client w))).
Proof.
  destruct handlers_keep_the_client as (H1 & H2 & H3 & H4 & H5).
  intros _ Hno Hex.
  destruct e as [u|u|us|gs|ms]; cbn [emit] in *;
    try (exfalso; apply Hex;
         first [rewrite (H2 u w)|rewrite (H3 us w)|rewrite (H4 gs w)
               |rewrite (H5 ms w)]; exact Hno).
  revert Hex. unfold bind. specialize (H1 u w).
  destruct (WhatsAppController.handleConnectionUpdate u w) as [[[]|err] w1];
    simpl in H1; unfold same_client in H1;
    [|simpl; rewrite H1; congruence].
  unfold reconnection, process_exit, bind, gets, modify, logger.warn,
    logger.error, log.
  destruct (connection u) as [[]|] eqn:Hconn; simpl;
    try (rewrite H1; congruence).
  destruct (bool_decide _) eqn:B; simpl.
  - intros _. split; [reflexivity|]. exists u. split; [reflexivity|].
    split; [exact Hconn|]. left.
    now apply bool_decide_eq_true_1 in B.
  - rewrite H1.
    destruct (reconnectAttempts (client w) <? _)%nat eqn:E; simpl.
    + rewrite H1. congruence.
    + intros _. split; [reflexivity|]. exists u. split; [reflexivity|].
      split; [exact Hconn|]. right. split.
      * now apply bool_decide_eq_false_1 in B.
      * now apply Nat.ltb_ge in E.
Qed.

Lemma exit_only_on_logout_or_exhaustion_witness :
  exited (client (snd (emit (connection_update
    {| connection := Some conn_close;
       statusCode := Some DisconnectReason.loggedOut; qr := None |})
    two_groups))) = Some 1.
Proof.
  refine (proj1 (exit_only_on_logout_or_exhaustion
                   (connection_update
                      {| connection := Some conn_close;
                         statusCode := Some DisconnectReason.loggedOut;
                         qr := None |})
                   two_groups eq_refl eq_refl _)).
  vm_compute. discriminate.
Defined.

(** ** The scan at connection time *)

Lemma targetIds_cons g md l :
  targetIds ((g, md) :: l) =
  (if GroupService.isTargetGroup (Some (subject md)) then {[g]} else ∅)
  ∪ targetIds l.
Proof.
  unfold targetIds. cbn [List.filter snd].
  destruct (GroupService.isTargetGroup (Some (subject md))); simpl; set_solver.
Qed.

Lemma targetIds_keys g l : g ∈ targetIds l -> In g (map fst l).
Proof.
  unfold targetIds. rewrite elem_of_list_to_set, list_elem_of_In.
  intros H. apply in_map_iff in H as (entry & <- & Hin).
  apply filter_In in Hin as [Hin _]. now apply in_map.
Qed.

Lemma scan_entry g md w :
  calm w -> wf_db (db w) ->
  GroupService.isTargetGroup (Some (subject md)) = true ->
  wp (logger.info ("Found target group: " +:+ subject md
                   +:+ " (" +:+ g +:+ ")") ;;
      GroupService.addGroupToMonitored g (Some (subject md)) ;;
      GroupService.syncGroupMembers g (participants md) ;;
      logger.success ("Target group '" +:+ subject md +:+ "' ("
                      +:+ g +:+ ") synchronized"))
     (fun _ w' =>
        calm w' /\ wf_db (db w') /\
        monitoredGroupsCache w' = {[g]} ∪ monitoredGroupsCache w /\
        persisted (groups (db w')) = {[g]} ∪ persisted (groups (db w)) /\
        reconciled g (participants md) w w') w.
Proof.
  intros Hc Hwf Hk.
  apply wp_bind. unfold logger.info at 1. apply wp_log.
  apply wp_bind.
  eapply wp_conseq; [apply addGroupToMonitored_spec; exact Hc|].
  intros [] w1 (Hc1 & Hca1 & Hgr1 & Hu1 & Hn1 & _).
  cbn [log modify snd with_out env clock db groups users nextId
       monitoredGroupsCache] in Hgr1, Hu1, Hn1, Hca1.
  apply wp_bind.
  eapply wp_conseq.
  { apply (syncGroupMembers_spec g (participants md)); [exact Hc1| |].
    - apply (registration_preserves_wf w); assumption.
    - rewrite Hca1. set_solver. }
  intros [] w2 ((Hc2 & Hca2 & Hgr2 & _ & Hwf2 & _) & Hrec & _).
  unfold logger.success. apply wp_log.
  split; [exact Hc2|]. split; [exact Hwf2|]. split; [|split].
  - change (monitoredGroupsCache w2 = {[g]} ∪ monitoredGroupsCache w).
    now rewrite Hca2.
  - change (persisted (groups (db w2)) = {[g]} ∪ persisted (groups (db w))).
    rewrite Hgr2, Hgr1. apply persisted_register.
  - assert (Hm : forall p g', membership p g' w1 = membership p g' w)
      by (intros; unfold membership; now rewrite Hu1).
    destruct Hrec as (R1 & R2 & R3). split; [|split].
    + exact R1.
    + intros p Hp. specialize (R2 p Hp). rewrite Hm in R2. exact R2.
    + intros p g' Hne. rewrite <- Hm. now apply R3.
Qed.

Lemma scan_loop l : NoDup (map fst l) -> forall w,
  calm w -> wf_db (db w) ->
  wp (forEach l (fun entry =>
        let groupId := fst entry in
        let metadata := snd entry in
        when (GroupService.isTargetGroup (Some (subject metadata)))
          (logger.info ("Found target group: " +:+ subject metadata
                        +:+ " (" +:+ groupId +:+ ")") ;;
           GroupService.addGroupToMonitored groupId
             (Some (subject metadata)) ;;
           GroupService.syncGroupMembers groupId (participants metadata) ;;
           logger.success ("Target group '" +:+ subject metadata +:+ "' ("
                           +:+ groupId +:+ ") synchronized"))))
     (fun _ w' =>
        calm w' /\ wf_db (db w') /\
        monitoredGroupsCache w' = targetIds l ∪ monitoredGroupsCache w /\
        persisted (groups (db w')) = targetIds l ∪ persisted (groups (db w)) /\
        (forall g md, In (g, md) l ->
           GroupService.isTargetGroup (Some (subject md)) = true ->
           roster_reconciled g (participants md) w w') /\
        (forall p g, g ∉ targetIds l ->
           membership p g w' = membership p g w)) w.
Proof.
  induction l as [|[g md] l IH]; intros Hnd w Hc Hwf.
  - cbn [forEach]. apply wp_ret.
    split; [exact Hc|]. split; [exact Hwf|].
    unfold targetIds. simpl.
    split; [set_solver|]. split; [set_solver|]. split; [intros ? ? []|auto].
  - cbn [map fst] in Hnd. apply NoDup_cons in Hnd as [Hg Hnd].
    rewrite list_elem_of_In in Hg.
    cbn [forEach]. apply wp_bind. cbv zeta. cbn [fst snd].
    rewrite targetIds_cons.
    destruct (GroupService.isTargetGroup (Some (subject md))) eqn:Hk;
      cbn [when].
    + eapply wp_conseq; [apply scan_entry; assumption|].
      intros [] w1 (Hc1 & Hwf1 & Hca1 & Hpe1 & R1 & R2 & R3).
      eapply wp_conseq; [apply (IH Hnd w1 Hc1 Hwf1)|].
      intros [] w2 (Hc2 & Hwf2 & Hca2 & Hpe2 & Hrec & Hoth).
      assert (Hgl : g ∉ targetIds l)
        by (intros H; apply Hg; now apply targetIds_keys).
      split; [exact Hc2|]. split; [exact Hwf2|].
      split; [rewrite Hca2, Hca1; set_solver|].
      split; [rewrite Hpe2, Hpe1; set_solver|]. split.
      * intros g' md' [E|Hin] Hk'.
        -- injection E as <- <-. split.
           ++ intros p Hp. rewrite (Hoth p g Hgl). now apply R1.
           ++ intros p Hp. rewrite (Hoth p g Hgl). now apply R2.
        -- destruct (Hrec g' md' Hin Hk') as [Q1 Q2].
           assert (Hne : g' <> g).
           { intros ->. apply Hg.
             change g with (fst (g, md')). now apply in_map. }
           split; [exact Q1|].
           intros p Hp. specialize (Q2 p Hp).
           now rewrite (R3 p g' Hne) in Q2.
      * intros p g' Hno. rewrite (Hoth p g') by set_solver.
        apply R3. set_solver.
    + apply wp_ret.
      eapply wp_conseq; [apply (IH Hnd w Hc Hwf)|].
      intros [] w2 (Hc2 & Hwf2 & Hca2 & Hpe2 & Hrec & Hoth).
      split; [exact Hc2|]. split; [exact Hwf2|].
      split; [rewrite Hca2; set_solver|].
      split; [rewrite Hpe2; set_solver|]. split.
      * intros g' md' [E|Hin] Hk'.
        -- injection E as <- <-. congruence.
        -- now apply Hrec.
      * intros p g' Hno. apply Hoth. set_solver.
Qed.

(** X24. The scan at connection time.  When a connection opens, the
    server lists the groups of the account (each once) and the store
    answers: the handler returns normally; exactly the listed groups whose
    name carries the keyword are added to the cache and to the persisted
    monitored set; the records of each of them are reconciled with its
    roster; the records of every other group are what they were; and the
    attempt counter is back at 0. *)
Theorem connection_open_registers_keyword_groups
    (u : ConnectionUpdate) (sock : Socket)
    (r : list (string * GroupMetadata)) (w : World) :
  connection u = Some conn_open ->
  calm w -> wf_db (db w) ->
  socket (env w) = Some sock -> remote sock = Some r ->
  NoDup (map fst r) ->
  let w' := snd (emit (connection_update u) w) in
  fst (emit (connection_update u) w) = Ok tt /\
  monitoredGroupsCache w' = targetIds r ∪ monitoredGroupsCache w /\
  persisted (groups (db w')) = targetIds r ∪ persisted (groups (db w)) /\
  (forall g md, In (g, md) r ->
     GroupService.isTargetGroup (Some (subject md)) = true ->
     roster_reconciled g (participants md) w w') /\
  (forall p g, g ∉ targetIds r -> membership p g w' = membership p g w) /\
  reconnectAttempts (client w') = 0.
Proof.
  intros Hopen Hc Hwf Hs Hr Hnd w'. subst w'.
  assert (H : wp (emit (connection_update u))
     (fun _ w' =>
        monitoredGroupsCache w' = targetIds r ∪ monitoredGroupsCache w /\
        persisted (groups (db w')) = targetIds r ∪ persisted (groups (db w)) /\
        (forall g md, In (g, md) r ->
           GroupService.isTargetGroup (Some (subject md)) = true ->
           roster_reconciled g (participants md) w w') /\
        (forall p g, g ∉ targetIds r -> membership p g w' = membership p g w) /\
        reconnectAttempts (client w') = 0) w).
  { cbn [emit]. apply wp_bind.
    unfold WhatsAppController.handleConnectionUpdate. rewrite Hopen.
    apply wp_bind.
    apply (wp_conseq _ (fun _ w0 =>
             calm w0 /\ db w0 = db w /\ socket (env w0) = socket (env w) /\
             monitoredGroupsCache w0 = monitoredGroupsCache w)).
    { destruct (truthyOpt (qr u)); cbn [when].
      - unfold logger.info. apply wp_log. repeat split. exact Hc.
      - apply wp_ret. repeat split. exact Hc. }
    intros [] w0 (Hc0 & Hdb0 & Hs0 & Hca0).
    apply wp_bind. unfold logger.success. apply wp_log.
    unfold WhatsAppClient.getSocket at 1. apply wp_bind, wp_gets.
    apply wp_bind.
    apply (wp_conseq _ (fun _ w1 =>
             calm w1 /\ db w1 = db w /\ socket (env w1) = socket (env w) /\
             monitoredGroupsCache w1 = monitoredGroupsCache w)).
    { cbn [log modify snd with_out env]. rewrite Hs0, Hs.
      destruct sock as [[[uname uid]|] rem].
      - unfold logger.info. apply wp_log.
        split; [exact Hc0|]. split; [exact Hdb0|].
        split; [exact (eq_trans Hs0 Hs)|exact Hca0].
      - apply wp_ret.
        split; [exact Hc0|]. split; [exact Hdb0|].
        split; [exact (eq_trans Hs0 Hs)|exact Hca0]. }
    intros [] w1 (Hc1 & Hdb1 & Hs1 & Hca1).
    apply wp_bind. unfold logger.info at 1. apply wp_log.
    unfold WhatsAppClient.fetchAndMonitorTargetGroups,
      WhatsAppClient.getSocket. apply wp_bind, wp_gets.
    cbn [log modify snd with_out env]. rewrite Hs1, Hs.
    apply wp_tryCatch, wp_bind.
    unfold WhatsAppClient.groupFetchAllParticipating. rewrite Hr.
    apply wp_ret, wp_bind. unfold logger.info at 1. apply wp_log.
    match goal with |- wp _ _ ?W => set (w1' := W) end.
    assert (Hdb' : db w1' = db w) by exact Hdb1.
    assert (Hca' : monitoredGroupsCache w1' = monitoredGroupsCache w)
      by exact Hca1.
    assert (Hc' : calm w1') by exact Hc1.
    clearbody w1'.
    eapply wp_conseq.
    { apply (scan_loop r Hnd); [exact Hc'|now rewrite Hdb']. }
    intros [] w2 (Hc2 & Hwf2 & Hca2 & Hpe2 & Hrec & Hoth).
    assert (Hm : forall p g, membership p g w1' = membership p g w)
      by (intros; unfold membership; now rewrite Hdb').
    unfold reconnection. rewrite Hopen. apply wp_modify.
    split; [cbn; rewrite Hca2, Hca'; reflexivity|].
    split; [cbn; rewrite Hpe2, Hdb'; reflexivity|].
    split; [|split; [|reflexivity]].
    - intros g md Hin Hk. destruct (Hrec g md Hin Hk) as [Q1 Q2].
      split; [exact Q1|]. intros p Hp. specialize (Q2 p Hp).
      rewrite Hm in Q2. exact Q2.
    - intros p g Hno. rewrite <- Hm. now apply Hoth. }
  destruct (wp_elim _ _ _ H) as ([] & Hok & H'). split; assumption.
Qed.

Lemma connection_open_registers_keyword_groups_witness :
  let friends := {| subject := "Neol Friends"; participants := ["111"; "222"] |} in
  let others := {| subject := "Random Chat"; participants := ["333"] |} in
  let r := [("1@g.us", friends); ("2@g.us", others)] in
  let e := {| clock := 0; faults := [];
              socket := Some {| user := None; remote := Some r |} |} in
  let w := boot {| groups := []; users := []; nextId := 0 |} e in
  let opened := {| connection := Some conn_open; statusCode := None;
                   qr := None |} in
  roster_reconciled "1@g.us" ["111"; "222"] w
    (snd (emit (connection_update opened) w)).
Proof.
  intros friends others r e w opened.
  assert (Hwf : wf_db (db w)) by (repeat split; constructor).
  assert (Hnd : NoDup (map fst r))
    by (apply (bool_decide_unpack _); vm_compute; exact I).
  exact (proj1 (proj2 (proj2 (proj2
    (connection_open_registers_keyword_groups opened _ r w
       eq_refl eq_refl Hwf eq_refl eq_refl Hnd))))
    "1@g.us" friends (or_introl eq_refl) eq_refl).
Defined.

(** ** The earlier bot and its successor *)

Lemma swallowed (body : M unit) (msg : Error -> string) w :
  fst (tryCatch body (fun error => logger.error (msg error)) w) = Ok tt /\
  snd (tryCatch body (fun error => logger.error (msg error)) w) =
  snd (tryCatch body (fun error => logger.error (msg error) ;; throw error) w).
Proof.
  unfold tryCatch. destruct (body w) as [[[]|e] w1]; split; reflexivity.
Qed.

Lemma guarded_swallowed g (skip body : M unit) (msg : Error -> string) w :
  fst (skip w) = Ok tt ->
  let legacy :=
    monitored <- GroupService.isMonitored g ;;
    if negb monitored then skip
    else tryCatch body (fun error => logger.error (msg error)) in
  let service :=
    monitored <- GroupService.isMonitored g ;;
    if negb monitored then skip
    else tryCatch body (fun error => logger.error (msg error) ;; throw error) in
  fst (legacy w) = Ok tt /\ snd (legacy w) = snd (service w).
Proof.
  intros Hskip legacy service. subst legacy service.
  rewrite !(bind_Ok _ _ _ _ _ (isMonitored_run g w)).
  destruct (negb _); [split; [exact Hskip|reflexivity]|apply swallowed].
Qed.

(** X25. The services of the earlier single-file bot and those of
    [GroupService] write the same things: from any state and whatever the
    store answers, each pair leaves exactly the same state (collections,
    cache, log, store calls).  They differ in one respect only: the earlier
    ones always return normally, also where their successors throw the
    error on. *)
Theorem legacy_services_differ_only_in_rethrowing :
  (forall w,
     fst (LegacyBot.loadMonitoredGroups w) = Ok tt /\
     snd (LegacyBot.loadMonitoredGroups w) =
     snd (GroupService.loadMonitoredGroups w)) /\
  (forall g n w,
     fst (LegacyBot.addGroupToMonitored g n w) = Ok tt /\
     snd (LegacyBot.addGroupToMonitored g n w) =
     snd (GroupService.addGroupToMonitored g n w)) /\
  (forall g ms w,
     fst (LegacyBot.syncGroupMembers g ms w) = Ok tt /\
     snd (LegacyBot.syncGroupMembers g ms w) =
     snd (GroupService.syncGroupMembers g ms w)) /\
  (forall g ms w,
     fst (LegacyBot.handleMembersAdded g ms w) = Ok tt /\
     snd (LegacyBot.handleMembersAdded g ms w) =
     snd (GroupService.handleMembersAdded g ms w)) /\
  (forall g ms w,
     fst (Legacy.handleMembersRemoved g ms w) = Ok tt /\
     snd (Legacy.handleMembersRemoved g ms w) =
     snd (GroupService.handleMembersRemoved g ms w)).
Proof.
  split; [|split; [|split; [|split]]].
  - intros w. apply (swallowed _
      (fun error => "Error loading monitored groups: " +:+ showError error)).
  - intros g n w. apply (swallowed _
      (fun error => "Error adding group to monitored list: "
                    +:+ showError error)).
  - intros g ms w. apply (guarded_swallowed g _ _
      (fun error => "Error syncing group members: " +:+ showError error)).
    reflexivity.
  - intros g ms w. apply (guarded_swallowed g _ _
      (fun error => "Error adding members: " +:+ showError error)).
    reflexivity.
  - intros g ms w. apply (guarded_swallowed g _ _
      (fun error => "Error marking members as inactive: "
                    +:+ showError error)).
    reflexivity.
Qed.

(** ** Registration by the router *)

(** What every registering path of the router does after the upsert of
    the group document: the reconciliation of the roster. *)
Lemma registered_then_synced g n ms w w1 :
  wf_db (db w) ->
  calm w1 ->
  monitoredGroupsCache w1 = {[g]} ∪ monitoredGroupsCache w ->
  groups (db w1) =
    Group.write g (registration n (clock (env w))) true
                (S (clock (env w))) (groups (db w)) ->
  users (db w1) = users (db w) -> nextId (db w1) = nextId (db w) ->
  wp (GroupService.syncGroupMembers g ms)
     (fun _ w2 =>
        calm w2 /\ wf_db (db w2) /\
        socket (env w2) = socket (env w1) /\
        monitoredGroupsCache w2 = {[g]} ∪ monitoredGroupsCache w /\
        groups (db w2) = groups (db w1) /\
        persisted (groups (db w2)) = {[g]} ∪ persisted (groups (db w)) /\
        reconciled g ms w w2) w1.
Proof.
  intros Hwf Hc1 Hca1 Hgr1 Hu1 Hn1.
  eapply wp_conseq.
  { apply (syncGroupMembers_spec g ms); [exact Hc1| |].
    - apply (registration_preserves_wf w); assumption.
    - rewrite Hca1. set_solver. }
  intros [] w2 ((Hc2 & Hca2 & Hgr2 & Hso2 & Hwf2 & _) & Hrec & _).
  split; [exact Hc2|]. split; [exact Hwf2|]. split; [exact Hso2|].
  split; [now rewrite Hca2|]. split; [exact Hgr2|].
  split; [rewrite Hgr2, Hgr1; apply persisted_register|].
  assert (Hm : forall p g', membership p g' w1 = membership p g' w)
    by (intros; unfold membership; now rewrite Hu1).
  destruct Hrec as (R1 & R2 & R3). split; [|split].
  - exact R1.
  - intros p Hp. specialize (R2 p Hp). rewrite Hm in R2. exact R2.
  - intros p g' Hne. rewrite <- Hm. now apply R3.
Qed.


(** An element between elements that only log. *)
Lemma wp_forEach_among {X} (pre post : list X) x body
    (Q : unit -> World -> Prop) w :
  (forall y, In y pre ->
     forall w, fst (body y w) = Ok tt /\ only_logged w (snd (body y w))) ->
  (forall y, In y post ->
     forall w, fst (body y w) = Ok tt /\ only_logged w (snd (body y w))) ->
  (forall w0, only_logged w w0 ->
     wp (body x) (fun _ w1 => forall w2, only_logged w1 w2 -> Q tt w2) w0) ->
  wp (forEach (pre ++ x :: post) body) Q w.
Proof.
  intros Hpre Hpost Hx. unfold wp. rewrite forEach_app. unfold bind at 1.
  destruct (forEach_all only_logged pre body Hpre w) as [Hok L0].
  destruct (forEach pre body w) as [r0 w0]. simpl in Hok, L0. subst r0.
  cbn [forEach]. unfold bind.
  specialize (Hx w0 L0). unfold wp in Hx.
  destruct (body x w0) as [[[]|e] w1]; [|contradiction].
  destruct (forEach_all only_logged post body Hpost w1) as [Hok2 L2].
  destruct (forEach post body w1) as [r2 w2]. simpl in Hok2, L2. subst r2.
  now apply Hx.
Qed.

Lemma reconciled_db g ms a b a' b' :
  db a' = db a -> db b' = db b ->
  reconciled g ms a b -> reconciled g ms a' b'.
Proof.
  unfold reconciled, membership. intros -> ->. auto.
Qed.

(** X26. Being added to a group whose name carries the keyword, alone or
    together with groups whose names do not, registers it: when the store
    answers, the listener returns, the group is in the cache and persisted
    as monitored under its name; with a roster in the event the records are
    reconciled with it (every listed identifier has an active record, an
    unlisted active record of the group has [isActive = false], an unlisted
    inactive one is as it was, other groups are untouched), and without one
    (absent or empty) no membership record is touched. *)
Theorem new_keyword_group_is_registered
    (pre post : list NewGroup) (group : NewGroup) (w : World) :
  Forall (fun other => GroupService.isTargetGroup (ng_subject other) = false)
         pre ->
  Forall (fun other => GroupService.isTargetGroup (ng_subject other) = false)
         post ->
  GroupService.isTargetGroup (ng_subject group) = true ->
  calm w -> wf_db (db w) ->
  let g := ng_id group in
  let w' := snd (emit (groups_upsert (pre ++ group :: post)) w) in
  fst (emit (groups_upsert (pre ++ group :: post)) w) = Ok tt /\
  g ∈ monitoredGroupsCache w' /\
  (exists doc, List.find (Group.hasId g) (groups (db w')) = Some doc /\
               IGroup.isMonitored doc = true /\
               IGroup.name doc = ng_subject group) /\
  match ng_participants group with
  | Some (p :: ps) => reconciled g (p :: ps) w w'
  | _ => users (db w') = users (db w)
  end.
Proof.
  intros Hpre Hpost Hk Hc Hwf g w'. subst w'.
  rewrite List.Forall_forall in Hpre, Hpost.
  assert (Hname : exists n, ng_subject group = Some n).
  { destruct (ng_subject group) as [n|]; [eauto|discriminate]. }
  destruct Hname as (n & Hname).
  assert (H : wp (emit (groups_upsert (pre ++ group :: post)))
     (fun _ w' =>
        monitoredGroupsCache w' = {[g]} ∪ monitoredGroupsCache w /\
        groups (db w') =
          Group.write g (registration (ng_subject group) (clock (env w))) true
                      (S (clock (env w))) (groups (db w)) /\
        match ng_participants group with
        | Some (p :: ps) => reconciled g (p :: ps) w w'
        | _ => users (db w') = users (db w)
        end) w).
  { cbn [emit]. unfold WhatsAppController.handleGroupsUpsert.
    apply wp_forEach_among.
    - intros other Hin w0. rewrite (Hpre other Hin). repeat split.
    - intros other Hin w0. rewrite (Hpost other Hin). repeat split.
    - intros w0 (Hdb0 & Hca0 & Hen0 & _).
      assert (Hc0 : calm w0) by (unfold calm; now rewrite Hen0).
      apply wp_bind. unfold logger.info at 1. apply wp_log.
      rewrite Hk. apply wp_bind. unfold logger.info at 1. apply wp_log.
      apply wp_bind.
      eapply wp_conseq; [apply addGroupToMonitored_spec; exact Hc0|].
      intros [] w1 (Hc1 & Hca1 & Hgr1 & Hu1 & Hn1 & _).
      cbn [log modify snd with_out env clock db groups users nextId
           monitoredGroupsCache] in Hgr1, Hu1, Hn1, Hca1.
      rewrite Hen0, Hdb0 in Hgr1. rewrite Hdb0 in Hu1, Hn1.
      rewrite Hca0 in Hca1.
      fold g in Hca1, Hgr1. fold g.
      destruct (ng_participants group) as [[|p ps]|].
      + apply wp_ret. intros w2 (Hdb2 & Hca2 & _).
        rewrite Hdb2, Hca2. auto.
      + apply wp_bind.
        eapply wp_conseq;
          [apply (registered_then_synced g (ng_subject group) (p :: ps) w w1);
           assumption|].
        intros [] w2 (_ & _ & _ & Hca2 & Hgr2 & _ & Hrec).
        unfold logger.success. apply wp_log.
        intros w3 (Hdb3 & Hca3 & _).
        cbn [log modify snd with_out db monitoredGroupsCache] in Hdb3, Hca3.
        split; [now rewrite Hca3|]. split; [now rewrite Hdb3, Hgr2|].
        exact (reconciled_db _ _ _ _ _ _ eq_refl Hdb3 Hrec).
      + apply wp_ret. intros w2 (Hdb2 & Hca2 & _).
        rewrite Hdb2, Hca2. auto. }
  destruct (wp_elim _ _ _ H) as ([] & Hok & Hca & Hgr & Hrec).
  set (w' := snd (emit (groups_upsert (pre ++ group :: post)) w)) in *.
  destruct (find_registered g (ng_subject group) (clock (env w))
              (S (clock (env w))) (groups (db w)))
    as (doc & Hf & Hid & Hm & Hnm).
  rewrite <- Hgr in Hf.
  split; [exact Hok|]. split; [rewrite Hca; set_solver|].
  split; [|exact Hrec].
  exists doc. split; [exact Hf|]. split; [exact Hm|].
  rewrite Hname. apply Hnm. exact Hname.
Qed.

Lemma new_keyword_group_is_registered_witness :
  let club := {| ng_id := "7@g.us"; ng_subject := Some "Book club";
                 ng_participants := Some ["333"] |} in
  let group := {| ng_id := "5@g.us"; ng_subject := Some "neol 2024";
                  ng_participants := Some ["111"] |} in
  "5@g.us" ∈ monitoredGroupsCache
    (snd (emit (groups_upsert ([club] ++ group :: [])) two_groups)).
Proof.
  intros club group.
  assert (Hwf : wf_db (db two_groups)).
  { repeat split.
    - apply (bool_decide_unpack _). vm_compute. exact I.
    - apply (bool_decide_unpack _). vm_compute. exact I.
    - repeat constructor. }
  assert (Hpre : Forall (fun other =>
                   GroupService.isTargetGroup (ng_subject other) = false)
                 [club]) by (repeat constructor).
  assert (Hpost : Forall (fun other =>
                    GroupService.isTargetGroup (ng_subject other) = false)
                  []) by constructor.
  exact (proj1 (proj2 (new_keyword_group_is_registered [club] [] group
                         two_groups Hpre Hpost eq_refl eq_refl Hwf))).
Defined.

(** X27. A group that is not monitored and is renamed to a name with the
    keyword, in an event of its own or together with updates that rename
    nothing, becomes monitored: when the server answers the metadata query
    and the store answers, the listener returns, the group is in the cache
    and persisted as monitored under the new name of the event, and its
    records are reconciled with the roster of the metadata (every listed
    identifier has an active record, an unlisted active record of the group
    has [isActive = false], an unlisted inactive one is as it was, other
    groups are untouched). *)
Theorem renamed_to_keyword_is_registered
    (pre post : list GroupUpdate)
    (g n : string) (sock : Socket) (r : list (string * GroupMetadata))
    (md : GroupMetadata) (w : World) :
  Forall (fun other => renames other = false) pre ->
  Forall (fun other => renames other = false) post ->
  truthy g = true -> truthy n = true ->
  GroupService.isTargetGroup (Some n) = true ->
  g ∉ monitoredGroupsCache w ->
  calm w -> wf_db (db w) ->
  socket (env w) = Some sock -> remote sock = Some r -> assoc g r = Some md ->
  let renamed :=
    groups_update (pre ++ {| gu_id := Some g; gu_subject := Some n |} :: post) in
  let w' := snd (emit renamed w) in
  fst (emit renamed w) = Ok tt /\
  g ∈ monitoredGroupsCache w' /\
  (exists doc, List.find (Group.hasId g) (groups (db w')) = Some doc /\
               IGroup.isMonitored doc = true /\ IGroup.name doc = Some n) /\
  reconciled g (participants md) w w'.
Proof.
  intros Hpre Hpost Tg Tn Hk Hg Hc Hwf Hs Hr Ha renamed w'. subst w' renamed.
  rewrite List.Forall_forall in Hpre, Hpost.
  assert (H : wp (emit (groups_update
                    (pre ++ {| gu_id := Some g; gu_subject := Some n |}
                         :: post)))
     (fun _ w' =>
        monitoredGroupsCache w' = {[g]} ∪ monitoredGroupsCache w /\
        groups (db w') =
          Group.write g (registration (Some n) (clock (env w))) true
                      (S (clock (env w))) (groups (db w)) /\
        reconciled g (participants md) w w') w).
  { cbn [emit]. unfold WhatsAppController.handleGroupsUpdate.
    match goal with |- wp (forEach _ ?b) _ _ => set (body := b) end.
    assert (Hother : forall other w0, renames other = false ->
              fst (body other w0) = Ok tt /\
              only_logged w0 (snd (body other w0))).
    { intros other w0 Hno. subst body. cbv beta. unfold renames in Hno.
      destruct (gu_id other) as [id|]; [|repeat split].
      destruct (truthy id); cbn [negb andb] in *; [|repeat split].
      unfold bind, GroupService.isMonitored, gets, when, logger.info, log,
        modify, ret.
      destruct (bool_decide _); cbn [fst snd];
        (destruct (gu_subject other) as [n'|]; [rewrite Hno|]);
        repeat split. }
    apply wp_forEach_among.
    - intros other Hin w0. apply Hother, Hpre, Hin.
    - intros other Hin w0. apply Hother, Hpost, Hin.
    - clear Hother. subst body. cbv beta.
      intros w0 (Hdb0 & Hca0 & Hen0 & _).
      assert (Hc0 : calm w0) by (unfold calm; now rewrite Hen0).
      assert (Hg0 : g ∉ monitoredGroupsCache w0) by now rewrite Hca0.
      assert (Hs0 : socket (env w0) = Some sock) by now rewrite Hen0.
      cbn [gu_id gu_subject]. rewrite Tg, Tn. cbn [negb]. cbv zeta.
      apply wp_bind.
      unfold GroupService.isMonitored at 1. apply wp_gets.
      rewrite (bool_decide_eq_false_2 _ Hg0). cbn [when].
      apply wp_bind, wp_ret, wp_bind.
      unfold GroupService.isMonitored at 1. apply wp_gets.
      rewrite (bool_decide_eq_false_2 _ Hg0), Hk.
      apply wp_bind. unfold logger.info at 1. apply wp_log.
      apply wp_tryCatch, wp_bind.
      unfold wp at 1.
      match goal with
      | |- context [WhatsAppClient.getGroupMetadata g ?W] =>
          rewrite (getGroupMetadata_spec g sock r md W Hs0 Hr Ha)
      end.
      apply wp_bind.
      eapply wp_conseq; [apply addGroupToMonitored_spec; exact Hc0|].
      intros [] w1 (Hc1 & Hca1 & Hgr1 & Hu1 & Hn1 & _).
      cbn [log modify snd with_out env clock db groups users nextId
           monitoredGroupsCache] in Hgr1, Hu1, Hn1, Hca1.
      rewrite Hen0, Hdb0 in Hgr1. rewrite Hdb0 in Hu1, Hn1.
      rewrite Hca0 in Hca1.
      apply wp_bind.
      eapply wp_conseq;
        [apply (registered_then_synced g (Some n) (participants md) w w1);
         assumption|].
      intros [] w2 (_ & _ & _ & Hca2 & Hgr2 & _ & Hrec).
      unfold logger.success. apply wp_log.
      intros w3 (Hdb3 & Hca3 & _).
      cbn [log modify snd with_out db monitoredGroupsCache] in Hdb3, Hca3.
      split; [now rewrite Hca3|]. split; [now rewrite Hdb3, Hgr2|].
      exact (reconciled_db _ _ _ _ _ _ eq_refl Hdb3 Hrec). }
  destruct (wp_elim _ _ _ H) as ([] & Hok & Hca & Hgr & Hrec).
  destruct (find_registered g (Some n) (clock (env w))
              (S (clock (env w))) (groups (db w)))
    as (doc & Hf & Hid & Hm & Hnm).
  rewrite <- Hgr in Hf.
  split; [exact Hok|]. split; [rewrite Hca; set_solver|].
  split; [|exact Hrec].
  exists doc. split; [exact Hf|]. split; [exact Hm|]. now apply Hnm.
Qed.

Lemma renamed_to_keyword_is_registered_witness :
  let md := {| subject := "Neol reunion"; participants := ["111"; "222"] |} in
  let w := with_env (fun e => {| clock := clock e; faults := faults e;
                                 socket := Some {| user := None;
                                   remote := Some [("9@g.us", md)] |} |})
                    two_groups in
  let other := {| gu_id := Some "1@g.us"; gu_subject := None |} in
  "9@g.us" ∈ monitoredGroupsCache
    (snd (emit (groups_update
                  ([other] ++ {| gu_id := Some "9@g.us";
                                 gu_subject := Some "Neol reunion" |} :: []))
               w)).
Proof.
  intros md w other.
  assert (Hwf : wf_db (db w)).
  { repeat split.
    - apply (bool_decide_unpack _). vm_compute. exact I.
    - apply (bool_decide_unpack _). vm_compute. exact I.
    - repeat constructor. }
  assert (Hg : "9@g.us" ∉ monitoredGroupsCache w)
    by (vm_compute; set_solver).
  assert (Hpre : Forall (fun other => renames other = false) [other])
    by (repeat constructor).
  assert (Hpost : Forall (fun other => renames other = false) [])
    by constructor.
  exact (proj1 (proj2 (renamed_to_keyword_is_registered [other] []
    "9@g.us" "Neol reunion" _ _ md w Hpre Hpost eq_refl eq_refl eq_refl Hg
    eq_refl Hwf eq_refl eq_refl eq_refl))).
Defined.


